(** * ETBackendV2: résumé extraction, candidate ranking and the guarded SQL agent

    A shallow embedding of the parts of the backend that the specification
    makes claims about:

    - [main/agent.py]: the SQL guardrail [validate_and_sanitize_sql] and its
      helpers, and the stored conversation [lyra_chat_supabase] with
      [main/chat_store.py];
    - [candidates/resume_parser.py]: [extract_skills], [extract_rest], the
      type detection and [_extract_text_by_type];
    - [main/jobpost_candidate_ranker.py]: the heuristic pre-rank and
      selection of [ranking_algo], and [final_rank_with_llm];
    - [candidates/tasks.py], [main/tasks.py] and the two view actions that
      submit them: the status machine of a candidate profile and a job post.

    Conventions.  A Python [str] is a list of characters; a character is a
    code point below 256, classified (whitespace, word character, digit,
    lower-casing) the way Python 3 classifies it.  A Python exception is a
    value of [exn]; a function that may raise returns a [result].  The
    regular expressions are kept as the pattern strings of the source and
    compiled by [Re.compile], which covers the syntax those patterns use
    (Python 3.11 or later, where a doubled plus is a possessive repeat). *)

From Stdlib Require Import List Ascii String NArith ZArith QArith Lia Bool.
From Stdlib Require Import Permutation Sorted DecimalString.
From stdpp Require Import gmap strings list.
Import ListNotations.

(* ================================================================== *)
(** * Python strings                                                    *)
(* ================================================================== *)

Definition str := list ascii.

(** A string literal of the source. *)
Definition L (s : string) : str := list_ascii_of_string s.
Arguments L s%_string : simpl never.

(** Exceptions the modelled code can raise, and results of fallible calls. *)
Inductive exn :=
| ValueError (msg : str)
| IndexError
| AttributeError
| TypeError
| KeyError
| ReError
| OtherError (what : str).

Inductive result (A : Type) :=
| Ok (a : A)
| Raise (e : exn).
Arguments Ok {A} a.
Arguments Raise {A} e.

Global Instance result_ret : MRet result := fun A a => Ok a.

Global Instance result_bind : MBind result := fun A B k r =>
  match r with
  | Ok a => k a
  | Raise e => Raise e
  end.

Module Py.

Definition code (c : ascii) : N := N_of_ascii c.

Definition between (lo hi n : N) : bool := (lo <=? n)%N && (n <=? hi)%N.

(** [str.isspace] on one character; also the class [\s] of [re]. *)
Definition is_space (c : ascii) : bool :=
  let n := code c in
  between 9 13 n || between 28 32 n || (n =? 133)%N || (n =? 160)%N.

(** The class [\d] of [re]. *)
Definition is_digit (c : ascii) : bool := between 48 57 (code c).

(** The class [\w] of [re] on [str] patterns: alphanumerics and the
    underscore. *)
Definition is_word (c : ascii) : bool :=
  let n := code c in
  between 48 57 n || between 65 90 n || between 97 122 n || (n =? 95)%N
  || (n =? 170)%N || (n =? 178)%N || (n =? 179)%N || (n =? 181)%N
  || (n =? 185)%N || (n =? 186)%N || between 188 190 n
  || between 192 214 n || between 216 246 n || between 248 255 n.

(** [str.lower] on one character. *)
Definition lower_char (c : ascii) : ascii :=
  let n := code c in
  if between 65 90 n || (between 192 222 n && negb (n =? 215)%N)
  then ascii_of_N (n + 32) else c.

Definition lower (s : str) : str := map lower_char s.

Fixpoint eqb (a b : str) : bool :=
  match a, b with
  | [], [] => true
  | x :: a', y :: b' => Ascii.eqb x y && eqb a' b'
  | _, _ => false
  end.

(** [s.startswith(p)]. *)
Fixpoint startswith (p s : str) : bool :=
  match p, s with
  | [], _ => true
  | x :: p', y :: s' => Ascii.eqb x y && startswith p' s'
  | _ :: _, [] => false
  end.

(** [sub in s]. *)
Fixpoint contains (sub s : str) : bool :=
  startswith sub s ||
  match s with
  | [] => false
  | _ :: s' => contains sub s'
  end.

(** [x in xs] for a collection of strings. *)
Definition mem (x : str) (xs : list str) : bool := existsb (eqb x) xs.

Fixpoint lstrip (s : str) : str :=
  match s with
  | c :: s' => if is_space c then lstrip s' else s
  | [] => []
  end.

Definition rstrip (s : str) : str := rev (lstrip (rev s)).

(** [s.strip()]. *)
Definition strip (s : str) : str := rstrip (lstrip s).

Fixpoint lstrip_char (ch : ascii) (s : str) : str :=
  match s with
  | c :: s' => if Ascii.eqb c ch then lstrip_char ch s' else s
  | [] => []
  end.

(** [s.rstrip(ch)] for a one-character argument. *)
Definition rstrip_char (ch : ascii) (s : str) : str :=
  rev (lstrip_char ch (rev s)).

(** [s.split(sep)] for a non-empty separator: [cur] is the piece being
    read (reversed), [skip] counts the characters of a separator that
    are still to be dropped. *)
Fixpoint split_go (sep s : str) (skip : nat) (cur : str) : list str :=
  match s with
  | [] => [rev cur]
  | c :: s' =>
      match skip with
      | S k => split_go sep s' k cur
      | O =>
          if startswith sep s
          then rev cur :: split_go sep s' (length sep - 1) []
          else split_go sep s' 0 (c :: cur)
      end
  end.

Definition split (sep s : str) : list str := split_go sep s 0 [].

(** [s.split()]: pieces between runs of whitespace, none empty. *)
Fixpoint split_ws_go (s cur : str) : list str :=
  match s with
  | [] => match cur with [] => [] | _ => [rev cur] end
  | c :: s' =>
      if is_space c
      then match cur with
           | [] => split_ws_go s' []
           | _ => rev cur :: split_ws_go s' []
           end
      else split_ws_go s' (c :: cur)
  end.

Definition split_ws (s : str) : list str := split_ws_go s [].

(** [s.replace(old, new)] for a non-empty [old]. *)
Fixpoint replace_go (old new s : str) (skip : nat) : str :=
  match s with
  | [] => []
  | c :: s' =>
      match skip with
      | S k => replace_go old new s' k
      | O =>
          if startswith old s
          then new ++ replace_go old new s' (length old - 1)
          else c :: replace_go old new s' 0
      end
  end.

Definition replace (old new s : str) : str := replace_go old new s 0.

(** [sep.join(xs)]. *)
Fixpoint join (sep : str) (xs : list str) : str :=
  match xs with
  | [] => []
  | [x] => x
  | x :: xs' => x ++ sep ++ join sep xs'
  end.

(** [xs[0]] and [xs[-1]]. *)
Definition first (xs : list str) : result str :=
  match xs with
  | x :: _ => Ok x
  | [] => Raise IndexError
  end.

Definition last (xs : list str) : result str :=
  match rev xs with
  | x :: _ => Ok x
  | [] => Raise IndexError
  end.

(** [str(n)] for a natural number. *)
Definition of_nat (n : nat) : str :=
  L (NilZero.string_of_uint (Nat.to_uint n)).

Definition digit_value (c : ascii) : N := (code c - 48)%N.

(** The value of a string of decimal digits. *)
Definition digits_value (s : str) : N :=
  fold_left (fun acc c => (acc * 10 + digit_value c)%N) s 0%N.

(** [int(s)] on a non-empty string of ASCII digits.  Python 3.11 refuses
    more than 4300 digits with a [ValueError]. *)
Definition int (s : str) : result N :=
  if (4300 <? length s)%nat
  then Raise (ValueError
                (L "Exceeds the limit (4300 digits) for integer string conversion"))
  else Ok (digits_value s).

(** Lexicographic order on strings, by code point: [a < b]. *)
Fixpoint ltb (a b : str) : bool :=
  match a, b with
  | [], [] => false
  | [], _ :: _ => true
  | _ :: _, [] => false
  | x :: a', y :: b' =>
      if (code x <? code y)%N then true
      else if (code y <? code x)%N then false
      else ltb a' b'
  end.

(** [sorted(set(xs))] for strings: insertion into a strictly increasing
    list, dropping duplicates. *)
Fixpoint insert_sorted (x : str) (xs : list str) : list str :=
  match xs with
  | [] => [x]
  | y :: ys =>
      if ltb x y then x :: xs
      else if eqb x y then xs
      else y :: insert_sorted x ys
  end.

Definition sorted_set (xs : list str) : list str :=
  fold_right insert_sorted [] xs.

End Py.

(* ================================================================== *)
(** * Regular expressions                                               *)
(* ================================================================== *)

(** The fragment of Python's [re] that the source's patterns use: literal
    characters, the classes [\s] and [\d], the word boundary [\b], the
    greedy and the possessive one-or-more repeat of a single character or
    class, and one capturing group. *)
Module Re.

Inductive atom :=
| ALit (c : ascii)
| ASpace
| ADigit.

Inductive quant :=
| QOne
| QPlus
| QPoss.

Inductive node :=
| NAtom (a : atom) (q : quant)
| NBound
| NOpen
| NClose.

Definition regex := list node.

(** ** Compiling a pattern string *)

Inductive token :=
| TAtom (a : atom)
| TBound
| TPlus
| TOpen
| TClose.

(** Characters with a meaning of their own in a pattern. *)
Definition is_special (c : ascii) : bool :=
  Py.contains [c] (L ".^$*+?{}[]|()\").

Fixpoint tokens (p : str) : option (list token) :=
  match p with
  | [] => Some []
  | "\"%char :: c :: p' =>
      t ← (if Ascii.eqb c "b" then Some TBound
           else if Ascii.eqb c "s" then Some (TAtom ASpace)
           else if Ascii.eqb c "d" then Some (TAtom ADigit)
           else None);
      ts ← tokens p';
      Some (t :: ts)
  | c :: p' =>
      t ← (if Ascii.eqb c "+" then Some TPlus
           else if Ascii.eqb c "(" then Some TOpen
           else if Ascii.eqb c ")" then Some TClose
           else if is_special c then None
           else Some (TAtom (ALit c)));
      ts ← tokens p';
      Some (t :: ts)
  end.

Fixpoint nodes (ts : list token) : option regex :=
  match ts with
  | [] => Some []
  | TAtom a :: TPlus :: TPlus :: ts' => cons (NAtom a QPoss) <$> nodes ts'
  | TAtom a :: TPlus :: ts' => cons (NAtom a QPlus) <$> nodes ts'
  | TAtom a :: ts' => cons (NAtom a QOne) <$> nodes ts'
  | TBound :: ts' => cons NBound <$> nodes ts'
  | TOpen :: ts' => cons NOpen <$> nodes ts'
  | TClose :: ts' => cons NClose <$> nodes ts'
  | TPlus :: _ => None
  end.

(** [re.compile(p)]; [None] where Python raises [re.error] or the pattern
    is outside the fragment. *)
Definition compile (p : str) : option regex := tokens p ≫= nodes.

(** ** Matching *)

(** The span of a match and of its group 1, as offsets from the start
    of the match. *)
Record found := { m_len : nat; m_group : option (nat * nat) }.

Section Matching.
(** [re.I] *)
Variable ignore_case : bool.

Definition atom_ok (a : atom) (c : ascii) : bool :=
  match a with
  | ALit l =>
      if ignore_case
      then Ascii.eqb (Py.lower_char c) (Py.lower_char l)
      else Ascii.eqb c l
  | ASpace => Py.is_space c
  | ADigit => Py.is_digit c
  end.

Definition word_at (c : option ascii) : bool :=
  match c with
  | Some x => Py.is_word x
  | None => false
  end.

(** [\b]: exactly one of the two neighbours is a word character. *)
Definition boundary (prev : option ascii) (s : str) : bool :=
  xorb (word_at prev) (word_at (head s)).

Section Repeat.
Context {R : Type}.
Variable a : atom.
(** What follows the repeat: previous character, rest, offset. *)
Variable k : option ascii -> str -> nat -> option R.

(** Greedy [a+]: take one more character if the rest can still
    match after it, otherwise stop here. *)
Fixpoint many (s : str) (pos : nat) : option R :=
  match s with
  | [] => None
  | c :: s' =>
      if atom_ok a c
      then match many s' (S pos) with
           | Some r => Some r
           | None => k (Some c) s' (S pos)
           end
      else None
  end.

(** Possessive [a++]: take the whole run and never give back. *)
Fixpoint many_poss (s : str) (pos : nat) : option R :=
  match s with
  | [] => None
  | c :: s' =>
      if atom_ok a c
      then match s' with
           | c' :: _ =>
               if atom_ok a c' then many_poss s' (S pos)
               else k (Some c) s' (S pos)
           | [] => k (Some c) s' (S pos)
           end
      else None
  end.
End Repeat.

(** Match [p] at the current position.  [prev] is the character before
    it, [pos] the offset from the start of the match, [gs] the offset
    where group 1 was opened, [g] its span once closed. *)
Fixpoint match_here (p : regex) (gs : option nat) (g : option (nat * nat))
    (prev : option ascii) (s : str) (pos : nat) {struct p} : option found :=
  match p with
  | [] => Some {| m_len := pos; m_group := g |}
  | NBound :: p' =>
      if boundary prev s then match_here p' gs g prev s pos else None
  | NOpen :: p' => match_here p' (Some pos) g prev s pos
  | NClose :: p' =>
      match_here p' gs
        (match gs with Some b => Some (b, pos) | None => g end) prev s pos
  | NAtom a QOne :: p' =>
      match s with
      | c :: s' =>
          if atom_ok a c then match_here p' gs g (Some c) s' (S pos)
          else None
      | [] => None
      end
  | NAtom a QPlus :: p' => many a (match_here p' gs g) s pos
  | NAtom a QPoss :: p' => many_poss a (match_here p' gs g) s pos
  end.

Definition match_at (p : regex) (prev : option ascii) (s : str)
  : option found :=
  match_here p None None prev s 0.

(** The leftmost match at or after the current position: its start
    offset and span. *)
Fixpoint search_from (p : regex) (prev : option ascii) (s : str)
    (start : nat) : option (nat * found) :=
  match match_at p prev s with
  | Some f => Some (start, f)
  | None =>
      match s with
      | [] => None
      | c :: s' => search_from p (Some c) s' (S start)
      end
  end.

(** Replace every match, left to right; [skip] counts the characters
    of the current match still to be dropped. *)
Fixpoint sub_from (p : regex) (repl : str) (prev : option ascii)
    (s : str) (skip : nat) : str :=
  match skip with
  | S k =>
      match s with
      | [] => []
      | c :: s' => sub_from p repl (Some c) s' k
      end
  | O =>
      match match_at p prev s, s with
      | Some {| m_len := S n |}, c :: s' =>
          repl ++ sub_from p repl (Some c) s' n
      | Some _, c :: s' => repl ++ c :: sub_from p repl (Some c) s' 0
      | Some _, [] => repl
      | None, c :: s' => c :: sub_from p repl (Some c) s' 0
      | None, [] => []
      end
  end.
End Matching.

Definition substring (start stop : nat) (s : str) : str :=
  firstn (stop - start) (skipn start s).

(** A match object: the subject, where the match starts, and its spans. *)
Record match_object := { subject : str; m_start : nat; m_found : found }.

(** [re.search(pattern, s, flags)]; [Ok None] is Python's [None]. *)
Definition search (pattern : str) (s : str) (ignore_case : bool)
  : result (option match_object) :=
  match compile pattern with
  | None => Raise ReError
  | Some p =>
      Ok (match search_from ignore_case p None s 0 with
          | Some (i, f) =>
              Some {| subject := s; m_start := i; m_found := f |}
          | None => None
          end)
  end.

(** [m.group(1)] on the value [re.search] returned; on [None] the
    attribute lookup fails. *)
Definition group1 (m : option match_object) : result str :=
  match m with
  | None => Raise AttributeError
  | Some mo =>
      match m_group (m_found mo) with
      | Some (b, e) =>
          Ok (substring (m_start mo + b) (m_start mo + e) (subject mo))
      | None => Raise IndexError
      end
  end.

(** [re.sub(pattern, repl, s, flags)]. *)
Definition sub (pattern repl s : str) (ignore_case : bool) : result str :=
  match compile pattern with
  | None => Raise ReError
  | Some p => Ok (sub_from ignore_case p repl None s 0)
  end.

End Re.

(* ================================================================== *)
(** * main/agent.py: the SQL guardrail                                  *)
(* ================================================================== *)

Module Agent.

Definition ALLOWED_TABLES : list str := [L "candidates_candidateprofile"].

Definition ALLOWED_COLUMNS : list str :=
  [ L "slug"; L "resume_data"; L "willing_to_relocate";
    L "employment_type_preferences"; L "work_mode_preferences";
    L "has_workvisa"; L "disability_categories"; L "accommodation_needs";
    L "disclosure_preference"; L "workplace_accommodations";
    L "expected_salary_range"; L "is_available" ].

Definition FORBIDDEN_SQL_PATTERNS : list str :=
  [ L "\bto_tsvector\b"; L "\bto_tsquery\b"; L "\b@@\b";
    L "\bplainto_tsquery\b"; L "\bphraseto_tsquery\b";
    L "\bwebsearch_to_tsquery\b";
    L "\binsert\b"; L "\bupdate\b"; L "\bdelete\b"; L "\bdrop\b";
    L "\balter\b"; L "\btruncate\b"; L "\bcreate\b" ].

Definition MAX_LIMIT : nat := 20.
Definition DEFAULT_LIMIT : nat := 10.

(** The database engine that backend/settings.py configures. *)
Definition ENGINE : str := L "django.db.backends.postgresql".

Definition is_sqlite (engine : str) : bool :=
  Py.contains (L "sqlite") (Py.lower engine).

Definition _normalize_sql (sql : str) : result str :=
  Re.sub (L "\s+") (L " ") (Py.strip sql) false.

(** The double quote character. *)
Definition dquote : ascii := ascii_of_nat 34.

(** The table name of one piece after the keyword: the first
    whitespace-separated word of the stripped piece, double quotes
    removed, the part after the last dot, trailing commas dropped. *)
Definition table_token (part : str) : result str :=
  w ← Py.first (Py.split_ws (Py.strip part));
  t ← Py.last (Py.split (L ".") (Py.replace [dquote] [] w));
  Ok (Py.rstrip_char "," t).

(** [tables.add(token)]: the set is kept in order of first insertion. *)
Definition set_add (x : str) (xs : list str) : list str :=
  if Py.mem x xs then xs else xs ++ [x].

Fixpoint add_tables (parts : list str) (tables : list str)
  : result (list str) :=
  match parts with
  | [] => Ok tables
  | part :: parts' =>
      token ← table_token part;
      add_tables parts' (set_add token tables)
  end.

Definition _extract_referenced_tables (sql : str) : result (list str) :=
  let sql_l := Py.lower sql in
  tables ← add_tables (tail (Py.split (L " from ") sql_l)) [];
  add_tables (tail (Py.split (L " join ") sql_l)) tables.

(** The name of one selected column: the stripped item up to its alias,
    the part after the last dot. *)
Definition column_name (c : str) : result str :=
  a ← Py.first (Py.split (L " as ") (Py.strip c));
  Py.last (Py.split (L ".") a).

Fixpoint clean_columns (cols : list str) : result (list str) :=
  match cols with
  | [] => Ok []
  | c :: cols' =>
      c' ← column_name c;
      cleaned ← clean_columns cols';
      Ok (if Py.eqb c' (L "*") then cleaned else c' :: cleaned)
  end.

Definition _extract_selected_columns (sql : str) : result (list str) :=
  select_part ← Py.first (Py.split (L "from") (Py.lower sql));
  clean_columns (Py.split (L ",") (Py.replace (L "select") [] select_part)).

Definition _enforce_limit (sql : str) : result str :=
  if negb (Py.contains (L "limit") (Py.lower sql))
  then Ok (sql ++ L " LIMIT " ++ Py.of_nat DEFAULT_LIMIT)
  else
    m ← Re.search (L "\blimit\s+(\d+)") (Py.lower sql) false;
    digits ← Re.group1 m;
    limit ← Py.int digits;
    if (N.of_nat MAX_LIMIT <? limit)%N
    then Re.sub (L "\blimit\s+\d+") (L "LIMIT " ++ Py.of_nat MAX_LIMIT)
           sql true
    else Ok sql.

Fixpoint check_forbidden (pats : list str) (sql : str) : result unit :=
  match pats with
  | [] => Ok tt
  | pat :: pats' =>
      m ← Re.search pat sql true;
      match m with
      | Some _ => Raise (ValueError (L "Forbidden SQL detected: " ++ pat))
      | None => check_forbidden pats' sql
      end
  end.

(** [for x in xs: if x not in allowed: raise ValueError(prefix + x)] *)
Fixpoint check_allowed (prefix : str) (allowed xs : list str)
  : result unit :=
  match xs with
  | [] => Ok tt
  | x :: xs' =>
      if Py.mem x allowed then check_allowed prefix allowed xs'
      else Raise (ValueError (prefix ++ x))
  end.

(** The mandatory availability filter. *)
Definition force_available (sql : str) : str :=
  if negb (Py.contains (L "is_available") (Py.lower sql))
  then sql ++ (if Py.contains (L "where") (Py.lower sql)
               then L " AND is_available = TRUE"
               else L " WHERE is_available = TRUE")
  else sql.

Definition sqlite_fixes (engine sql : str) : result str :=
  if is_sqlite engine
  then
    sql1 ← Re.sub (L "\bilike\b") (L "LIKE") sql true;
    Re.sub (L "::text") [] sql1 true
  else Ok sql.

(** A [ValueError] is the rejection of the query; [Ok] carries the
    statement handed to the database. *)
Definition validate_and_sanitize_sql (engine sql : str) : result str :=
  if negb (Py.startswith (L "select") (Py.lower sql))
  then Raise (ValueError (L "Only SELECT allowed"))
  else if Py.contains (L ";") (Py.rstrip_char ";" (Py.strip sql))
  then Raise (ValueError (L "Multiple statements blocked"))
  else
    _ ← check_forbidden FORBIDDEN_SQL_PATTERNS sql;
    tables ← _extract_referenced_tables sql;
    _ ← check_allowed (L "Table not allowed: ") ALLOWED_TABLES tables;
    cols ← _extract_selected_columns sql;
    _ ← check_allowed (L "Column not allowed: ") ALLOWED_COLUMNS cols;
    sql1 ← _enforce_limit sql;
    sql2 ← sqlite_fixes engine (force_available sql1);
    _normalize_sql sql2.

End Agent.

(* ================================================================== *)
(** * candidates/resume_parser.py                                       *)
(* ================================================================== *)

Module ResumeParser.

Definition SKILL_LIST : list str :=
  [ L "python"; L "java"; L "c++"; L "c"; L "sql"; L "nosql"; L "mysql";
    L "postgresql"; L "mongodb"; L "aws"; L "azure"; L "gcp"; L "docker";
    L "kubernetes"; L "pytorch"; L "tensorflow"; L "scikit-learn";
    L "react"; L "django"; L "flask"; L "fastapi"; L "git"; L "linux";
    L "javascript"; L "html"; L "css"; L "nlp"; L "machine learning";
    L "deep learning"; L "computer vision"; L "tableau"; L "power bi" ].

(** The comprehension over the vocabulary: each entry is spliced into
    the pattern as it is, between two word boundaries. *)
Fixpoint found_skills (skills : list str) (tl : str) : result (list str) :=
  match skills with
  | [] => Ok []
  | s :: skills' =>
      m ← Re.search (L "\b" ++ s ++ L "\b") tl false;
      found ← found_skills skills' tl;
      Ok (match m with Some _ => s :: found | None => found end)
  end.

Definition extract_skills (text : str) : result (list str) :=
  let tl := Py.lower text in
  found ← found_skills SKILL_LIST tl;
  Ok (Py.sorted_set found).

(** What the parser reads from outside: the MIME table, [pathlib], the
    PDF text layer, the DOCX paragraphs and the optional OCR engine
    ([None] when PaddleOCR cannot be loaded), which yields the text
    lines it recognises in a PDF or an image. *)
Record files := {
  guess_type : str -> option str;
  path_suffix : str -> str;
  pdf_page_texts : str -> list str;
  docx_paragraphs : str -> list str;
  paddle : option (str -> list str);
}.

Definition nonempty (s : str) : bool :=
  match s with [] => false | _ => true end.

Definition newline : str := [ascii_of_nat 10].

Definition detect_mime_type (fs : files) (path : str) : option str :=
  match guess_type fs path with
  | Some (c :: m) => Some (Py.lower (c :: m))
  | _ =>
      let ext := Py.lower (path_suffix fs path) in
      if Py.eqb ext (L ".pdf") then Some (L "application/pdf")
      else if Py.eqb ext (L ".docx")
      then Some (L "application/vnd.openxmlformats-officedocument.wordprocessingml.document")
      else if Py.mem ext [L ".jpg"; L ".jpeg"; L ".png"; L ".tif";
                          L ".tiff"; L ".bmp"]
      then Some (L "image/" ++ Py.lstrip_char "." ext)
      else None
  end.

Definition parse_pdf_text (fs : files) (path : str) : str :=
  Py.strip (Py.join newline (List.filter nonempty (pdf_page_texts fs path))).

Definition ocr_text (fs : files) (path : str) : str :=
  match paddle fs with
  | None => []
  | Some ocr => Py.strip (Py.join newline (List.filter nonempty (ocr path)))
  end.

Definition parse_pdf_ocr := ocr_text.
Definition parse_image_text := ocr_text.

Definition parse_docx_text (fs : files) (path : str) : str :=
  Py.strip
    (Py.join newline
       (List.filter (fun p => nonempty (Py.strip p)) (docx_paragraphs fs path))).

(** The parsers a call went through, in order. *)
Inductive call :=
| PdfText
| PdfOcr
| DocxText
| ImageOcr.


Definition MIME_PDF : str := L "application/pdf".
Definition MIME_DOCX : str :=
  L "application/vnd.openxmlformats-officedocument.wordprocessingml.document".

(** The extracted text together with the parsers that were called. *)
Definition _extract_text_by_type (fs : files) (path : str)
  : result (str * list call) :=
  match detect_mime_type fs path with
  | Some mime =>
      if Py.eqb mime MIME_PDF then
        let text := parse_pdf_text fs path in
        if (length (Py.strip text) <? 50)%nat
        then Ok (parse_pdf_ocr fs path, [PdfText; PdfOcr])
        else Ok (text, [PdfText])
      else if Py.eqb mime MIME_DOCX then Ok (parse_docx_text fs path, [DocxText])
      else if nonempty mime && Py.startswith (L "image/") mime
      then Ok (parse_image_text fs path, [ImageOcr])
      else Raise (ValueError (L "Unsupported file format: " ++ path))
  | None => Raise (ValueError (L "Unsupported file format: " ++ path))
  end.


(** ** [extract_rest]

    The index found in the lower-cased text is applied to the text
    itself, so it matters that [str.lower] can change the length of a
    string (the one character that does is U+0130) and that it is not
    a character-by-character map (U+03A3 at the end of a word).  The
    function is therefore taken over any alphabet, with the equality of
    characters, [str.isspace] and [str.lower] of that alphabet. *)
Section Rest.
Context {char : Type}.
Variable char_eqb : char -> char -> bool.
Variable isspace : char -> bool.
Variable str_lower : list char -> list char.

Fixpoint text_startswith (p s : list char) : bool :=
  match p, s with
  | [], _ => true
  | x :: p', y :: s' => char_eqb x y && text_startswith p' s'
  | _ :: _, [] => false
  end.

(** [s.find(sub)]: the lowest index where [sub] starts, [None] for
    Python's -1. *)
Fixpoint text_find (sub s : list char) : option nat :=
  if text_startswith sub s then Some 0
  else match s with
       | [] => None
       | _ :: s' => S <$> text_find sub s'
       end.

Fixpoint text_lstrip (s : list char) : list char :=
  match s with
  | c :: s' => if isspace c then text_lstrip s' else s
  | [] => []
  end.

Definition text_strip (s : list char) : list char :=
  rev (text_lstrip (rev (text_lstrip s))).

(** [work_exp] is [None] for Python's [None]. *)
Definition extract_rest (text : list char) (work_exp : option (list char))
  : list char :=
  match work_exp with
  | None | Some [] => text_strip text
  | Some w =>
      match text_find (str_lower w) (str_lower text) with
      | None => text_strip text
      | Some idx => text_strip (skipn (idx + length w) text)
      end
  end.
End Rest.

End ResumeParser.

(* ================================================================== *)
(** * main/jobpost_candidate_ranker.py                                  *)
(* ================================================================== *)

Module Ranker.

(** ** JSON values

    The values a reply of the model is read for: numbers, strings, null
    and lists of strings.  A number is an integer or a float: a
    rational, or one of the three floats that are not, which
    [json.loads] reads from Infinity, -Infinity and NaN (and an
    infinity from a literal too large for a float). *)
Inductive json :=
| JNum (q : Q)
| JInf (positive : bool)
| JNaN
| JStr (s : str)
| JNull
| JStrs (xs : list str).

Fixpoint strs_ltb (a b : list str) : bool :=
  match a, b with
  | [], [] => false
  | [], _ :: _ => true
  | _ :: _, [] => false
  | x :: a', y :: b' =>
      if Py.ltb x y then true
      else if Py.ltb y x then false
      else strs_ltb a' b'
  end.

(** Python's [a < b]: defined between two numbers, two strings or two
    lists, a [TypeError] otherwise.  Between numbers it is the order of
    their values, with the infinities at the ends; every comparison
    with NaN is false. *)
Definition py_lt (a b : json) : result bool :=
  match a, b with
  | JNum x, JNum y => Ok (negb (Qle_bool y x))
  | JNum _, JInf p => Ok p
  | JInf p, JNum _ => Ok (negb p)
  | JInf p, JInf q => Ok (negb p && q)
  | JNaN, JNum _ | JNaN, JInf _ | JNaN, JNaN => Ok false
  | JNum _, JNaN | JInf _, JNaN => Ok false
  | JStr x, JStr y => Ok (Py.ltb x y)
  | JStrs x, JStrs y => Ok (strs_ltb x y)
  | _, _ => Raise TypeError
  end.

(** ** The candidate table and the job post *)

Inductive skill_item :=
| SkillDict (name : option str)
| SkillStr (s : str)
| SkillOther.

(** A stored resume document: its skills entry when that is a list, and
    its serialisation by [json.dumps]. *)
Record resume_json := {
  rj_empty : bool;
  rj_skills : option (list skill_item);
  rj_dumps : str;
  rj_dumps_indent : str;
}.

Record candidate := {
  c_id : Z;
  c_slug : str;
  c_resume_data : option resume_json;
  c_is_available : bool;
  c_has_workvisa : bool;
  c_work_mode_preferences : list str;
  c_employment_type_preferences : list str;
}.

Record job_post := {
  j_title : str;
  j_location : str;
  j_workplace_type : Z;
  j_job_type : Z;
  j_skills : list str;
  j_estimated_salary : str;
  j_visa_required : bool;
  j_job_desc : str;
}.

Definition WORKPLACE_TYPES : list (Z * str) :=
  [ (1, L "Hybrid"); (2, L "On-Site"); (3, L "Remote") ]%Z.

Definition WORK_TYPES : list (Z * str) :=
  [ (1, L "Full-time"); (2, L "Part-time"); (3, L "Contract");
    (4, L "Temporary"); (5, L "Other"); (6, L "Volunteer");
    (7, L "Internship") ]%Z.

(** [dict(choices).get(key, "Not specified")] *)
Fixpoint choice_text (choices : list (Z * str)) (key : Z) : str :=
  match choices with
  | [] => L "Not specified"
  | (k, v) :: rest => if (k =? key)%Z then v else choice_text rest key
  end.

(** ** Heuristic pre-rank *)

Definition dedup (xs : list str) : list str :=
  fold_left (fun acc x => if Py.mem x acc then acc else acc ++ [x]) xs [].

Definition item_names (items : list skill_item) : list str :=
  flat_map (fun it =>
              match it with
              | SkillDict (Some n) => [n]
              | SkillDict None => []
              | SkillStr s => [s]
              | SkillOther => []
              end) items.

(** The set of the resume's skill names, lower-cased and stripped. *)
Definition extract_resume_skills (r : option resume_json) : list str :=
  match r with
  | None => []
  | Some rj =>
      if rj_empty rj then []
      else match rj_skills rj with
           | Some items =>
               dedup (map (fun s => Py.strip (Py.lower s)) (item_names items))
           | None => []
           end
  end.

Definition resume_text_blob (r : option resume_json) : str :=
  match r with
  | Some rj => if rj_empty rj then L "{}" else Py.lower (rj_dumps rj)
  | None => L "{}"
  end.

Definition count_if {A} (f : A -> bool) (xs : list A) : nat :=
  length (List.filter f xs).

Definition overlap (expanded_skills : list str) (c : candidate) : nat :=
  let resume_skills := extract_resume_skills (c_resume_data c) in
  let o := count_if (fun s => Py.mem s resume_skills) (dedup expanded_skills) in
  if (o =? 0)%nat
  then count_if (fun s => Py.contains s (resume_text_blob (c_resume_data c)))
         expanded_skills
  else o.

Definition bonus (text : str) (prefs : list str) : nat :=
  if Py.mem (Py.lower text) (map Py.lower prefs) then 1 else 0.

Definition heuristic_score (j : job_post) (expanded_skills : list str)
    (c : candidate) : nat :=
  overlap expanded_skills c * 3
  + bonus (choice_text WORKPLACE_TYPES (j_workplace_type j))
      (c_work_mode_preferences c)
  + bonus (choice_text WORK_TYPES (j_job_type j))
      (c_employment_type_preferences c).

(** The rows of [candidates_qs] out of the rows of the table. *)
Definition eligible (j : job_post) (c : candidate) : bool :=
  c_is_available c
  && match c_resume_data c with Some _ => true | None => false end
  && (if j_visa_required j then c_has_workvisa c else true).

Definition candidates_qs (j : job_post) (table : list candidate)
  : list candidate :=
  List.filter (eligible j) table.

(** The loop that fills [scored]: candidates without overlap are
    skipped. *)
Definition scored (j : job_post) (expanded_skills : list str)
    (qs : list candidate) : list (nat * candidate) :=
  flat_map (fun c =>
              if (overlap expanded_skills c =? 0)%nat then []
              else [(heuristic_score j expanded_skills c, c)]) qs.

(** [xs.sort(key=..., reverse=True)] on natural keys: the sort is
    stable, elements with equal keys keep their order. *)
Fixpoint insert_desc {A} (key : A -> nat) (x : A) (xs : list A) : list A :=
  match xs with
  | [] => [x]
  | y :: ys =>
      if (key x <? key y)%nat then y :: insert_desc key x ys
      else x :: xs
  end.

Definition sort_desc {A} (key : A -> nat) (xs : list A) : list A :=
  fold_right (insert_desc key) [] xs.

Definition id_in (ids : list Z) (c : candidate) : bool :=
  existsb (Z.eqb (c_id c)) ids.

(** The candidates handed to the model.  [table] and [table_again] are
    the rows of the candidate table as the first and the second query
    of the run return them. *)
Definition select_candidates (j : job_post) (expanded_skills : list str)
    (table table_again : list candidate) : list candidate :=
  let sorted := sort_desc fst (scored j expanded_skills (candidates_qs j table)) in
  let selected := map snd (firstn 5 sorted) in
  if (length selected <? 3)%nat
  then
    let additional :=
      firstn (3 - length selected)
        (List.filter (fun c => negb (id_in (map c_id selected) c))
           (candidates_qs j table_again)) in
    selected ++ additional
  else selected.

(** ** Scoring by the model *)

Record llm_candidate := {
  lc_id : Z;
  lc_slug : str;
  lc_resume_text : str;
}.

Record ranked := {
  candidate_id : Z;
  candidate_slug : str;
  score : json;
  reasons : json;
}.

Record token_usage := {
  input_tokens : nat;
  output_tokens : nat;
  total_tokens : nat;
}.

(** The services a run calls: the structured completion that lists
    skills for a prompt, the chat completion (system message, prompt;
    the content of the first choice), the
    tokenizer (only the number of tokens is used), [json.loads] (the
    entries of the object it returns) and the clock. *)
Record services := {
  skill_completion : str -> result (list str);
  chat : str -> str -> result str;
  encode_len : str -> nat;
  json_loads : str -> result (list (str * json));
  now : str;
}.

Definition system_msg : str := L "You are an AI Talent Matcher.".

Definition nl : str := [ascii_of_nat 10].

(** The dash between 0 and 100 in the source is U+2013, outside the
    modelled code points; a hyphen stands for it. *)
Definition prompt (job_description resume_text : str) : str :=
  nl ++ L "Rate candidate match on a scale of 0-100." ++ nl ++ nl
  ++ L "JOB:" ++ nl ++ job_description ++ nl ++ nl
  ++ L "CANDIDATE:" ++ nl ++ resume_text ++ nl ++ nl
  ++ L "Return JSON:" ++ nl ++ L "{" ++ nl
  ++ L "  " ++ [Agent.dquote] ++ L "score" ++ [Agent.dquote] ++ L ": number," ++ nl
  ++ L "  " ++ [Agent.dquote] ++ L "reasons" ++ [Agent.dquote] ++ L ": ["
  ++ [Agent.dquote] ++ L "point1" ++ [Agent.dquote] ++ L ", "
  ++ [Agent.dquote] ++ L "point2" ++ [Agent.dquote] ++ L ", "
  ++ [Agent.dquote] ++ L "point3" ++ [Agent.dquote] ++ L "]" ++ nl
  ++ L "}" ++ nl.

(** [d[key]] *)
Fixpoint getitem (d : list (str * json)) (key : str) : result json :=
  match d with
  | [] => Raise KeyError
  | (k, v) :: d' => if Py.eqb k key then Ok v else getitem d' key
  end.

(** The running totals of the loop. *)
Record totals := {
  t_results : list ranked;
  t_input : nat;
  t_output : nat;
  t_cost : Q;
}.

Definition error_entry (c : llm_candidate) : ranked :=
  {| candidate_id := lc_id c; candidate_slug := lc_slug c;
     score := JNum 0; reasons := JStrs [L "Ranking error"] |}.

Definition call_cost (input output : nat) : Q :=
  (inject_Z (Z.of_nat input) / 1000 * (1 # 100)
   + inject_Z (Z.of_nat output) / 1000 * (3 # 100))%Q.

(** One turn of the loop over the candidates.  The body of [try] is a
    chain of calls, each of which may raise; the output tokens are
    counted as soon as the reply is there, the cost only at the end. *)
Definition score_candidate (sv : services) (job_description : str)
    (acc : totals) (c : llm_candidate) : totals :=
  let p := prompt job_description (lc_resume_text c) in
  let input := (encode_len sv system_msg + encode_len sv p)%nat in
  let acc1 := {| t_results := t_results acc; t_input := (t_input acc + input)%nat;
                 t_output := t_output acc; t_cost := t_cost acc |} in
  match chat sv system_msg p with
  | Raise _ =>
      {| t_results := t_results acc1 ++ [error_entry c];
         t_input := t_input acc1; t_output := t_output acc1;
         t_cost := t_cost acc1 |}
  | Ok content =>
      let output := encode_len sv content in
      let out_total := (t_output acc1 + output)%nat in
      let parsed :=
        d ← json_loads sv content;
        s ← getitem d (L "score");
        r ← getitem d (L "reasons");
        Ok {| candidate_id := lc_id c; candidate_slug := lc_slug c;
              score := s; reasons := r |} in
      match parsed with
      | Ok entry =>
          {| t_results := t_results acc1 ++ [entry];
             t_input := t_input acc1; t_output := out_total;
             t_cost := (t_cost acc1 + call_cost input output)%Q |}
      | Raise _ =>
          {| t_results := t_results acc1 ++ [error_entry c];
             t_input := t_input acc1; t_output := out_total;
             t_cost := t_cost acc1 |}
      end
  end.

Definition score_all (sv : services) (job_description : str)
    (cs : list llm_candidate) : totals :=
  fold_left (score_candidate sv job_description) cs
    {| t_results := []; t_input := 0; t_output := 0; t_cost := 0 |}.

(** [ranked_results.sort(key=score, reverse=True)]: stable, and a
    [TypeError] when two scores cannot be compared.  On scores that
    [<] orders, every stable sort returns the same list, and the
    insertion below stands for the one of the interpreter.  With a NaN
    among the scores the sort still returns a permutation, but which one
    is a matter of the algorithm of the interpreter and of its version;
    the statements below that speak of the order exclude NaN. *)
Fixpoint insert_by_score (x : ranked) (xs : list ranked)
  : result (list ranked) :=
  match xs with
  | [] => Ok [x]
  | y :: ys =>
      below ← py_lt (score x) (score y);
      if below : bool
      then rest ← insert_by_score x ys; Ok (y :: rest)
      else Ok (x :: xs)
  end.

Fixpoint sort_by_score (xs : list ranked) : result (list ranked) :=
  match xs with
  | [] => Ok []
  | x :: xs' =>
      sorted ← sort_by_score xs';
      insert_by_score x sorted
  end.

Definition final_rank_with_llm (sv : services) (job_description : str)
    (cs : list llm_candidate)
  : result (list ranked * token_usage * Q) :=
  let t := score_all sv job_description cs in
  ranked_results ← sort_by_score (t_results t);
  Ok (ranked_results,
      {| input_tokens := t_input t; output_tokens := t_output t;
         total_tokens := (t_input t + t_output t)%nat |},
      t_cost t).

(** ** The whole run *)

Definition skills_prompt (job_skills : str) : str :=
  nl ++ L "Generate a list of keyword variations, related technologies, and synonyms "
  ++ nl ++ L "that would help match resumes for the skill set:" ++ nl ++ nl
  ++ L "Skills: " ++ job_skills ++ nl ++ nl
  ++ L "Return ONLY a list of skill keywords." ++ nl.

Definition expand_job_skills (sv : services) (job_skills : str)
  : result (list str) :=
  skills ← skill_completion sv (skills_prompt job_skills);
  Ok (map (fun s => Py.strip (Py.lower s)) skills).

Definition job_description (j : job_post) : str :=
  nl ++ L "JOB OVERVIEW" ++ nl ++ L "============" ++ nl
  ++ L "Title: " ++ j_title j ++ nl
  ++ L "Location: " ++ j_location j ++ nl
  ++ L "Workplace Mode: " ++ choice_text WORKPLACE_TYPES (j_workplace_type j) ++ nl
  ++ L "Job Type: " ++ choice_text WORK_TYPES (j_job_type j) ++ nl
  ++ L "Estimated Salary: " ++ j_estimated_salary j ++ nl
  ++ L "Visa Required: " ++ (if j_visa_required j then L "Yes" else L "No")
  ++ nl ++ nl
  ++ L "Skills Required:" ++ nl ++ Py.join (L ", ") (j_skills j) ++ nl ++ nl
  ++ L "Job Description:" ++ nl ++ j_job_desc j ++ nl.

Definition for_llm (c : candidate) : llm_candidate :=
  {| lc_id := c_id c; lc_slug := c_slug c;
     lc_resume_text :=
       match c_resume_data c with
       | Some rj => rj_dumps_indent rj
       | None => L "null"
       end |}.

(** The value stored in [candidate_ranking_data]. *)
Record ranking_data := {
  ranked_candidates : list ranked;
  usage : token_usage;
  estimated_cost : Q;
  last_updated : str;
}.

Definition ranking_algo (sv : services) (j : job_post)
    (table table_again : list candidate) : result ranking_data :=
  expanded_skills ← expand_job_skills sv (Py.join (L ", ") (j_skills j));
  let selected := select_candidates j expanded_skills table table_again in
  r ← final_rank_with_llm sv (job_description j) (map for_llm selected);
  Ok {| ranked_candidates := r.1.1; usage := r.1.2; estimated_cost := r.2;
        last_updated := now sv |}.

End Ranker.

(* ================================================================== *)
(** * candidates/tasks.py and main/tasks.py: the status machines        *)
(* ================================================================== *)

(** The background tasks are run one at a time; every [save] of a task
    leaves a database state that a reader can observe.  A system state is
    the table together with the task messages waiting at the broker. *)
Module Tasks.

(** [self.max_retries] of both tasks. *)
Definition max_retries : nat := 3.

(** A task message: the record it is for and [self.request.retries]. *)
Definition message : Type := Z * nat.

Definition remove_nth {A} (i : nat) (xs : list A) : list A :=
  firstn i xs ++ skipn (S i) xs.

(** The queue after a run of its [i]-th message: the message is gone,
    and back with one more retry when the task asked for one. *)
Definition requeue (i : nat) (m : message) (retry : bool)
    (queue : list message) : list message :=
  remove_nth i queue ++ (if retry then [(m.1, S m.2)] else []).

(** Truth of a nullable JSON column whose values, when present, are
    non-empty dictionaries. *)
Definition has_some {A} (x : option A) : bool :=
  match x with Some _ => true | None => false end.

(** ** Candidate profiles and the parse task *)

Inductive parsing_status :=
| not_parsed
| parsing
| parsed
| parsing_failed.

(** The dictionary [parse_information] returns. *)
Record resume_fields := {
  rf_name : option str;
  rf_email : option str;
  rf_linkedin : option str;
  rf_skills : list str;
  rf_work_experience : option str;
  rf_rest : str;
}.

(** The columns of a candidate profile that the tasks read or write.
    [updated_at] is in seconds; no [save] below lists it in its
    [update_fields], and a queryset [update] does not touch it. *)
Record CandidateProfile := {
  resume_file : option str;
  resume_data : option resume_fields;
  parsing_status_of : parsing_status;
  updated_at : Z;
}.

Definition with_parsing_status (st : parsing_status) (c : CandidateProfile)
  : CandidateProfile :=
  {| resume_file := resume_file c; resume_data := resume_data c;
     parsing_status_of := st; updated_at := updated_at c |}.

Definition with_resume_data (d : resume_fields) (c : CandidateProfile)
  : CandidateProfile :=
  {| resume_file := resume_file c; resume_data := Some d;
     parsing_status_of := parsing_status_of c; updated_at := updated_at c |}.

Record candidates := {
  profiles : gmap Z CandidateProfile;
  parse_queue : list message;
}.

Definition has_resume_file (c : CandidateProfile) : bool :=
  match resume_file c with
  | Some (_ :: _) => true
  | _ => false
  end.

Definition is_parsed (c : CandidateProfile) : bool :=
  match parsing_status_of c with parsed => true | _ => false end.

Definition is_parsing (c : CandidateProfile) : bool :=
  match parsing_status_of c with parsing => true | _ => false end.

(** The view action [parse_resume_data]: it answers without a task when
    there is no file, when the profile is parsed and has data, or when
    parsing is in progress; otherwise it sends the task ([dispatched]
    is false when the broker refuses it). *)
Definition parse_resume_data (id : Z) (dispatched : bool) (s : candidates)
  : candidates :=
  match profiles s !! id with
  | None => s
  | Some c =>
      if negb (has_resume_file c) then s
      else if is_parsed c && has_some (resume_data c) then s
      else if is_parsing c then s
      else if dispatched
      then {| profiles := profiles s;
              parse_queue := parse_queue s ++ [(id, 0%nat)] |}
      else s
  end.

(** One run of [parse_resume_task].  [outcome] is what the download and
    [parse_resume] come to: the parsed fields, or the exception one of
    them raised.  The result lists the database after each [save], and
    tells whether the task asked to be retried. *)
Definition parse_resume_task (retries : nat) (id : Z)
    (outcome : result resume_fields) (db : gmap Z CandidateProfile)
  : list (gmap Z CandidateProfile) * bool :=
  match db !! id with
  | None => ([], (retries <? max_retries)%nat)
  | Some c =>
      if negb (has_resume_file c)
      then ([alter (with_parsing_status parsing_failed) id db], false)
      else
        let db1 := alter (with_parsing_status parsing) id db in
        match outcome with
        | Ok data =>
            ([db1;
              alter (fun c => with_parsing_status parsed (with_resume_data data c))
                id db1], false)
        | Raise _ =>
            ([db1; alter (with_parsing_status parsing_failed) id db1],
             (retries <? max_retries)%nat)
        end
  end.

(** [cleanup_failed_parsing_tasks] at time [now]. *)
Definition cleanup_failed_parsing_tasks (now : Z)
    (db : gmap Z CandidateProfile) : gmap Z CandidateProfile :=
  (fun c =>
     if is_parsing c && (updated_at c <? now - 3600)%Z
     then with_parsing_status not_parsed c else c) <$> db.

(** What can happen to the candidate table. *)
Inductive candidate_op :=
| CreateProfile (id : Z) (file : option str) (at_time : Z)
| PostParseResume (id : Z) (dispatched : bool)
| RunParseTask (i : nat) (outcome : result resume_fields)
| SweepParsing (now : Z).

Definition new_profile (file : option str) (at_time : Z) : CandidateProfile :=
  {| resume_file := file; resume_data := None;
     parsing_status_of := not_parsed; updated_at := at_time |}.

(** The database states an operation goes through, the last one being
    the state it leaves. *)
Definition candidate_points (op : candidate_op) (s : candidates)
  : list (gmap Z CandidateProfile) :=
  match op with
  | CreateProfile id file t =>
      match profiles s !! id with
      | None => [<[id := new_profile file t]> (profiles s)]
      | Some _ => []
      end
  | PostParseResume _ _ => []
  | RunParseTask i outcome =>
      match parse_queue s !! i with
      | Some m => (parse_resume_task m.2 m.1 outcome (profiles s)).1
      | None => []
      end
  | SweepParsing now => [cleanup_failed_parsing_tasks now (profiles s)]
  end.

Definition candidate_step (s : candidates) (op : candidate_op) : candidates :=
  let db := List.last (candidate_points op s) (profiles s) in
  match op with
  | PostParseResume id dispatched => parse_resume_data id dispatched s
  | RunParseTask i outcome =>
      match parse_queue s !! i with
      | Some m =>
          {| profiles := db;
             parse_queue :=
               requeue i m (parse_resume_task m.2 m.1 outcome (profiles s)).2
                 (parse_queue s) |}
      | None => s
      end
  | _ => {| profiles := db; parse_queue := parse_queue s |}
  end.

Definition no_candidates : candidates :=
  {| profiles := ∅; parse_queue := [] |}.

Definition candidate_run (ops : list candidate_op) : candidates :=
  fold_left candidate_step ops no_candidates.

(** A database state is observable when it is the state after some
    operations, or one an operation goes through after them. *)
Definition candidate_observable (db : gmap Z CandidateProfile) : Prop :=
  exists ops, db = profiles (candidate_run ops)
              \/ exists op, In db (candidate_points op (candidate_run ops)).

(** ** Job posts and the ranking task *)

Inductive ranking_status :=
| not_ranked
| ranking
| ranked
| ranking_failed.

(** [created_at] is in seconds and never written. *)
Record JobPost := {
  candidate_ranking_data : option Ranker.ranking_data;
  ranking_status_of : ranking_status;
  ranking_task_id : option str;
  created_at : Z;
}.

Definition with_ranking_status (st : ranking_status) (j : JobPost) : JobPost :=
  {| candidate_ranking_data := candidate_ranking_data j;
     ranking_status_of := st; ranking_task_id := ranking_task_id j;
     created_at := created_at j |}.

Definition with_ranking_data (d : Ranker.ranking_data) (j : JobPost) : JobPost :=
  {| candidate_ranking_data := Some d;
     ranking_status_of := ranking_status_of j;
     ranking_task_id := ranking_task_id j; created_at := created_at j |}.

Definition with_task_id (t : option str) (j : JobPost) : JobPost :=
  {| candidate_ranking_data := candidate_ranking_data j;
     ranking_status_of := ranking_status_of j;
     ranking_task_id := t; created_at := created_at j |}.

Record jobs := {
  posts : gmap Z JobPost;
  rank_queue : list message;
}.

Definition is_ranked (j : JobPost) : bool :=
  match ranking_status_of j with ranked => true | _ => false end.

Definition is_ranking (j : JobPost) : bool :=
  match ranking_status_of j with ranking => true | _ => false end.

(** The reverse accessors that [organization/models.py] gives a user:
    the related names of [Organization.root_user] and of
    [Organization.users]. *)
Definition USER_ACCESSORS : list str :=
  [L "organization_root_user"; L "organizations"].

(** [getattr(user, name)] for the name of a reverse accessor. *)
Definition user_accessor (name : str) : result unit :=
  if Py.mem name USER_ACCESSORS then Ok tt else Raise AttributeError.

(** [self.get_object()] of the job views as the source stands: it goes
    through [get_queryset], which reads [user.organization_set] before
    anything else. *)
Definition get_object : result unit := user_accessor (L "organization_set").

(** The view action [rank_candidates].  [found] is what
    [self.get_object()] comes to, an exception or the job of the
    request; the status is then saved as ranking before the task is
    sent; [task] is the identifier of the task sent, [None] when the
    broker refuses it.  The result lists the database after each [save]
    and gives the queue. *)
Definition rank_candidates (found : result unit) (id : Z) (task : option str)
    (s : jobs) : list (gmap Z JobPost) * list message :=
  match found with
  | Raise _ => ([], rank_queue s)
  | Ok _ =>
      match posts s !! id with
      | None => ([], rank_queue s)
      | Some j =>
          if is_ranked j && has_some (candidate_ranking_data j)
          then ([], rank_queue s)
          else if is_ranking j then ([], rank_queue s)
          else
            let db1 := alter (with_ranking_status ranking) id (posts s) in
            match task with
            | Some t =>
                ([db1; alter (with_task_id (Some t)) id db1],
                 rank_queue s ++ [(id, 0%nat)])
            | None => ([db1], rank_queue s)
            end
      end
  end.

(** One run of [rank_candidates_task].  [outcome] is what
    [ranking_algo] comes to; when it returns it has itself saved its
    result and the status, which the task then saves once more. *)
Definition rank_candidates_task (retries : nat) (id : Z)
    (outcome : result Ranker.ranking_data) (db : gmap Z JobPost)
  : list (gmap Z JobPost) * bool :=
  match db !! id with
  | None => ([], (retries <? max_retries)%nat)
  | Some _ =>
      let db1 := alter (with_ranking_status ranking) id db in
      let store d j := with_ranking_status ranked (with_ranking_data d j) in
      match outcome with
      | Ok data =>
          let db2 := alter (store data) id db1 in
          ([db1; db2; alter (store data) id db2], false)
      | Raise _ =>
          ([db1; alter (with_ranking_status ranking_failed) id db1],
           (retries <? max_retries)%nat)
      end
  end.

(** [cleanup_failed_ranking_tasks] at time [now]. *)
Definition cleanup_failed_ranking_tasks (now : Z) (db : gmap Z JobPost)
  : gmap Z JobPost :=
  (fun j =>
     if is_ranking j && (created_at j <? now - 7200)%Z
     then with_task_id None (with_ranking_status not_ranked j) else j) <$> db.

(** What can happen to the job table.  A post of the rank action
    carries what [self.get_object()] came to: [get_object] as the source
    stands, the job of the request once the queryset can be built. *)
Inductive job_op :=
| CreateJob (id : Z) (at_time : Z)
| PostRankCandidates (found : result unit) (id : Z) (task : option str)
| RunRankTask (i : nat) (outcome : result Ranker.ranking_data)
| SweepRanking (now : Z).

Definition new_job (at_time : Z) : JobPost :=
  {| candidate_ranking_data := None; ranking_status_of := not_ranked;
     ranking_task_id := None; created_at := at_time |}.

Definition job_points (op : job_op) (s : jobs) : list (gmap Z JobPost) :=
  match op with
  | CreateJob id t =>
      match posts s !! id with
      | None => [<[id := new_job t]> (posts s)]
      | Some _ => []
      end
  | PostRankCandidates found id task => (rank_candidates found id task s).1
  | RunRankTask i outcome =>
      match rank_queue s !! i with
      | Some m => (rank_candidates_task m.2 m.1 outcome (posts s)).1
      | None => []
      end
  | SweepRanking now => [cleanup_failed_ranking_tasks now (posts s)]
  end.

Definition job_step (s : jobs) (op : job_op) : jobs :=
  let db := List.last (job_points op s) (posts s) in
  match op with
  | PostRankCandidates found id task =>
      {| posts := db; rank_queue := (rank_candidates found id task s).2 |}
  | RunRankTask i outcome =>
      match rank_queue s !! i with
      | Some m =>
          {| posts := db;
             rank_queue :=
               requeue i m (rank_candidates_task m.2 m.1 outcome (posts s)).2
                 (rank_queue s) |}
      | None => s
      end
  | _ => {| posts := db; rank_queue := rank_queue s |}
  end.

Definition no_jobs : jobs := {| posts := ∅; rank_queue := [] |}.

Definition job_run (ops : list job_op) : jobs :=
  fold_left job_step ops no_jobs.

Definition job_observable (db : gmap Z JobPost) : Prop :=
  exists ops, db = posts (job_run ops)
              \/ exists op, In db (job_points op (job_run ops)).

End Tasks.

(* ================================================================== *)
(** * main/chat_store.py and the conversation of main/agent.py          *)
(* ================================================================== *)

(** The two chat tables and [lyra_chat_supabase].  Identifiers and times
    are integers; the rows of a table are listed in the order in which
    they were inserted.  Every call of the ORM may raise, and none of
    them is inside a transaction: a row that was inserted stays when a
    later call raises. *)

Module Chat.

Record ChatSession := {
  cs_id : Z;
  cs_mode : str;
  cs_user_id : option Z;
  cs_candidate_slug : option str;
}.

Record ChatMessage := {
  cm_session : Z;
  cm_role : str;
  cm_content : str;
  cm_created_at : Z;
}.

Record store := {
  sessions : list ChatSession;
  chat_messages : list ChatMessage;
}.

(** The calls a conversation makes to the database, in its order. *)
Inductive db_call :=
| GetSession
| CreateSession
| SelectMessages
| InsertUserMessage
| InsertReply.

Definition has_session (id : Z) (st : store) : bool :=
  existsb (fun s => (cs_id s =? id)%Z) (sessions st).

(** [get_or_create_session].  [session_id] is [None] for an identifier
    that is missing or empty; [fresh] is the identifier [uuid4] draws
    for a new row; [db] tells what the database makes of a call, [Ok]
    when it carries it out.  The result is the store and the identifier
    of the session. *)
Definition get_or_create_session (db : db_call -> result unit)
    (session_id : option Z) (mode : str)
    (user_id : option Z) (candidate_slug : option str) (fresh : Z)
    (st : store) : store * result Z :=
  match session_id with
  | Some id =>
      match db GetSession with
      | Raise e => (st, Raise e)
      | Ok _ =>
          if has_session id st then (st, Ok id)
          else (st, Raise (OtherError (L "ChatSession.DoesNotExist")))
      end
  | None =>
      match db CreateSession with
      | Raise e => (st, Raise e)
      | Ok _ =>
          if has_session fresh st
          then (st, Raise (OtherError (L "IntegrityError")))
          else
            ({| sessions :=
                  sessions st
                  ++ [{| cs_id := fresh; cs_mode := mode; cs_user_id := user_id;
                         cs_candidate_slug := candidate_slug |}];
                chat_messages := chat_messages st |},
             Ok fresh)
      end
  end.

(** The default ordering of the messages, by [created_at]; rows with the
    same time are left in the order of the table, which the database
    does not promise. *)
Fixpoint insert_by_time (m : ChatMessage) (ms : list ChatMessage)
  : list ChatMessage :=
  match ms with
  | [] => [m]
  | x :: xs =>
      if (cm_created_at m <=? cm_created_at x)%Z then m :: ms
      else x :: insert_by_time m xs
  end.

Definition order_by_created_at (ms : list ChatMessage) : list ChatMessage :=
  fold_right insert_by_time [] ms.

(** [session.messages.all()] *)
Definition messages_of (session : Z) (st : store) : list ChatMessage :=
  order_by_created_at
    (List.filter (fun m => (cm_session m =? session)%Z) (chat_messages st)).

(** [load_history]: pairs of role and content. *)
Definition load_history (session : Z) (st : store) : list (str * str) :=
  map (fun m => (cm_role m, cm_content m)) (messages_of session st).

(** [save_message] at time [now].  [content] is [None] for Python's
    [None], which the column, a text field that is not nullable,
    refuses; [outcome] is what the database makes of the insert
    otherwise. *)
Definition save_message (outcome : result unit) (session : Z)
    (role : str) (content : option str) (now : Z) (st : store)
  : store * result unit :=
  match content, outcome with
  | None, _ => (st, Raise (OtherError (L "IntegrityError")))
  | Some _, Raise e => (st, Raise e)
  | Some c, Ok _ =>
      ({| sessions := sessions st;
          chat_messages :=
            chat_messages st
            ++ [{| cm_session := session; cm_role := role; cm_content := c;
                   cm_created_at := now |}] |},
       Ok tt)
  end.

Definition nl : str := [ascii_of_nat 10].

(** The dash after the name is not an ASCII character in the source; a
    hyphen stands for it. *)
Definition system_prompt : str :=
  nl ++ L "        You are LYRA - a friendly, warm, supportive AI career mentor."
  ++ nl ++ L "        Be conversational and natural."
  ++ nl ++ L "        Ask short follow-up questions when useful."
  ++ nl ++ L "        Never invent facts; rely only on provided context."
  ++ nl ++ L "    ".

Definition FAST_MODEL : str := L "gpt-5-mini".
Definition DEEP_MODEL : str := L "gpt-5".

Definition deep_keywords : list str :=
  [ L "roadmap"; L "plan"; L "architecture"; L "design"; L "compare";
    L "strategy"; L "6 month"; L "12 month" ].

Definition use_deep (message : str) : bool :=
  existsb (fun k => Py.contains k (Py.lower message)) deep_keywords.

(** What a call reads from outside: the chat completion (model,
    messages; the content of the first choice, which may be [None]),
    the identifier drawn for a new session, the clock at the two saves,
    and what the database makes of each call. *)
Record services := {
  completion : str -> list (str * str) -> result (option str);
  uuid4 : Z;
  now_user : Z;
  now_reply : Z;
  database : db_call -> result unit;
}.

(** The messages sent to the model. *)
Definition request (history : list (str * str)) (message : str)
  : list (str * str) :=
  [(L "system", system_prompt)] ++ history ++ [(L "user", message)].

(** [lyra_chat_supabase]: the store it leaves, and the reply with the
    session identifier, or the exception raised. *)
Definition lyra_chat_supabase (sv : services) (message : str)
    (session_id : option Z) (mode : str) (user_id : option Z)
    (candidate_slug : option str) (st : store)
  : store * result (option str * Z) :=
  match get_or_create_session (database sv) session_id mode user_id
          candidate_slug (uuid4 sv) st with
  | (st1, Raise e) => (st1, Raise e)
  | (st1, Ok session) =>
      match database sv SelectMessages with
      | Raise e => (st1, Raise e)
      | Ok _ =>
          let history := load_history session st1 in
          let model := if use_deep message then DEEP_MODEL else FAST_MODEL in
          match completion sv model (request history message) with
          | Raise e => (st1, Raise e)
          | Ok reply =>
              match save_message (database sv InsertUserMessage) session
                      (L "user") (Some message) (now_user sv) st1 with
              | (st2, Raise e) => (st2, Raise e)
              | (st2, Ok _) =>
                  match save_message (database sv InsertReply) session
                          (L "assistant") reply (now_reply sv) st2 with
                  | (st3, Raise e) => (st3, Raise e)
                  | (st3, Ok _) => (st3, Ok (reply, session))
                  end
              end
          end
      end
  end.

End Chat.

(* ================================================================== *)
(** * Vocabulary of the statements, and sample data                     *)
(* ================================================================== *)

(** ** Text *)

(** One of the two strings starts with the other. *)
Definition compatible (a b : str) : bool :=
  Py.startswith a b || Py.startswith b a.

(** [s] mentions [w] in some mixture of cases. *)
Definition mentions (w s : str) : Prop :=
  exists pre mid post, s = pre ++ mid ++ post /\ Py.lower mid = w.

(** [kw] stands in [s] as a whole word, in some mixture of cases: no word
    character touches it on either side. *)
Definition whole_word (kw s : str) : Prop :=
  exists pre mid post,
    s = pre ++ mid ++ post /\ Py.lower mid = Py.lower kw
    /\ Re.word_at (last pre) = false /\ Re.word_at (head post) = false.

(** The words that come right after one of the keywords [kws]. *)
Fixpoint following (kws words : list str) : list str :=
  match words with
  | w :: (t :: _) as rest =>
      if Py.mem w kws then t :: following kws rest else following kws rest
  | _ => []
  end.

(** The specification's reading of a statement: the tables are the words
    after FROM or JOIN, the limits the words after LIMIT. *)
Definition words_after (kws : list str) (sql : str) : list str :=
  following kws (Py.split_ws (Py.lower sql)).

(** [a] comes before [b] in the order of [sorted]. *)
Definition below (a b : str) : Prop := Py.ltb a b = true.

Definition line_feed : str := [ascii_of_nat 10].

Definition quoted (s : str) : str := [Agent.dquote] ++ s ++ [Agent.dquote].

(** ** Patterns *)

(** The literal text of a pattern that has nothing but literal characters
    and word boundaries. *)
Fixpoint literal_of (p : Re.regex) : option str :=
  match p with
  | [] => Some []
  | Re.NBound :: p' => literal_of p'
  | Re.NAtom (Re.ALit c) Re.QOne :: p' => cons c <$> literal_of p'
  | _ => None
  end.

(** The pattern that reads the characters of [w] one by one. *)
Definition lit_nodes (w : str) : Re.regex :=
  map (fun c => Re.NAtom (Re.ALit c) Re.QOne) w.

(** The character before the position reached after reading [m]. *)
Definition prev_after (prev : option ascii) (m : str) : option ascii :=
  match last m with
  | Some c => Some c
  | None => prev
  end.

(** No proper tail of the literal [w] runs into the start of [target],
    and [w] does not start anywhere inside [target]. *)
Definition clear_of (w target : str) : bool :=
  forallb (fun k => negb (compatible (skipn k (Py.lower w)) target))
    (seq 1 (length w - 1))
  && forallb (fun j => negb (compatible (Py.lower w) (skipn j target)))
       (seq 0 (length target)).

(** ** The guardrail *)

(** The column name the guardrail looks for. *)
Definition needle : str := L "is_available".

(** The clause the guardrail adds, in lower case. *)
Definition availability_clause : str := L "is_available = true".

Definition restricts_to_available (sql : str) : bool :=
  Py.contains availability_clause (Py.lower sql).

(** The call returns, or raises the rejection error, or fails on a
    missing match or a missing word. *)
Definition contained {A} (r : result A) : Prop :=
  match r with
  | Ok _ | Raise (ValueError _) | Raise AttributeError | Raise IndexError => True
  | Raise _ => False
  end.

(** The forbidden keywords made of word characters. *)
Definition word_keywords : list str :=
  [ L "to_tsvector"; L "to_tsquery"; L "plainto_tsquery";
    L "phraseto_tsquery"; L "websearch_to_tsquery";
    L "insert"; L "update"; L "delete"; L "drop"; L "alter";
    L "truncate"; L "create" ].

(** A statement as a model writes it, one clause per line, reading the
    table of users. *)
Definition users_query : str :=
  L "SELECT *" ++ line_feed ++ L "FROM users_user" ++ line_feed
  ++ L "WHERE 'is_available' <> ''" ++ line_feed ++ L "LIMIT 20".

(** A text search on the resume column. *)
Definition fts_query : str :=
  L "SELECT slug FROM candidates_candidateprofile WHERE resume_data::text @@ 'python' AND is_available = TRUE LIMIT 5".

(** The candidates who are not available. *)
Definition unavailable_query : str :=
  L "SELECT slug FROM candidates_candidateprofile WHERE is_available = FALSE LIMIT 5".

(** A statement that lists the availability column and has no
    condition. *)
Definition projected_query : str :=
  L "SELECT slug, is_available FROM candidates_candidateprofile LIMIT 5".

(** A search for a word that contains the letters of the keyword. *)
Definition unlimited_query : str :=
  L "SELECT slug FROM candidates_candidateprofile WHERE resume_data::text ILIKE '%unlimited%'".

(** A search term that looks like a limit clause, in front of the limit
    clause of the statement. *)
Definition quoted_limit_query : str :=
  L "SELECT slug FROM candidates_candidateprofile WHERE resume_data::text ILIKE '%limit 5%' AND is_available = TRUE LIMIT 1000".

(** A small limit in a subquery, in front of the limit of the
    statement. *)
Definition nested_limit_query : str :=
  L "SELECT slug FROM candidates_candidateprofile WHERE slug IN (SELECT slug FROM candidates_candidateprofile LIMIT 5) AND is_available = TRUE LIMIT 1000".

(** ** The extraction *)

(** A scanned PDF: one page whose text layer holds a name only. *)
Definition scanned_pdf : ResumeParser.files :=
  {| ResumeParser.guess_type := fun _ => Some (L "application/pdf");
     ResumeParser.path_suffix := fun _ => L ".pdf";
     ResumeParser.pdf_page_texts := fun _ => [L "Jane Doe"; []];
     ResumeParser.docx_paragraphs := fun _ => [];
     ResumeParser.paddle := None |}.

(** ** The ranking *)

(** A reply whose score is a JSON string. *)
Definition string_reply (score : str) : str :=
  L "{" ++ quoted (L "score") ++ L ": " ++ quoted score ++ L ", "
  ++ quoted (L "reasons") ++ L ": [" ++ quoted (L "Strong Python") ++ L "]}".

Definition alice : Ranker.llm_candidate :=
  {| Ranker.lc_id := 1; Ranker.lc_slug := L "alice";
     Ranker.lc_resume_text := L "resume of alice" |}.

Definition bob : Ranker.llm_candidate :=
  {| Ranker.lc_id := 2; Ranker.lc_slug := L "bob";
     Ranker.lc_resume_text := L "resume of bob" |}.

(** What [json.loads] makes of the two replies below. *)
Definition loads_string_reply (content : str) : result (list (str * Ranker.json)) :=
  if Py.eqb content (string_reply (L "90"))
  then Ok [(L "score", Ranker.JStr (L "90"));
           (L "reasons", Ranker.JStrs [L "Strong Python"])]
  else if Py.eqb content (string_reply (L "50"))
  then Ok [(L "score", Ranker.JStr (L "50"));
           (L "reasons", Ranker.JStrs [L "Strong Python"])]
  else Raise (ValueError (L "JSONDecodeError")).

(** A model that writes its scores as strings: 90 for alice, 50 for
    anyone else. *)
Definition steady : Ranker.services :=
  {| Ranker.skill_completion := fun _ => Ok [];
     Ranker.chat := fun _ p =>
       if Py.contains (L "resume of alice") p then Ok (string_reply (L "90"))
       else Ok (string_reply (L "50"));
     Ranker.encode_len := fun s => length s;
     Ranker.json_loads := loads_string_reply;
     Ranker.now := L "2025-01-01 00:00:00" |}.

(** The same model when the call for anyone but alice times out. *)
Definition flaky : Ranker.services :=
  {| Ranker.skill_completion := fun _ => Ok [];
     Ranker.chat := fun _ p =>
       if Py.contains (L "resume of alice") p then Ok (string_reply (L "90"))
       else Raise (OtherError (L "APITimeoutError"));
     Ranker.encode_len := fun s => length s;
     Ranker.json_loads := loads_string_reply;
     Ranker.now := L "2025-01-01 00:00:00" |}.

(** The entry the loop appends for one candidate. *)
Definition entry_for (sv : Ranker.services) (job_description : str)
    (c : Ranker.llm_candidate) : Ranker.ranked :=
  List.last
    (Ranker.t_results
       (Ranker.score_candidate sv job_description
          {| Ranker.t_results := []; Ranker.t_input := 0;
             Ranker.t_output := 0; Ranker.t_cost := 0 |} c))
    (Ranker.error_entry c).

(** The call raises, or its reply cannot be read for a score and
    reasons. *)
Definition scoring_fails (sv : Ranker.services) (job_description : str)
    (c : Ranker.llm_candidate) : Prop :=
  match Ranker.chat sv Ranker.system_msg
          (Ranker.prompt job_description (Ranker.lc_resume_text c)) with
  | Raise _ => True
  | Ok content =>
      match Ranker.json_loads sv content with
      | Raise _ => True
      | Ok d =>
          match Ranker.getitem d (L "score"), Ranker.getitem d (L "reasons") with
          | Ok _, Ok _ => False
          | _, _ => True
          end
      end
  end.

(** The score of the entry is a number with a value: an integer or a
    float other than NaN and the infinities. *)
Definition numeric (e : Ranker.ranked) : Prop :=
  exists q, Ranker.score e = Ranker.JNum q.

(** [a] is not below [b] in the order of the keys. *)
Definition above {A} (key : A -> nat) (a b : A) : Prop := key b <= key a.

(** The candidate shares a skill with the expanded list. *)
Definition has_overlap (ex : list str) (c : Ranker.candidate) : bool :=
  negb (Ranker.overlap ex c =? 0)%nat.

(** An available candidate with the given skills. *)
Definition demo_candidate (id : Z) (skills : list str) : Ranker.candidate :=
  {| Ranker.c_id := id;
     Ranker.c_slug := L "candidate-" ++ Py.of_nat (Z.to_nat id);
     Ranker.c_resume_data :=
       Some {| Ranker.rj_empty := false;
               Ranker.rj_skills := Some (map Ranker.SkillStr skills);
               Ranker.rj_dumps := Py.join (L ", ") skills;
               Ranker.rj_dumps_indent := Py.join (L ", ") skills |};
     Ranker.c_is_available := true;
     Ranker.c_has_workvisa := false;
     Ranker.c_work_mode_preferences := [];
     Ranker.c_employment_type_preferences := [] |}.

(** A table of ten candidates; four of them know some of the skills
    asked for, the others none. *)
Definition demo_table : list Ranker.candidate :=
  [ demo_candidate 1 [L "Cobol"];
    demo_candidate 2 [L "Python"; L "SQL"];
    demo_candidate 3 [L "Fortran"];
    demo_candidate 4 [L "python"; L "sql"; L "aws"];
    demo_candidate 5 [L "AWS"];
    demo_candidate 6 [];
    demo_candidate 7 [L "sql "; L "Aws"];
    demo_candidate 8 [L "Pascal"];
    demo_candidate 9 [L "Ada"];
    demo_candidate 10 [L "Lisp"] ]%Z.

Definition demo_job : Ranker.job_post :=
  {| Ranker.j_title := L "Data engineer"; Ranker.j_location := L "Toronto";
     Ranker.j_workplace_type := 3; Ranker.j_job_type := 1;
     Ranker.j_skills := [L "Python"; L "SQL"; L "AWS"];
     Ranker.j_estimated_salary := L "100k";
     Ranker.j_visa_required := false;
     Ranker.j_job_desc := L "Pipelines." |}.

Definition demo_skills : list str := [L "python"; L "sql"; L "aws"].

(** ** The status machines *)

(** Every record of the table is [good]. *)
Definition all_good {R} (good : R -> Prop) (db : gmap Z R) : Prop :=
  forall id r, db !! id = Some r -> good r.

(** The two invariants as the data model states them. *)
Definition profile_consistent (c : Tasks.CandidateProfile) : Prop :=
  Tasks.resume_data c <> None <-> Tasks.parsing_status_of c = Tasks.parsed.

Definition job_consistent (j : Tasks.JobPost) : Prop :=
  Tasks.candidate_ranking_data j <> None
  <-> Tasks.ranking_status_of j = Tasks.ranked.

(** Their direction from the status to the result. *)
Definition profile_has_result (c : Tasks.CandidateProfile) : Prop :=
  Tasks.parsing_status_of c = Tasks.parsed -> Tasks.resume_data c <> None.

Definition job_has_result (j : Tasks.JobPost) : Prop :=
  Tasks.ranking_status_of j = Tasks.ranked ->
  Tasks.candidate_ranking_data j <> None.

Definition some_fields : Tasks.resume_fields :=
  {| Tasks.rf_name := Some (L "Jane Doe"); Tasks.rf_email := None;
     Tasks.rf_linkedin := None; Tasks.rf_skills := [L "python"];
     Tasks.rf_work_experience := None; Tasks.rf_rest := L "Jane Doe" |}.

(** The parse action is posted twice before a worker takes the first
    task: the view saves no status, so the second post passes its
    checks.  The first task parses the resume. *)
Definition twice_posted : list Tasks.candidate_op :=
  [ Tasks.CreateProfile 1 (Some (L "https://files.example/resume.pdf")) 0;
    Tasks.PostParseResume 1 true;
    Tasks.PostParseResume 1 true;
    Tasks.RunParseTask 0 (Ok some_fields) ].

Definition some_ranking : Ranker.ranking_data :=
  {| Ranker.ranked_candidates := [];
     Ranker.usage := {| Ranker.input_tokens := 0; Ranker.output_tokens := 0;
                        Ranker.total_tokens := 0 |};
     Ranker.estimated_cost := 0; Ranker.last_updated := L "2025-01-01" |}.

(** With the queryset of the job views built: a ranking fails and is
    retried; before the retry runs, the action is posted again and that
    task ranks the job. *)
Definition retried_and_reposted : list Tasks.job_op :=
  [ Tasks.CreateJob 1 0;
    Tasks.PostRankCandidates (Ok tt) 1 (Some (L "task-1"));
    Tasks.RunRankTask 0 (Raise (OtherError (L "APIConnectionError")));
    Tasks.PostRankCandidates (Ok tt) 1 (Some (L "task-2"));
    Tasks.RunRankTask 1 (Ok some_ranking) ].

(** ** Normalised text *)

(** The length of the run of whitespace at the start of [s]. *)
Fixpoint span_len (s : str) : nat :=
  match s with
  | c :: s' => if Py.is_space c then S (span_len s') else 0
  | [] => 0
  end.

(** Every whitespace character of [s] is a space that does not follow
    another one; [after_space] tells whether a space comes just before
    [s]. *)
Fixpoint single_spaced (after_space : bool) (s : str) : bool :=
  match s with
  | [] => true
  | c :: s' =>
      if Py.is_space c
      then Ascii.eqb c " " && negb after_space && single_spaced true s'
      else single_spaced false s'
  end.

(** [s] does not end with whitespace. *)
Definition ends_clean (s : str) : bool :=
  match last s with
  | Some c => negb (Py.is_space c)
  | None => true
  end.

(** The normal form of a statement: no whitespace at either end, and
    between words one space. *)
Definition tidy (s : str) : Prop :=
  single_spaced true s = true /\ ends_clean s = true.

(** ** The final ranking *)


(** A model that answers with a number: 90 for alice, 50 for anyone
    else. *)
Definition grader : Ranker.services :=
  {| Ranker.skill_completion := fun _ => Ok [L "python"; L " SQL"; L "aws"];
     Ranker.chat := fun _ p =>
       if Py.contains (L "resume of alice") p then Ok (L "90") else Ok (L "50");
     Ranker.encode_len := fun s => length s;
     Ranker.json_loads := fun content =>
       Ok [(L "score",
            Ranker.JNum (inject_Z (Z.of_N (Py.digits_value content))));
           (L "reasons", Ranker.JStrs [L "Fits"])];
     Ranker.now := L "2025-01-01 00:00:00" |}.

(** The tokens of the two messages sent for a candidate. *)
Definition prompt_tokens (sv : Ranker.services) (job_description : str)
    (c : Ranker.llm_candidate) : nat :=
  Ranker.encode_len sv Ranker.system_msg
  + Ranker.encode_len sv
      (Ranker.prompt job_description (Ranker.lc_resume_text c)).

(** The tokens of the reply for a candidate, when there is one. *)
Definition reply_tokens (sv : Ranker.services) (job_description : str)
    (c : Ranker.llm_candidate) : nat :=
  match Ranker.chat sv Ranker.system_msg
          (Ranker.prompt job_description (Ranker.lc_resume_text c)) with
  | Ok content => Ranker.encode_len sv content
  | Raise _ => 0
  end.

(** The reply for the candidate is there and holds a score and
    reasons. *)
Definition scoring_succeeds (sv : Ranker.services) (job_description : str)
    (c : Ranker.llm_candidate) : bool :=
  match Ranker.chat sv Ranker.system_msg
          (Ranker.prompt job_description (Ranker.lc_resume_text c)) with
  | Raise _ => false
  | Ok content =>
      match Ranker.json_loads sv content with
      | Raise _ => false
      | Ok d =>
          match Ranker.getitem d (L "score"), Ranker.getitem d (L "reasons") with
          | Ok _, Ok _ => true
          | _, _ => false
          end
      end
  end.

(** What a candidate adds to the estimated cost. *)
Definition billed (sv : Ranker.services) (job_description : str)
    (c : Ranker.llm_candidate) : Q :=
  if scoring_succeeds sv job_description c
  then Ranker.call_cost (prompt_tokens sv job_description c)
         (reply_tokens sv job_description c)
  else 0%Q.

Definition Qsum (xs : list Q) : Q := fold_right Qplus 0%Q xs.

(** ** The queues and the tables over a run *)

(** No message of the queue has been retried more often than a task may
    be. *)
Definition retries_bounded (queue : list Tasks.message) : Prop :=
  Forall (fun m => m.2 <= Tasks.max_retries) queue.

(** [c'] is [c] after extraction operations: the same file and
    timestamp, and fields when [c] had fields. *)
Definition profile_kept (c c' : Tasks.CandidateProfile) : Prop :=
  Tasks.resume_file c' = Tasks.resume_file c
  /\ Tasks.updated_at c' = Tasks.updated_at c
  /\ (Tasks.resume_data c <> None -> Tasks.resume_data c' <> None).

(** [j'] is [j] after ranking operations: the same creation time, and a
    ranking result when [j] had one. *)
Definition job_kept (j j' : Tasks.JobPost) : Prop :=
  Tasks.created_at j' = Tasks.created_at j
  /\ (Tasks.candidate_ranking_data j <> None ->
      Tasks.candidate_ranking_data j' <> None).

(** Every record of [db] is still in [db'], related by [kept]. *)
Definition table_kept {R} (kept : R -> R -> Prop) (db db' : gmap Z R) : Prop :=
  forall id r, db !! id = Some r -> exists r', db' !! id = Some r' /\ kept r r'.

(** A job created at time 0 and ranked much later. *)
Definition old_job_posted : Tasks.jobs :=
  Tasks.job_run [Tasks.CreateJob 1 0].

(** ** The conversation *)


Definition no_chats : Chat.store :=
  {| Chat.sessions := []; Chat.chat_messages := [] |}.

(** A database that carries out every call. *)
Definition db_up (call : Chat.db_call) : result unit := Ok tt.


Definition mentor_silent : Chat.services :=
  {| Chat.completion := fun _ _ => Ok None;
     Chat.uuid4 := 7; Chat.now_user := 10; Chat.now_reply := 11;
     Chat.database := db_up |}.

(** ** Text over other alphabets *)

(** On the strings made of characters of [s], lower-casing is the
    character-by-character map [f]: it keeps the length and does not
    look at the neighbours of a character. *)
Definition lowers_by {char} (str_lower : list char -> list char)
    (f : char -> char) (s : list char) : Prop :=
  forall u, incl u s -> str_lower u = map f u.

(** Unicode code points, with [str.isspace] on them. *)
Definition cp_isspace (n : N) : bool :=
  Py.between 9 13 n || Py.between 28 32 n || (n =? 133)%N || (n =? 160)%N
  || (n =? 5760)%N || Py.between 8192 8202 n || (n =? 8232)%N
  || (n =? 8233)%N || (n =? 8239)%N || (n =? 8287)%N || (n =? 12288)%N.

(** [str.lower] on strings of ASCII characters and U+0130, the capital
    I with a dot, which lower-cases to two code points. *)
Definition dotted_lower (s : list N) : list N :=
  flat_map (fun c => if (c =? 304)%N then [105; 775]%N
                     else if Py.between 65 90 c then [c + 32]%N
                     else [c]) s.

Definition code_points (s : str) : list N := map Py.code s.

(** A text that starts with three U+0130. *)
Definition dotted_text : list N :=
  [304; 304; 304]%N ++ code_points (L " acme corp: Python, SQL").

(** An entry with the given score. *)
Definition entry_scored (id : Z) (s : Ranker.json) : Ranker.ranked :=
  {| Ranker.candidate_id := id; Ranker.candidate_slug := [];
     Ranker.score := s; Ranker.reasons := Ranker.JStrs [] |}.

(** The rank actions of the run come to what they come to as the source
    stands. *)
Definition as_the_source_stands (ops : list Tasks.job_op) : Prop :=
  Forall (fun op =>
            match op with
            | Tasks.PostRankCandidates found _ _ => found = Tasks.get_object
            | _ => True
            end) ops.

(** A job as it was created: no ranking asked for, none stored. *)
Definition untouched (j : Tasks.JobPost) : Prop :=
  Tasks.ranking_status_of j = Tasks.not_ranked
  /\ Tasks.candidate_ranking_data j = None
  /\ Tasks.ranking_task_id j = None.

(* ================================================================== *)
(** * Properties                                                        *)
(* ================================================================== *)

(** ** Characters and strings *)

Lemma ascii_eqb_true a b : Ascii.eqb a b = true <-> a = b.
Proof. apply Ascii.eqb_eq. Qed.

Lemma lower_app a b : Py.lower (a ++ b) = Py.lower a ++ Py.lower b.
Proof. apply map_app. Qed.

Lemma lower_length s : length (Py.lower s) = length s.
Proof. apply length_map. Qed.

Lemma lower_eq_length a b : Py.lower a = Py.lower b -> length a = length b.
Proof. intros H. rewrite <- (lower_length a), H. apply lower_length. Qed.

Lemma startswith_spec p s :
  Py.startswith p s = true <-> exists t, s = p ++ t.
Proof.
  revert s; induction p as [|x p IH]; intros s; simpl.
  - split; eauto.
  - destruct s as [|y s]; simpl.
    + split; [discriminate | intros [t Ht]; discriminate].
    + rewrite andb_true_iff, ascii_eqb_true, IH. split.
      * intros [-> [t ->]]. eauto.
      * intros [t Ht]. injection Ht as -> ->. eauto.
Qed.

Lemma contains_spec sub s :
  Py.contains sub s = true <-> exists pre post, s = pre ++ sub ++ post.
Proof.
  induction s as [|c s IH]; simpl; rewrite orb_true_iff, startswith_spec.
  - split.
    + intros [[t Ht] | ?]; [|discriminate]. exists [], t. exact Ht.
    + intros (pre & post & H). left. destruct pre; simpl in H.
      * eauto.
      * discriminate.
  - rewrite IH. split.
    + intros [[t Ht] | (pre & post & ->)].
      * exists [], t. exact Ht.
      * exists (c :: pre), post. reflexivity.
    + intros (pre & post & H). destruct pre as [|x pre]; simpl in H.
      * left. eauto.
      * right. injection H as -> ->. eauto.
Qed.

Lemma lstrip_length s : length (Py.lstrip s) <= length s.
Proof.
  induction s as [|c s IH]; simpl; [lia|].
  destruct (Py.is_space c); simpl; lia.
Qed.

Lemma lstrip_fixed s :
  Py.lstrip s = s -> match s with c :: _ => Py.is_space c = false | [] => True end.
Proof.
  destruct s as [|c s]; [trivial|]. simpl.
  destruct (Py.is_space c); [|reflexivity].
  intros H. pose proof (lstrip_length s) as Hl. rewrite H in Hl. simpl in Hl. lia.
Qed.

Lemma lstrip_idem s : Py.lstrip (Py.lstrip s) = Py.lstrip s.
Proof.
  induction s as [|c s IH]; simpl; [reflexivity|].
  destruct (Py.is_space c) eqn:E; [exact IH|]. simpl. rewrite E. reflexivity.
Qed.

Lemma lstrip_snoc s c :
  Py.is_space c = false -> Py.lstrip (s ++ [c]) = Py.lstrip s ++ [c].
Proof.
  intros Hc. induction s as [|x s IH]; simpl.
  - rewrite Hc. reflexivity.
  - destruct (Py.is_space x); [exact IH | reflexivity].
Qed.

Lemma rstrip_cons c s :
  Py.is_space c = false -> Py.rstrip (c :: s) = c :: Py.rstrip s.
Proof.
  intros Hc. unfold Py.rstrip. simpl.
  rewrite lstrip_snoc by exact Hc. rewrite rev_app_distr. reflexivity.
Qed.

Lemma rstrip_idem s : Py.rstrip (Py.rstrip s) = Py.rstrip s.
Proof.
  unfold Py.rstrip. rewrite rev_involutive, lstrip_idem. reflexivity.
Qed.

(** Stripping twice is stripping once. *)
Lemma strip_idem s : Py.strip (Py.strip s) = Py.strip s.
Proof.
  unfold Py.strip.
  assert (H : Py.lstrip (Py.rstrip (Py.lstrip s)) = Py.rstrip (Py.lstrip s)).
  { pose proof (lstrip_fixed _ (lstrip_idem s)) as Hf.
    destruct (Py.lstrip s) as [|c t]; [reflexivity|].
    rewrite rstrip_cons by exact Hf. simpl. rewrite Hf. reflexivity. }
  rewrite H. apply rstrip_idem.
Qed.

Lemma bind_ok {A B} (r : result A) (k : A -> result B) (b : B) :
  (r ≫= k) = Ok b -> exists a, r = Ok a /\ k a = Ok b.
Proof. destruct r as [a|e]; simpl; [eauto | discriminate]. Qed.

(** Two prefixes of one string: one of them starts with the other. *)
Lemma prefixes_compatible (a b z z' : str) :
  a ++ z = b ++ z' -> Py.startswith a b = true \/ Py.startswith b a = true.
Proof.
  revert b; induction a as [|x a IH]; intros [|y b] H; simpl; auto.
  simpl in H. injection H as -> H. rewrite (proj2 (ascii_eqb_true y y) eq_refl).
  simpl. eauto.
Qed.

Lemma compatible_prefixes (a b z z' : str) :
  a ++ z = b ++ z' -> compatible a b = true.
Proof.
  intros H. unfold compatible. apply orb_true_iff.
  destruct (prefixes_compatible _ _ _ _ H); auto.
Qed.

(** ** Matching a pattern of literals and word boundaries *)

Lemma match_here_literal p : forall w gs g prev s pos f,
  literal_of p = Some w ->
  Re.match_here true p gs g prev s pos = Some f ->
  exists m s', s = m ++ s' /\ Py.lower m = Py.lower w
               /\ Re.m_len f = pos + length w.
Proof.
  induction p as [|n p IH]; intros w gs g prev s pos f Hw Hm; simpl in *.
  - injection Hw as <-. injection Hm as <-. exists [], s. simpl. auto with lia.
  - destruct n as [[c| |] [| |]| | |]; try discriminate.
    + destruct (literal_of p) as [w'|] eqn:Ew; [|discriminate].
      simpl in Hw. injection Hw as <-.
      destruct s as [|x s]; [discriminate|].
      destruct (Re.atom_ok true (Re.ALit c) x) eqn:Ex; [|discriminate].
      simpl in Ex. apply ascii_eqb_true in Ex.
      destruct (IH _ _ _ _ _ _ _ eq_refl Hm) as (m & s' & -> & Hl & Hn).
      exists (x :: m), s'. simpl. rewrite Ex, Hl. split; [reflexivity|].
      split; [reflexivity | lia].
    + destruct (Re.boundary prev s); [|discriminate]. eauto.
Qed.

Lemma match_at_literal p w prev s f :
  literal_of p = Some w ->
  Re.match_at true p prev s = Some f ->
  exists m s', s = m ++ s' /\ Py.lower m = Py.lower w
               /\ Re.m_len f = length w.
Proof. intros Hw Hm. exact (match_here_literal _ _ _ _ _ _ _ _ Hw Hm). Qed.

(** ** Matching a run of one class *)

Lemma many_span ic a (k : option ascii -> str -> nat -> option Re.found) :
  (forall prev s pos f, k prev s pos = Some f -> Re.m_len f = pos) ->
  forall s pos f,
    Re.many ic a k s pos = Some f ->
    exists m s', s = m ++ s' /\ m <> []
                 /\ Forall (fun c => Re.atom_ok ic a c = true) m
                 /\ Re.m_len f = pos + length m.
Proof.
  intros Hk. induction s as [|c s IH]; intros pos f H; simpl in H;
    [discriminate|].
  destruct (Re.atom_ok ic a c) eqn:E; [|discriminate].
  destruct (Re.many ic a k s (S pos)) as [r|] eqn:Em.
  - injection H as ->.
    destruct (IH _ _ Em) as (m & s' & -> & _ & Hall & Hlen).
    exists (c :: m), s'. simpl.
    split; [reflexivity|]. split; [discriminate|].
    split; [constructor; assumption | lia].
  - apply Hk in H. exists [c], s. simpl.
    split; [reflexivity|]. split; [discriminate|].
    split; [constructor; [assumption | constructor] | lia].
Qed.

(** ** Substitution keeps a piece of text that no match touches *)

Lemma sub_from_cons0 ic p repl prev c s :
  Re.sub_from ic p repl prev (c :: s) 0 =
  match Re.match_at ic p prev (c :: s) with
  | Some {| Re.m_len := S n |} => repl ++ Re.sub_from ic p repl (Some c) s n
  | Some _ => repl ++ c :: Re.sub_from ic p repl (Some c) s 0
  | None => c :: Re.sub_from ic p repl (Some c) s 0
  end.
Proof. reflexivity. Qed.

Lemma sub_from_consS ic p repl prev c s k :
  Re.sub_from ic p repl prev (c :: s) (S k) = Re.sub_from ic p repl (Some c) s k.
Proof. reflexivity. Qed.

Section SubKeeps.
Variables (ic : bool) (p : Re.regex) (repl mid post : str).

(** A match that starts before [mid] ends before it. *)
Hypothesis over : forall prev r f,
  r <> [] -> Re.match_at ic p prev (r ++ mid ++ post) = Some f ->
  Re.m_len f <= length r.

(** No match starts inside [mid]. *)
Hypothesis inside : forall prev m1 c m2,
  mid = m1 ++ c :: m2 -> Re.match_at ic p prev (c :: m2 ++ post) = None.

Lemma sub_from_inside : forall m2 m1 prev,
  mid = m1 ++ m2 ->
  exists y, Re.sub_from ic p repl prev (m2 ++ post) 0 = m2 ++ y.
Proof.
  induction m2 as [|c m2 IH]; intros m1 prev Hmid.
  - simpl. eauto.
  - change ((c :: m2) ++ post) with (c :: m2 ++ post).
    rewrite sub_from_cons0, (inside prev m1 c m2 Hmid).
    destruct (IH (m1 ++ [c]) (Some c)) as [y Hy].
    { rewrite <- app_assoc. exact Hmid. }
    rewrite Hy. exists y. reflexivity.
Qed.

Lemma sub_from_keeps : forall pre prev skip,
  skip <= length pre ->
  exists x y, Re.sub_from ic p repl prev (pre ++ mid ++ post) skip
              = x ++ mid ++ y.
Proof.
  induction pre as [|a pre IH]; intros prev skip Hs.
  - simpl in Hs. assert (skip = 0) as -> by lia. simpl.
    destruct (sub_from_inside mid [] prev eq_refl) as [y Hy].
    exists [], y. exact Hy.
  - change ((a :: pre) ++ mid ++ post) with (a :: pre ++ mid ++ post).
    destruct skip as [|k].
    + rewrite sub_from_cons0.
      destruct (Re.match_at ic p prev (a :: pre ++ mid ++ post))
        as [[[|n] g]|] eqn:Em.
      * destruct (IH (Some a) 0) as (x & y & ->); [lia|].
        exists (repl ++ a :: x), y. rewrite <- app_assoc. reflexivity.
      * assert (Hn : S n <= length (a :: pre)).
        { apply (over prev (a :: pre) {| Re.m_len := S n; Re.m_group := g |});
            [discriminate | exact Em]. }
        simpl in Hn.
        destruct (IH (Some a) n) as (x & y & ->); [lia|].
        exists (repl ++ x), y. rewrite <- app_assoc. reflexivity.
      * destruct (IH (Some a) 0) as (x & y & ->); [lia|].
        exists (a :: x), y. reflexivity.
    + rewrite sub_from_consS. simpl in Hs.
      destruct (IH (Some a) k) as (x & y & ->); [lia|]. eauto.
Qed.
End SubKeeps.

(** ** The column name survives the rewrites *)

Lemma contains_lower_mentions w s :
  Py.contains w (Py.lower s) = true <-> mentions w s.
Proof.
  rewrite contains_spec. unfold mentions, Py.lower. split.
  - intros (a & b & H).
    apply map_eq_app in H as (pre & rest & -> & <- & H).
    apply map_eq_app in H as (mid & post & -> & <- & <-).
    exists pre, mid, post. auto.
  - intros (pre & mid & post & -> & <-).
    exists (map Py.lower_char pre), (map Py.lower_char post).
    rewrite !map_app. reflexivity.
Qed.

Lemma is_space_lower c : Py.is_space c = true -> Py.lower_char c = c.
Proof.
  destruct c as [[] [] [] [] [] [] [] []]; vm_compute;
    intros H; first [reflexivity | discriminate H].
Qed.

Lemma no_space_in_needle mid :
  Py.lower mid = needle -> Forall (fun c => Py.is_space c = false) mid.
Proof.
  intros H. apply List.Forall_forall. intros c Hc.
  destruct (Py.is_space c) eqn:E; [|reflexivity]. exfalso.
  assert (Hin : In (Py.lower_char c) needle).
  { rewrite <- H. apply in_map, Hc. }
  rewrite (is_space_lower _ E) in Hin.
  assert (Hall : forallb (fun x => negb (Py.is_space x)) needle = true)
    by (vm_compute; reflexivity).
  rewrite forallb_forall in Hall. specialize (Hall _ Hin).
  rewrite E in Hall. discriminate.
Qed.

Section LiteralKeeps.
Variables (p : Re.regex) (w mid post : str).
Hypothesis Hlit : literal_of p = Some w.
Hypothesis Hmid : Py.lower mid = needle.
Hypothesis Hclear : clear_of w needle = true.

Lemma literal_over prev r f :
  r <> [] -> Re.match_at true p prev (r ++ mid ++ post) = Some f ->
  Re.m_len f <= length r.
Proof.
  intros Hr Hm.
  destruct (match_at_literal _ _ _ _ _ Hlit Hm) as (m & s' & Heq & Hl & ->).
  apply app_eq_app in Heq as [l [[-> Hrest] | [-> Hrest]]].
  - rewrite <- (lower_eq_length _ _ Hl), length_app. lia.
  - destruct l as [|x l].
    { rewrite app_nil_r in Hl. rewrite <- (lower_eq_length _ _ Hl). lia. }
    exfalso.
    apply andb_true_iff in Hclear as [Hover _].
    rewrite forallb_forall in Hover.
    assert (Hlen : length w = length r + S (length l)).
    { rewrite <- (lower_eq_length _ _ Hl), length_app. reflexivity. }
    specialize (Hover (length r)).
    rewrite in_seq in Hover.
    destruct r as [|r0 r]; [congruence|]. simpl length in *.
    assert (Hc0 : compatible (Py.lower (x :: l)) (Py.lower mid) = true).
    { apply (compatible_prefixes _ _ (Py.lower s') (Py.lower post)).
      rewrite <- !lower_app. f_equal. symmetry. exact Hrest. }
    assert (Hs : skipn (S (length r)) (Py.lower w) = Py.lower (x :: l)).
    { rewrite <- Hl, lower_app.
      replace (S (length r)) with (length (Py.lower (r0 :: r)))
        by (rewrite lower_length; reflexivity).
      rewrite skipn_app, skipn_all, Nat.sub_diag. reflexivity. }
    assert (Hc : compatible (skipn (S (length r)) (Py.lower w)) needle = true)
      by (rewrite Hs, <- Hmid; exact Hc0).
    rewrite Hc in Hover.
    assert (negb true = true) by (apply Hover; lia). discriminate.
Qed.

Lemma literal_inside prev m1 c m2 :
  mid = m1 ++ c :: m2 -> Re.match_at true p prev (c :: m2 ++ post) = None.
Proof.
  intros Hsplit.
  destruct (Re.match_at true p prev (c :: m2 ++ post)) as [f|] eqn:Hm;
    [exfalso | reflexivity].
  destruct (match_at_literal _ _ _ _ _ Hlit Hm) as (m & s' & Heq & Hl & _).
  apply andb_true_iff in Hclear as [_ Hin].
  rewrite forallb_forall in Hin. specialize (Hin (length m1)).
  assert (Hn : length needle = length m1 + S (length m2)).
  { rewrite <- Hmid, Hsplit, lower_length, length_app. reflexivity. }
  rewrite in_seq in Hin.
  assert (Hc0 : compatible (Py.lower m) (Py.lower (c :: m2)) = true).
  { apply (compatible_prefixes _ _ (Py.lower s') (Py.lower post)).
    rewrite <- !lower_app. f_equal. symmetry. exact Heq. }
  assert (Hs : skipn (length m1) needle = Py.lower (c :: m2)).
  { rewrite <- Hmid, Hsplit, lower_app.
    replace (length m1) with (length (Py.lower m1)) by (apply lower_length).
    rewrite skipn_app, skipn_all, Nat.sub_diag. reflexivity. }
  assert (Hc : compatible (Py.lower w) (skipn (length m1) needle) = true)
    by (rewrite Hs, <- Hl; exact Hc0).
  rewrite Hc in Hin.
  assert (negb true = true) by (apply Hin; lia). discriminate.
Qed.

(** Replacing the matches of a literal pattern keeps the column name. *)
Lemma literal_sub_keeps repl pre :
  exists x y, Re.sub_from true p repl None (pre ++ mid ++ post) 0
              = x ++ mid ++ y.
Proof.
  apply sub_from_keeps; [exact literal_over | exact literal_inside | lia].
Qed.
End LiteralKeeps.

Section SpacesKeep.
Variables (ic : bool) (mid post : str).
Hypothesis Hmid : Py.lower mid = needle.

Let spaces : Re.regex := [Re.NAtom Re.ASpace Re.QPlus].

Lemma spaces_span prev s f :
  Re.match_at ic spaces prev s = Some f ->
  exists m s', s = m ++ s' /\ m <> []
               /\ Forall (fun c => Py.is_space c = true) m
               /\ Re.m_len f = length m.
Proof.
  intros H.
  apply (many_span ic Re.ASpace (Re.match_here ic [] None None)) in H.
  - exact H.
  - intros ? ? ? ? E. simpl in E. injection E as <-. reflexivity.
Qed.

Lemma mid_not_nil : mid <> [].
Proof. intros ->. discriminate Hmid. Qed.

Lemma spaces_over prev r f :
  r <> [] -> Re.match_at ic spaces prev (r ++ mid ++ post) = Some f ->
  Re.m_len f <= length r.
Proof.
  intros _ H.
  destruct (spaces_span _ _ _ H) as (m & s' & Heq & _ & Hall & ->).
  apply app_eq_app in Heq as [l [[-> _] | [-> Hrest]]].
  - rewrite length_app. lia.
  - destruct l as [|x l]; [rewrite app_nil_r; lia | exfalso].
    pose proof (no_space_in_needle _ Hmid) as Hno.
    destruct mid as [|c mid']; [discriminate Hmid|].
    simpl in Hrest. injection Hrest as -> _.
    apply Forall_app in Hall as [_ Hall].
    apply Forall_inv in Hall. apply Forall_inv in Hno. congruence.
Qed.

Lemma spaces_inside prev m1 c m2 :
  mid = m1 ++ c :: m2 -> Re.match_at ic spaces prev (c :: m2 ++ post) = None.
Proof.
  intros Hsplit.
  destruct (Re.match_at ic spaces prev (c :: m2 ++ post)) as [f|] eqn:H;
    [exfalso | reflexivity].
  destruct (spaces_span _ _ _ H) as (m & s' & Heq & Hne & Hall & _).
  destruct m as [|x m]; [congruence|].
  simpl in Heq. injection Heq as <- _.
  apply Forall_inv in Hall.
  pose proof (no_space_in_needle _ Hmid) as Hno.
  rewrite Hsplit in Hno. apply Forall_app in Hno as [_ Hno].
  apply Forall_inv in Hno. congruence.
Qed.

Lemma spaces_sub_keeps repl pre :
  exists x y, Re.sub_from ic spaces repl None (pre ++ mid ++ post) 0
              = x ++ mid ++ y.
Proof.
  apply sub_from_keeps; [exact spaces_over | exact spaces_inside | lia].
Qed.
End SpacesKeep.

(** ** Stripping keeps a piece of text without whitespace *)

Lemma lstrip_keeps pre mid post :
  mid <> [] -> Forall (fun c => Py.is_space c = false) mid ->
  exists x, Py.lstrip (pre ++ mid ++ post) = x ++ mid ++ post.
Proof.
  intros Hne Hall. induction pre as [|a pre IH]; simpl.
  - destruct mid as [|c mid']; [congruence|].
    apply Forall_inv in Hall. simpl. rewrite Hall. exists []. reflexivity.
  - destruct (Py.is_space a); [exact IH|]. exists (a :: pre). reflexivity.
Qed.

Lemma rstrip_keeps pre mid post :
  mid <> [] -> Forall (fun c => Py.is_space c = false) mid ->
  exists y, Py.rstrip (pre ++ mid ++ post) = pre ++ mid ++ y.
Proof.
  intros Hne Hall. unfold Py.rstrip.
  rewrite !rev_app_distr, <- app_assoc.
  destruct (lstrip_keeps (rev post) (rev mid) (rev pre)) as [x Hx].
  - intros H. apply Hne. rewrite <- (rev_involutive mid), H. reflexivity.
  - apply List.Forall_forall. intros c Hc. apply in_rev in Hc.
    rewrite List.Forall_forall in Hall. auto.
  - rewrite Hx, !rev_app_distr, !rev_involutive, <- app_assoc.
    exists (rev x). reflexivity.
Qed.

Lemma strip_keeps s :
  mentions needle s -> mentions needle (Py.strip s).
Proof.
  intros (pre & mid & post & -> & Hmid).
  pose proof (no_space_in_needle _ Hmid) as Hall.
  pose proof (mid_not_nil _ Hmid) as Hne.
  unfold Py.strip.
  destruct (lstrip_keeps pre mid post Hne Hall) as [x ->].
  destruct (rstrip_keeps x mid post Hne Hall) as [y ->].
  exists x, mid, y. auto.
Qed.

(** ** The rewrites after the availability step keep the column name *)

Lemma compile_spaces :
  Re.compile (L "\s+") = Some [Re.NAtom Re.ASpace Re.QPlus].
Proof. reflexivity. Qed.

Lemma normalize_keeps s out :
  mentions needle s -> Agent._normalize_sql s = Ok out -> mentions needle out.
Proof.
  intros Hs. apply strip_keeps in Hs as (pre & mid & post & Heq & Hmid).
  unfold Agent._normalize_sql, Re.sub. rewrite compile_spaces, Heq.
  intros H. injection H as <-.
  destruct (spaces_sub_keeps false _ post Hmid (L " ") pre) as (x & y & Hxy).
  exists x, mid, y. split; [exact Hxy | exact Hmid].
Qed.

Lemma compile_ilike :
  exists p, Re.compile (L "\bilike\b") = Some p
            /\ literal_of p = Some (L "ilike").
Proof. eexists. split; reflexivity. Qed.

Lemma compile_text :
  exists p, Re.compile (L "::text") = Some p
            /\ literal_of p = Some (L "::text").
Proof. eexists. split; reflexivity. Qed.

Lemma sqlite_fixes_keeps engine s out :
  mentions needle s -> Agent.sqlite_fixes engine s = Ok out ->
  mentions needle out.
Proof.
  intros Hs. unfold Agent.sqlite_fixes.
  destruct (Agent.is_sqlite engine); [|intros H; injection H as <-; exact Hs].
  destruct compile_ilike as (p1 & Hc1 & Hl1).
  destruct compile_text as (p2 & Hc2 & Hl2).
  unfold Re.sub. rewrite Hc1, Hc2. simpl. intros H. injection H as <-.
  destruct Hs as (pre & mid & post & -> & Hmid).
  destruct (literal_sub_keeps p1 (L "ilike") mid post Hl1 Hmid eq_refl
              (L "LIKE") pre) as (x & y & H1).
  assert (Hnext : forall t, t = x ++ mid ++ y ->
                            mentions needle (Re.sub_from true p2 [] None t 0)).
  { intros t ->.
    destruct (literal_sub_keeps p2 (L "::text") mid y Hl2 Hmid eq_refl [] x)
      as (x' & y' & H2).
    exists x', mid, y'. split; [exact H2 | exact Hmid]. }
  apply Hnext. exact H1.
Qed.

Lemma force_available_mentions s : mentions needle (Agent.force_available s).
Proof.
  unfold Agent.force_available.
  destruct (Py.contains (L "is_available") (Py.lower s)) eqn:E; cbn [negb].
  - apply contains_lower_mentions. exact E.
  - destruct (Py.contains (L "where") (Py.lower s)).
    + exists (s ++ L " AND "), needle, (L " = TRUE").
      split; [rewrite <- app_assoc|]; reflexivity.
    + exists (s ++ L " WHERE "), needle, (L " = TRUE").
      split; [rewrite <- app_assoc|]; reflexivity.
Qed.

(* ================================================================== *)
(** * The guardrail on concrete statements                              *)
(* ================================================================== *)

(** The checks at work: a foreign table after FROM between spaces is
    refused, a large limit is clamped, a missing limit and a missing
    availability condition are added, a stacked statement is refused. *)
Example foreign_table_rejected :
  Agent.validate_and_sanitize_sql Agent.ENGINE
    (L "SELECT slug FROM users_user LIMIT 5")
  = Raise (ValueError (L "Table not allowed: users_user")).
Proof. vm_compute. reflexivity. Qed.

Example large_limit_clamped :
  Agent.validate_and_sanitize_sql Agent.ENGINE
    (L "select slug from candidates_candidateprofile where is_available = true limit 500")
  = Ok (L "select slug from candidates_candidateprofile where is_available = true LIMIT 20").
Proof. vm_compute. reflexivity. Qed.

Example limit_and_condition_added :
  Agent.validate_and_sanitize_sql Agent.ENGINE
    (L "SELECT slug FROM candidates_candidateprofile WHERE has_workvisa = TRUE")
  = Ok (L "SELECT slug FROM candidates_candidateprofile WHERE has_workvisa = TRUE LIMIT 10 AND is_available = TRUE").
Proof. vm_compute. reflexivity. Qed.

Example stacked_statement_rejected :
  Agent.validate_and_sanitize_sql Agent.ENGINE
    (L "SELECT slug FROM candidates_candidateprofile; DROP TABLE candidates")
  = Raise (ValueError (L "Multiple statements blocked")).
Proof. vm_compute. reflexivity. Qed.

Example sqlite_rewrites :
  Agent.validate_and_sanitize_sql (L "django.db.backends.sqlite3")
    (L "SELECT slug FROM candidates_candidateprofile  WHERE resume_data::text ILIKE '%py%' AND is_available = TRUE LIMIT 5")
  = Ok (L "SELECT slug FROM candidates_candidateprofile WHERE resume_data LIKE '%py%' AND is_available = TRUE LIMIT 5").
Proof. vm_compute. reflexivity. Qed.

(** C1 (the code on a failing input).  The word after FROM is the table
    of users, which is not allowed.  The table scan looks for the keyword
    between two spaces; after a line break it finds no table at all, and
    the guardrail returns a statement that reads [users_user]. *)
Theorem foreign_table_accepted :
  words_after [L "from"; L "join"] users_query = [L "users_user"]
  /\ Py.mem (L "users_user") Agent.ALLOWED_TABLES = false
  /\ Agent._extract_referenced_tables users_query = Ok []
  /\ Agent.validate_and_sanitize_sql Agent.ENGINE users_query
     = Ok (L "SELECT * FROM users_user WHERE 'is_available' <> '' LIMIT 20").
Proof. repeat split; vm_compute; reflexivity. Qed.

(** C2 (the code on a failing input).  The text-search operator stands
    as a whole word in the statement.  Its pattern asks for a word
    character on both sides of it; written between spaces the operator
    passes, and the statement is returned unchanged. *)
Theorem fts_operator_accepted :
  whole_word (L "@@") fts_query
  /\ In (L "\b@@\b") Agent.FORBIDDEN_SQL_PATTERNS
  /\ Re.search (L "\b@@\b") fts_query true = Ok None
  /\ Agent.validate_and_sanitize_sql Agent.ENGINE fts_query = Ok fts_query.
Proof.
  split.
  - exists (L "SELECT slug FROM candidates_candidateprofile WHERE resume_data::text "),
      (L "@@"), (L " 'python' AND is_available = TRUE LIMIT 5").
    repeat split; reflexivity.
  - split; [simpl; tauto|]. split; vm_compute; reflexivity.
Qed.

(** C3 (counterexample).  A statement that names the availability column
    gets nothing added: the one that selects the candidates who are not
    available is returned as it is, and so is the one that only lists the
    column and has no condition at all. *)
Lemma unavailable_query_accepted :
  Agent.validate_and_sanitize_sql Agent.ENGINE unavailable_query
  = Ok unavailable_query
  /\ restricts_to_available unavailable_query = false
  /\ Agent.validate_and_sanitize_sql Agent.ENGINE projected_query
     = Ok projected_query
  /\ restricts_to_available projected_query = false
  /\ Py.contains (L "where") (Py.lower projected_query) = false.
Proof. repeat split; vm_compute; reflexivity. Qed.

(** C3 (amended).  Every statement the guardrail returns names the
    availability column.  The statement that comes out of the limit step
    gets the clause appended, after AND when it contains a WHERE and
    after WHERE otherwise, when it does not name the column in any
    mixture of cases; nothing is appended when it does. *)
Theorem sanitized_sql_mentions_availability engine sql out :
  Agent.validate_and_sanitize_sql engine sql = Ok out ->
  Py.contains (L "is_available") (Py.lower out) = true
  /\ exists sql1,
      Agent._enforce_limit sql = Ok sql1
      /\ (Agent.sqlite_fixes engine (Agent.force_available sql1)
            ≫= Agent._normalize_sql) = Ok out
      /\ (Py.contains (L "is_available") (Py.lower sql1) = false ->
          Py.contains (L "where") (Py.lower sql1) = true ->
          Agent.force_available sql1 = sql1 ++ L " AND is_available = TRUE")
      /\ (Py.contains (L "is_available") (Py.lower sql1) = false ->
          Py.contains (L "where") (Py.lower sql1) = false ->
          Agent.force_available sql1 = sql1 ++ L " WHERE is_available = TRUE")
      /\ (Py.contains (L "is_available") (Py.lower sql1) = true ->
          Agent.force_available sql1 = sql1).
Proof.
  unfold Agent.validate_and_sanitize_sql.
  destruct (negb _); [discriminate|].
  destruct (Py.contains (L ";") _); [discriminate|].
  intros H.
  apply bind_ok in H as (_ & _ & H).
  apply bind_ok in H as (tables & _ & H).
  apply bind_ok in H as (_ & _ & H).
  apply bind_ok in H as (cols & _ & H).
  apply bind_ok in H as (_ & _ & H).
  apply bind_ok in H as (sql1 & Hlimit & H).
  split.
  - apply bind_ok in H as (sql2 & Hfix & Hnorm).
    apply contains_lower_mentions.
    apply (normalize_keeps _ _ (sqlite_fixes_keeps _ _ _
             (force_available_mentions sql1) Hfix) Hnorm).
  - exists sql1. split; [exact Hlimit|]. split; [exact H|].
    unfold Agent.force_available.
    split; [|split]; intros ->; cbn [negb]; try intros ->; reflexivity.
Qed.

Lemma sanitized_sql_mentions_availability_witness :
  Agent.validate_and_sanitize_sql Agent.ENGINE
    (L "SELECT slug FROM candidates_candidateprofile WHERE slug = 'a'")
  = Ok (L "SELECT slug FROM candidates_candidateprofile WHERE slug = 'a' LIMIT 10 AND is_available = TRUE")
  /\ Py.contains (L "is_available")
       (Py.lower (L "SELECT slug FROM candidates_candidateprofile WHERE slug = 'a' LIMIT 10 AND is_available = TRUE"))
     = true.
Proof.
  assert (H : Agent.validate_and_sanitize_sql Agent.ENGINE
                (L "SELECT slug FROM candidates_candidateprofile WHERE slug = 'a'")
              = Ok (L "SELECT slug FROM candidates_candidateprofile WHERE slug = 'a' LIMIT 10 AND is_available = TRUE"))
    by (vm_compute; reflexivity).
  split; [exact H|].
  exact (proj1 (sanitized_sql_mentions_availability _ _ _ H)).
Defined.

(** C10 (the code on a failing input).  The statement contains the
    letters of the keyword inside a word and no limit clause: the search
    for the clause finds nothing, and reading its group fails with an
    [AttributeError], which is not the rejection error.  A statement that
    ends after its FROM fails with an [IndexError] in the table scan. *)
Theorem limit_word_crashes :
  Agent._enforce_limit unlimited_query = Raise AttributeError
  /\ Agent.validate_and_sanitize_sql Agent.ENGINE unlimited_query
     = Raise AttributeError
  /\ Agent.validate_and_sanitize_sql Agent.ENGINE (L "select slug from  ")
     = Raise IndexError.
Proof. repeat split; vm_compute; reflexivity. Qed.

(** C4 (the code on a failing input).  The limit of the statement, the
    word after its last LIMIT, is 1000.  Only the first text that looks
    like a limit clause is read; when that is a small one, inside a
    quoted search term or in a subquery, the statement is returned with
    its limit of 1000. *)
Theorem limit_not_clamped :
  words_after [L "limit"] quoted_limit_query = [L "1000"]
  /\ Agent._enforce_limit quoted_limit_query = Ok quoted_limit_query
  /\ Agent.validate_and_sanitize_sql Agent.ENGINE quoted_limit_query
     = Ok quoted_limit_query
  /\ words_after [L "limit"] nested_limit_query = [L "5)"; L "1000"]
  /\ Agent.validate_and_sanitize_sql Agent.ENGINE nested_limit_query
     = Ok nested_limit_query.
Proof. repeat split; vm_compute; reflexivity. Qed.

(** A statement without the letters of the keyword gets the default
    limit appended. *)
Lemma enforce_limit_default sql :
  Py.contains (L "limit") (Py.lower sql) = false ->
  Agent._enforce_limit sql = Ok (sql ++ L " LIMIT 10").
Proof.
  intros H. unfold Agent._enforce_limit. rewrite H. reflexivity.
Qed.

(** C8 (the code on a failing input).  The entry with the two plus signs
    is read as a pattern, a possessive repeat of its letter, so a text
    with the single letter yields that entry as well. *)
Theorem extract_skills_single_letter :
  ResumeParser.extract_skills (L "C developer") = Ok [L "c"; L "c++"]
  /\ Py.contains (L "c++") (Py.lower (L "C developer")) = false.
Proof. split; vm_compute; reflexivity. Qed.

(* ================================================================== *)
(** * Forbidden keywords that are words                                 *)
(* ================================================================== *)

Lemma is_word_lower c : Py.is_word (Py.lower_char c) = Py.is_word c.
Proof.
  destruct c as [[] [] [] [] [] [] [] []]; vm_compute; reflexivity.
Qed.

Lemma prev_after_cons prev c m :
  prev_after (Some c) m = prev_after prev (c :: m).
Proof.
  unfold prev_after. destruct m as [|x m]; [reflexivity|].
  rewrite last_cons_cons. destruct (last (x :: m)) eqn:E; [reflexivity|].
  apply last_None in E. discriminate.
Qed.

Lemma match_here_lits w : forall q gs g prev mid post pos,
  Py.lower mid = Py.lower w ->
  Re.match_here true (lit_nodes w ++ q) gs g prev (mid ++ post) pos
  = Re.match_here true q gs g (prev_after prev mid) post (pos + length w).
Proof.
  induction w as [|c w IH]; intros q gs g prev mid post pos Hl.
  - destruct mid; [|discriminate]. simpl. rewrite Nat.add_0_r. reflexivity.
  - destruct mid as [|x mid]; [discriminate|].
    simpl in Hl. injection Hl as Hx Hl.
    simpl. rewrite Hx, (proj2 (ascii_eqb_true _ _) eq_refl).
    rewrite (IH q gs g (Some x) mid post (S pos) Hl), (prev_after_cons prev).
    f_equal. lia.
Qed.

Lemma bounded_word_matches w prev mid post :
  Py.lower mid = Py.lower w ->
  Re.word_at prev = false ->
  Re.word_at (head mid) = true ->
  Re.word_at (last mid) = true ->
  Re.word_at (head post) = false ->
  Re.match_at true (Re.NBound :: lit_nodes w ++ [Re.NBound]) prev (mid ++ post)
  <> None.
Proof.
  intros Hl Hp Hh Ht Hpost. unfold Re.match_at.
  cbn [Re.match_here]. unfold Re.boundary at 1.
  assert (Hhead : head (mid ++ post) = head mid).
  { destruct mid; [discriminate Hh | reflexivity]. }
  rewrite Hhead, Hp, Hh. cbn [xorb].
  rewrite (match_here_lits w [Re.NBound] None None prev mid post 0 Hl).
  cbn [Re.match_here]. unfold Re.boundary, prev_after.
  destruct (last mid) as [c|]; [|discriminate Ht].
  rewrite Ht, Hpost. discriminate.
Qed.

Lemma search_from_finds ic p rest : forall pre prev start,
  Re.match_at ic p (prev_after prev pre) rest <> None ->
  Re.search_from ic p prev (pre ++ rest) start <> None.
Proof.
  induction pre as [|a pre IH]; intros prev start Hm.
  - unfold prev_after in Hm. simpl in Hm. simpl.
    destruct rest; simpl;
      destruct (Re.match_at ic p prev _); congruence.
  - rewrite <- prev_after_cons in Hm.
    change ((a :: pre) ++ rest) with (a :: pre ++ rest).
    cbn [Re.search_from].
    destruct (Re.match_at ic p prev (a :: pre ++ rest)); [discriminate|].
    apply IH. exact Hm.
Qed.

Lemma word_keyword_facts kw :
  In kw word_keywords ->
  In (L "\b" ++ kw ++ L "\b") Agent.FORBIDDEN_SQL_PATTERNS
  /\ Re.compile (L "\b" ++ kw ++ L "\b")
     = Some (Re.NBound :: lit_nodes kw ++ [Re.NBound])
  /\ Re.word_at (head (Py.lower kw)) = true
  /\ Re.word_at (last (Py.lower kw)) = true.
Proof.
  intros Hin. simpl in Hin.
  repeat (destruct Hin as [<- | Hin];
          [split; [simpl; tauto | repeat split; vm_compute; reflexivity]|]).
  contradiction.
Qed.

Lemma word_at_lower_head (m : str) :
  Re.word_at (head (Py.lower m)) = Re.word_at (head m).
Proof. destruct m; [reflexivity|]. simpl. apply is_word_lower. Qed.

Lemma word_at_lower_last (m : str) :
  Re.word_at (last (Py.lower m)) = Re.word_at (last m).
Proof.
  induction m as [|a [|b m] IH]; [reflexivity | apply is_word_lower |].
  exact IH.
Qed.

(** A whole-word occurrence of a word keyword is found by its pattern. *)
Lemma word_keyword_found kw sql :
  In kw word_keywords -> whole_word kw sql ->
  exists m, Re.search (L "\b" ++ kw ++ L "\b") sql true = Ok (Some m).
Proof.
  intros Hin (pre & mid & post & -> & Hl & Hpre & Hpost).
  destruct (word_keyword_facts kw Hin) as (_ & Hc & Hh & Ht).
  unfold Re.search. rewrite Hc.
  assert (Hfound : Re.search_from true (Re.NBound :: lit_nodes kw ++ [Re.NBound])
                     None (pre ++ mid ++ post) 0 <> None).
  { apply search_from_finds. apply bounded_word_matches; try assumption.
    - unfold prev_after. destruct (last pre); [exact Hpre | reflexivity].
    - rewrite <- word_at_lower_head, Hl. exact Hh.
    - rewrite <- word_at_lower_last, Hl. exact Ht. }
  destruct (Re.search_from _ _ _ _ _) as [[i f]|]; [eauto | congruence].
Qed.

Lemma forbidden_patterns_compile pat :
  In pat Agent.FORBIDDEN_SQL_PATTERNS -> Re.compile pat <> None.
Proof.
  intros Hin. simpl in Hin.
  repeat (destruct Hin as [<- | Hin]; [vm_compute; discriminate|]).
  contradiction.
Qed.

Lemma check_forbidden_rejects sql : forall pats,
  (forall pat, In pat pats -> Re.compile pat <> None) ->
  (exists pat m, In pat pats /\ Re.search pat sql true = Ok (Some m)) ->
  exists msg, Agent.check_forbidden pats sql = Raise (ValueError msg).
Proof.
  induction pats as [|pat pats IH]; intros Hc (pat' & m & Hin & Hs).
  - destruct Hin.
  - cbn [Agent.check_forbidden].
    destruct (Re.search pat sql true) as [[mo|]|e] eqn:E; simpl.
    + eauto.
    + apply IH.
      * intros q Hq. apply Hc. right. exact Hq.
      * destruct Hin as [-> | Hin]; [congruence|]. eauto.
    + exfalso. unfold Re.search in E.
      destruct (Re.compile pat) eqn:Ec; [discriminate|].
      apply (Hc pat); [left; reflexivity | exact Ec].
Qed.

(** X1.  For the keywords that are words, the claim about forbidden keywords
    holds: a statement with one of them as a whole word, in any mixture
    of cases, is rejected. *)
Theorem forbidden_word_rejected engine kw sql :
  In kw word_keywords -> whole_word kw sql ->
  exists msg, Agent.validate_and_sanitize_sql engine sql = Raise (ValueError msg).
Proof.
  intros Hin Hw. unfold Agent.validate_and_sanitize_sql.
  destruct (negb _); [eauto|].
  destruct (Py.contains (L ";") _); [eauto|].
  destruct (check_forbidden_rejects sql Agent.FORBIDDEN_SQL_PATTERNS
              forbidden_patterns_compile) as [msg ->].
  - destruct (word_keyword_found kw sql Hin Hw) as [m Hm].
    exists (L "\b" ++ kw ++ L "\b"), m. split; [|exact Hm].
    apply (word_keyword_facts kw Hin).
  - simpl. eauto.
Qed.

Lemma forbidden_word_rejected_witness :
  exists msg,
    Agent.validate_and_sanitize_sql Agent.ENGINE (L "SELECT 1; DrOp TABLE candidates")
    = Raise (ValueError msg).
Proof.
  apply (forbidden_word_rejected Agent.ENGINE (L "drop")).
  - simpl. tauto.
  - exists (L "SELECT 1; "), (L "DrOp"), (L " TABLE candidates").
    repeat split; reflexivity.
Defined.

(* ================================================================== *)
(** * What can escape the guardrail                                     *)
(* ================================================================== *)

Lemma contained_bind {A B} (r : result A) (k : A -> result B) :
  contained r -> (forall a, contained (k a)) -> contained (r ≫= k).
Proof. destruct r as [a|e]; simpl; auto. Qed.

Lemma contained_first xs : contained (Py.first xs).
Proof. destruct xs; exact I. Qed.

Lemma contained_last xs : contained (Py.last xs).
Proof. unfold Py.last. destruct (rev xs); exact I. Qed.

Lemma contained_search pattern s ic :
  Re.compile pattern <> None -> contained (Re.search pattern s ic).
Proof. unfold Re.search. destruct (Re.compile pattern); [intros _; exact I | congruence]. Qed.

Lemma contained_sub pattern repl s ic :
  Re.compile pattern <> None -> contained (Re.sub pattern repl s ic).
Proof. unfold Re.sub. destruct (Re.compile pattern); [intros _; exact I | congruence]. Qed.

Lemma contained_group1 m : contained (Re.group1 m).
Proof.
  destruct m as [mo|]; simpl; [|exact I].
  destruct (Re.m_group (Re.m_found mo)) as [[b e]|]; exact I.
Qed.

Lemma contained_int s : contained (Py.int s).
Proof. unfold Py.int. destruct (_ <? _)%nat; exact I. Qed.

Create HintDb contained.
#[local] Hint Resolve contained_first contained_last contained_group1
  contained_int : contained.

Ltac contained_steps :=
  repeat first
    [ apply contained_bind; [|intros ?]
    | apply contained_search; vm_compute; discriminate
    | apply contained_sub; vm_compute; discriminate
    | solve [auto with contained]
    | exact I ].

Lemma contained_check_forbidden sql : forall pats,
  (forall pat, In pat pats -> Re.compile pat <> None) ->
  contained (Agent.check_forbidden pats sql).
Proof.
  induction pats as [|pat pats IH]; intros Hc; [exact I|].
  cbn [Agent.check_forbidden]. apply contained_bind.
  - apply contained_search, Hc. left. reflexivity.
  - intros [m|]; [exact I|]. apply IH. intros q Hq. apply Hc. right. exact Hq.
Qed.

Lemma contained_check_allowed prefix allowed : forall xs,
  contained (Agent.check_allowed prefix allowed xs).
Proof.
  induction xs as [|x xs IH]; simpl; [exact I|].
  destruct (Py.mem x allowed); [exact IH | exact I].
Qed.

Lemma contained_add_tables : forall parts tables,
  contained (Agent.add_tables parts tables).
Proof.
  induction parts as [|part parts IH]; intros tables; [exact I|].
  cbn [Agent.add_tables]. unfold Agent.table_token. contained_steps; apply IH.
Qed.

Lemma contained_clean_columns : forall cols,
  contained (Agent.clean_columns cols).
Proof.
  induction cols as [|c cols IH]; [exact I|].
  cbn [Agent.clean_columns]. unfold Agent.column_name.
  contained_steps; exact IH.
Qed.

Lemma contained_enforce_limit sql : contained (Agent._enforce_limit sql).
Proof.
  unfold Agent._enforce_limit. destruct (negb _); [exact I|].
  contained_steps. destruct (_ <? _)%N; contained_steps.
Qed.

(** X2.  Whatever the statement, the guardrail returns a statement or raises
    the rejection error, an [AttributeError] or an [IndexError]; the last
    two are the failures of the limit step and of the table scan shown
    above. *)
Theorem guardrail_outcomes engine sql :
  contained (Agent.validate_and_sanitize_sql engine sql).
Proof.
  unfold Agent.validate_and_sanitize_sql.
  destruct (negb _); [exact I|].
  destruct (Py.contains (L ";") _); [exact I|].
  apply contained_bind;
    [apply contained_check_forbidden, forbidden_patterns_compile | intros _].
  apply contained_bind.
  { unfold Agent._extract_referenced_tables. apply contained_bind;
      [apply contained_add_tables | intros ?; apply contained_add_tables]. }
  intros tables. apply contained_bind; [apply contained_check_allowed | intros _].
  apply contained_bind.
  { unfold Agent._extract_selected_columns. apply contained_bind;
      [apply contained_first | intros ?; apply contained_clean_columns]. }
  intros cols. apply contained_bind; [apply contained_check_allowed | intros _].
  apply contained_bind; [apply contained_enforce_limit | intros sql1].
  apply contained_bind.
  - unfold Agent.sqlite_fixes. destruct (Agent.is_sqlite engine); [|exact I].
    contained_steps.
  - intros sql2. unfold Agent._normalize_sql. contained_steps.
Qed.

(* ================================================================== *)
(** * The PDF branch of the extraction                                  *)
(* ================================================================== *)



(* ================================================================== *)
(** * Scoring by the model                                              *)
(* ================================================================== *)

(** C5 (the code on a failing input).  The model writes its scores as
    strings.  While every call succeeds the run returns; when the call
    for bob fails, his entry is the zero score, and the sort after the
    loop compares that number with alice's string and raises: the
    failure of one candidate ends the run without a result. *)
Theorem one_failure_aborts_batch :
  (exists r, Ranker.final_rank_with_llm steady (L "job") [alice; bob] = Ok r)
  /\ scoring_fails flaky (L "job") bob
  /\ Ranker.t_results (Ranker.score_all flaky (L "job") [alice; bob])
     = [ {| Ranker.candidate_id := 1; Ranker.candidate_slug := L "alice";
            Ranker.score := Ranker.JStr (L "90");
            Ranker.reasons := Ranker.JStrs [L "Strong Python"] |};
         Ranker.error_entry bob ]
  /\ Ranker.final_rank_with_llm flaky (L "job") [alice; bob] = Raise TypeError.
Proof.
  split; [eexists; vm_compute; reflexivity|].
  split; [vm_compute; exact I|].
  split; vm_compute; reflexivity.
Qed.

(** ** What the loop alone guarantees *)

Lemma score_candidate_results sv jd acc c :
  Ranker.t_results (Ranker.score_candidate sv jd acc c)
  = Ranker.t_results acc ++ [entry_for sv jd c].
Proof.
  unfold entry_for, Ranker.score_candidate.
  destruct (Ranker.chat sv _ _) as [content|e]; [|reflexivity].
  destruct (Ranker.json_loads sv content ≫= _); reflexivity.
Qed.

Lemma score_all_from sv jd cs : forall acc,
  Ranker.t_results (fold_left (Ranker.score_candidate sv jd) cs acc)
  = Ranker.t_results acc ++ map (entry_for sv jd) cs.
Proof.
  induction cs as [|c cs IH]; intros acc; simpl.
  - rewrite app_nil_r. reflexivity.
  - rewrite IH, score_candidate_results, <- app_assoc. reflexivity.
Qed.

(** Each candidate's entry depends on that candidate alone. *)
Lemma score_all_results sv jd cs :
  Ranker.t_results (Ranker.score_all sv jd cs) = map (entry_for sv jd) cs.
Proof. unfold Ranker.score_all. rewrite score_all_from. reflexivity. Qed.

Lemma entry_for_failure sv jd c :
  scoring_fails sv jd c -> entry_for sv jd c = Ranker.error_entry c.
Proof.
  unfold scoring_fails, entry_for, Ranker.score_candidate.
  destruct (Ranker.chat sv _ _) as [content|e]; [|reflexivity].
  destruct (Ranker.json_loads sv content) as [d|e]; [|reflexivity].
  simpl.
  destruct (Ranker.getitem d (L "score")) as [s|e]; [|reflexivity].
  destruct (Ranker.getitem d (L "reasons")) as [r|e]; [|reflexivity].
  contradiction.
Qed.

(** X3.  Inside the loop a failure is isolated: the failing candidate gets
    the zero score with the reason Ranking error, and the entries of the
    candidates before and after it are the ones they get without it. *)
Theorem loop_isolates_failure sv jd before c after :
  scoring_fails sv jd c ->
  Ranker.t_results (Ranker.score_all sv jd (before ++ c :: after))
  = Ranker.t_results (Ranker.score_all sv jd before)
    ++ [Ranker.error_entry c]
    ++ Ranker.t_results (Ranker.score_all sv jd after).
Proof.
  intros Hf. rewrite !score_all_results, map_app. simpl.
  rewrite (entry_for_failure _ _ _ Hf). reflexivity.
Qed.

Lemma loop_isolates_failure_witness :
  Ranker.t_results (Ranker.score_all flaky (L "job") ([alice] ++ bob :: [alice]))
  = Ranker.t_results (Ranker.score_all flaky (L "job") [alice])
    ++ [Ranker.error_entry bob]
    ++ Ranker.t_results (Ranker.score_all flaky (L "job") [alice]).
Proof.
  apply (loop_isolates_failure flaky (L "job") [alice] bob [alice]).
  vm_compute. exact I.
Defined.



(* ================================================================== *)
(** * Selection for the scoring by the model                            *)
(* ================================================================== *)

Section StableSort.
Context {A : Type}.
Variable key : A -> nat.
Local Abbreviation above := (above key).

Lemma insert_desc_perm x : forall xs,
  Permutation (Ranker.insert_desc key x xs) (x :: xs).
Proof.
  induction xs as [|y ys IH]; simpl; [reflexivity|].
  destruct (key x <? key y)%nat; [|reflexivity].
  rewrite IH. apply perm_swap.
Qed.

Lemma sort_desc_perm : forall xs, Permutation (Ranker.sort_desc key xs) xs.
Proof.
  induction xs as [|x xs IH]; simpl; [reflexivity|].
  rewrite insert_desc_perm. constructor. exact IH.
Qed.

Lemma insert_desc_sorted x : forall xs,
  StronglySorted above xs -> StronglySorted above (Ranker.insert_desc key x xs).
Proof.
  induction xs as [|y ys IH]; intros Hs; simpl.
  - constructor; constructor.
  - apply StronglySorted_inv in Hs as [Hys Hy].
    destruct (key x <? key y)%nat eqn:E.
    + apply Nat.ltb_lt in E. constructor; [apply IH, Hys|].
      apply List.Forall_forall. intros z Hz.
      apply (Permutation_in _ (insert_desc_perm x ys)) in Hz as [<- | Hz].
      * unfold above. lia.
      * rewrite List.Forall_forall in Hy. auto.
    + apply Nat.ltb_ge in E. constructor.
      * constructor; assumption.
      * constructor; [exact E|].
        apply List.Forall_forall. intros z Hz.
        rewrite List.Forall_forall in Hy. specialize (Hy z Hz).
        unfold above in *. lia.
Qed.

Lemma sort_desc_sorted : forall xs, StronglySorted above (Ranker.sort_desc key xs).
Proof.
  induction xs as [|x xs IH]; simpl; [constructor|].
  apply insert_desc_sorted, IH.
Qed.

(** In a sorted list, everything in a front part is above everything
    in the rest. *)
Lemma sorted_front_above : forall front rest a b,
  StronglySorted above (front ++ rest) ->
  In a front -> In b rest -> above a b.
Proof.
  induction front as [|x front IH]; intros rest a b Hs Ha Hb;
    [destruct Ha|].
  simpl in Hs. apply StronglySorted_inv in Hs as [Hs Hx].
  destruct Ha as [<- | Ha]; [|eauto].
  rewrite List.Forall_forall in Hx. apply Hx, in_or_app. right. exact Hb.
Qed.
End StableSort.

Lemma filter_perm {A} (f : A -> bool) (l l' : list A) :
  Permutation l l' -> Permutation (List.filter f l) (List.filter f l').
Proof.
  induction 1 as [|x l l' _ IH|x y l|l l' l'' _ IH1 _ IH2]; simpl.
  - constructor.
  - destruct (f x); [constructor|]; exact IH.
  - destruct (f x), (f y); try reflexivity. apply perm_swap.
  - etransitivity; eassumption.
Qed.

Lemma filter_split {A} (f : A -> bool) (l : list A) :
  Permutation l (List.filter f l ++ List.filter (fun x => negb (f x)) l).
Proof.
  induction l as [|x l IH]; simpl; [constructor|].
  destruct (f x); simpl.
  - constructor. exact IH.
  - apply Permutation_cons_app. exact IH.
Qed.

Lemma NoDup_map_filter {A B} (g : A -> B) (f : A -> bool) (l : list A) :
  List.NoDup (map g l) -> List.NoDup (map g (List.filter f l)).
Proof.
  induction l as [|x l IH]; simpl; intros H; [constructor|].
  apply List.NoDup_cons_iff in H as [Hx Hl].
  destruct (f x); simpl; [|auto].
  constructor; [|auto].
  intros Hin. apply Hx. apply in_map_iff in Hin as (y & <- & Hy).
  apply filter_In in Hy as [Hy _]. apply in_map. exact Hy.
Qed.

Lemma scored_candidates j ex qs :
  map snd (Ranker.scored j ex qs) = List.filter (has_overlap ex) qs.
Proof.
  unfold Ranker.scored, has_overlap.
  induction qs as [|c qs IH]; simpl; [reflexivity|].
  destruct (Ranker.overlap ex c =? 0)%nat; simpl; [|f_equal]; exact IH.
Qed.

Lemma scored_scores j ex qs x :
  In x (Ranker.scored j ex qs) -> x.1 = Ranker.heuristic_score j ex x.2.
Proof.
  unfold Ranker.scored. rewrite in_flat_map. intros (c & _ & Hx).
  destruct (Ranker.overlap ex c =? 0)%nat; [destruct Hx|].
  destruct Hx as [<- | []]. reflexivity.
Qed.

Lemma id_in_spec ids c :
  Ranker.id_in ids c = true <-> In (Ranker.c_id c) ids.
Proof.
  unfold Ranker.id_in. rewrite existsb_exists. split.
  - intros (x & Hx & E). apply Z.eqb_eq in E. subst. exact Hx.
  - intros H. exists (Ranker.c_id c). split; [exact H | apply Z.eqb_refl].
Qed.

Lemma filter_none {A} (f : A -> bool) (l : list A) :
  (forall x, In x l -> f x = false) -> List.filter f l = [].
Proof.
  induction l as [|x l IH]; intros H; simpl; [reflexivity|].
  rewrite (H x (or_introl eq_refl)). apply IH. intros y Hy. apply H. right. exact Hy.
Qed.

Lemma filter_all {A} (f : A -> bool) (l : list A) :
  (forall x, In x l -> f x = true) -> List.filter f l = l.
Proof.
  induction l as [|x l IH]; intros H; simpl; [reflexivity|].
  rewrite (H x (or_introl eq_refl)). f_equal. apply IH. intros y Hy. apply H.
  right. exact Hy.
Qed.

Lemma NoDup_app_disjoint {A} (l l' : list A) :
  List.NoDup (l ++ l') -> forall a, In a l -> In a l' -> False.
Proof.
  induction l as [|x l IH]; intros Hnd a Ha Ha'; [destruct Ha|].
  simpl in Hnd. apply List.NoDup_cons_iff in Hnd as [Hx Hnd].
  destruct Ha as [-> | Ha]; [|eauto].
  apply Hx, in_or_app. right. exact Ha'.
Qed.

(** The rows that are not among [chosen], counted: with distinct
    identifiers and [chosen] and [others] making up the rows, they are
    the [others]. *)
Lemma not_chosen_length (chosen others rows : list Ranker.candidate) :
  Permutation rows (chosen ++ others) ->
  List.NoDup (map Ranker.c_id rows) ->
  length (List.filter
            (fun c => negb (Ranker.id_in (map Ranker.c_id chosen) c)) rows)
  = length others.
Proof.
  intros Hp Hnd.
  rewrite (Permutation_length (filter_perm _ _ _ Hp)), List.filter_app, length_app.
  assert (Hnd' : List.NoDup (map Ranker.c_id (chosen ++ others))).
  { eapply Permutation_NoDup; [apply Permutation_map, Hp | exact Hnd]. }
  rewrite map_app in Hnd'.
  rewrite filter_none, filter_all; [reflexivity| |].
  - intros c Hc. apply negb_true_iff.
    destruct (Ranker.id_in _ c) eqn:E; [exfalso | reflexivity].
    apply id_in_spec in E.
    apply (NoDup_app_disjoint _ _ Hnd' (Ranker.c_id c) E).
    apply in_map. exact Hc.
  - intros c Hc. apply negb_false_iff, id_in_spec, in_map. exact Hc.
Qed.

Lemma candidates_qs_perm j table table' :
  Permutation table table' ->
  Permutation (Ranker.candidates_qs j table) (Ranker.candidates_qs j table').
Proof. apply filter_perm. Qed.

Lemma in_firstn {A} (n : nat) (l : list A) (x : A) :
  In x (firstn n l) -> In x l.
Proof.
  intros H. rewrite <- (firstn_skipn n l). apply in_or_app. left. exact H.
Qed.

(** C6.  At most five candidates are selected.  The candidates ranked by
    the heuristic are the eligible ones with overlap, each with its
    heuristic score, and none of those left out scores above one of the
    first five.  With three or more of them the selection is the first
    five; with fewer it is all of them followed by eligible candidates
    without overlap, up to three in all or until the eligible ones are
    used up.  The table may come back in another order from the second
    query. *)
Theorem selection_spec j ex table table_again :
  List.NoDup (map Ranker.c_id table) ->
  Permutation table table_again ->
  let pool := Ranker.candidates_qs j table in
  let ranked := Ranker.sort_desc fst (Ranker.scored j ex pool) in
  let selected := Ranker.select_candidates j ex table table_again in
  length selected <= 5
  /\ Permutation (map snd ranked) (List.filter (has_overlap ex) pool)
  /\ (forall x, In x ranked -> x.1 = Ranker.heuristic_score j ex x.2)
  /\ (forall a b, In a (firstn 5 ranked) -> In b (skipn 5 ranked) -> b.1 <= a.1)
  /\ (3 <= length ranked -> selected = map snd (firstn 5 ranked))
  /\ (length ranked < 3 ->
      exists extra,
        selected = map snd ranked ++ extra
        /\ (forall c, In c extra -> In c pool /\ Ranker.overlap ex c = 0)
        /\ length selected = Nat.min 3 (length pool)).
Proof.
  intros Hnd Hperm pool ranked selected.
  assert (Hranked : Permutation (map snd ranked) (List.filter (has_overlap ex) pool)).
  { subst ranked. rewrite <- (scored_candidates j).
    apply Permutation_map, sort_desc_perm. }
  assert (Hsel : selected =
            if (length (map snd (firstn 5 ranked)) <? 3)%nat
            then map snd (firstn 5 ranked)
                 ++ firstn (3 - length (map snd (firstn 5 ranked)))
                      (List.filter
                         (fun c => negb (Ranker.id_in
                                           (map Ranker.c_id (map snd (firstn 5 ranked))) c))
                         (Ranker.candidates_qs j table_again))
            else map snd (firstn 5 ranked)) by reflexivity.
  assert (Hlen0 : length (map snd (firstn 5 ranked)) = Nat.min 5 (length ranked)).
  { rewrite length_map. apply length_take. }
  split; [|split; [exact Hranked|split; [|split; [|split]]]].
  - rewrite Hsel. destruct (_ <? 3)%nat eqn:E.
    + apply Nat.ltb_lt in E. rewrite length_app, length_take. lia.
    + lia.
  - intros x Hx. subst ranked.
    apply (Permutation_in _ (sort_desc_perm fst _)) in Hx.
    exact (scored_scores _ _ _ _ Hx).
  - intros a b Ha Hb.
    apply (sorted_front_above fst (firstn 5 ranked) (skipn 5 ranked)); auto.
    rewrite firstn_skipn. apply sort_desc_sorted.
  - intros H3. rewrite Hsel.
    destruct (_ <? 3)%nat eqn:E; [|reflexivity].
    apply Nat.ltb_lt in E. lia.
  - intros H3.
    assert (Hall : firstn 5 ranked = ranked) by (apply firstn_all2; lia).
    rewrite Hall in Hsel, Hlen0.
    assert (E : (length (map snd ranked) <? 3)%nat = true)
      by (apply Nat.ltb_lt; rewrite length_map; exact H3).
    rewrite E in Hsel.
    set (rows := Ranker.candidates_qs j table_again) in *.
    set (chosen := map snd ranked) in *.
    set (rest := List.filter
                   (fun c => negb (Ranker.id_in (map Ranker.c_id chosen) c)) rows) in *.
    assert (Hrows : Permutation rows pool)
      by (symmetry; apply candidates_qs_perm, Hperm).
    exists (firstn (3 - length chosen) rest).
    split; [exact Hsel|]. split.
    + intros c Hc. apply in_firstn in Hc. subst rest.
      apply filter_In in Hc as [Hc Hid].
      split; [apply (Permutation_in _ Hrows), Hc|].
      destruct (Ranker.overlap ex c =? 0)%nat eqn:Eo;
        [apply Nat.eqb_eq, Eo | exfalso].
      apply negb_true_iff in Hid.
      assert (Hin : In c chosen).
      { apply (Permutation_in _ (Permutation_sym Hranked)).
        apply filter_In. split; [apply (Permutation_in _ Hrows), Hc|].
        unfold has_overlap. rewrite Eo. reflexivity. }
      apply (in_map Ranker.c_id) in Hin. apply id_in_spec in Hin. congruence.
    + set (others := List.filter (fun c => negb (has_overlap ex c)) pool).
      assert (Hparts : Permutation pool (chosen ++ others)).
      { rewrite (filter_split (has_overlap ex) pool) at 1.
        apply Permutation_app_tail. symmetry. exact Hranked. }
      assert (Hrest : length rest = length others).
      { subst rest. apply not_chosen_length.
        - rewrite Hrows. exact Hparts.
        - subst rows. apply NoDup_map_filter.
          eapply Permutation_NoDup; [apply Permutation_map, Hperm | exact Hnd]. }
      apply Permutation_length in Hparts. rewrite length_app in Hparts.
      rewrite Hsel, length_app, length_take, Hrest, Hparts.
      subst chosen. rewrite length_map in *. lia.
Qed.

(** The overlap scores are 9, 6, 6 and 3: the four candidates with
    overlap are selected, best first, equal scores in table order. *)
Example demo_selection :
  map Ranker.c_id
    (Ranker.select_candidates demo_job demo_skills demo_table (rev demo_table))
  = [4; 2; 7; 5]%Z.
Proof. vm_compute. reflexivity. Qed.

(** With one candidate with overlap, two more are taken from the
    eligible ones in the order the second query returns them. *)
Example demo_backfill :
  map Ranker.c_id
    (Ranker.select_candidates demo_job [L "aws"]
       (firstn 3 demo_table ++ [demo_candidate 5 [L "AWS"]])
       (rev (firstn 3 demo_table ++ [demo_candidate 5 [L "AWS"]])))
  = [5; 3; 2]%Z.
Proof. vm_compute. reflexivity. Qed.

Lemma selection_spec_witness :
  List.NoDup (map Ranker.c_id demo_table)
  /\ Permutation demo_table (rev demo_table)
  /\ length (Ranker.select_candidates demo_job demo_skills demo_table
               (rev demo_table)) <= 5.
Proof.
  assert (Hnd : List.NoDup (map Ranker.c_id demo_table)).
  { simpl. repeat (constructor; [simpl; intuition lia|]). constructor. }
  assert (Hp : Permutation demo_table (rev demo_table))
    by apply Permutation_rev.
  split; [exact Hnd|]. split; [exact Hp|].
  exact (proj1 (selection_spec demo_job demo_skills demo_table
                  (rev demo_table) Hnd Hp)).
Defined.

(* ================================================================== *)
(** * Stored results and statuses                                       *)
(* ================================================================== *)

(** C9 (counterexample).  When the second task starts, its first save
    leaves the profile with the fields of the first parse and the status
    parsing. *)
Lemma parsing_with_stored_fields :
  exists db c,
    Tasks.candidate_observable db
    /\ db !! 1%Z = Some c
    /\ Tasks.resume_data c = Some some_fields
    /\ Tasks.parsing_status_of c = Tasks.parsing
    /\ ~ profile_consistent c.
Proof.
  set (s := Tasks.candidate_run twice_posted).
  set (op := Tasks.RunParseTask 0 (Ok some_fields)).
  assert (Hc : exists c, hd_error (Tasks.candidate_points op s)
                           ≫= (fun db => db !! 1%Z) = Some c
                         /\ Tasks.resume_data c = Some some_fields
                         /\ Tasks.parsing_status_of c = Tasks.parsing).
  { eexists. split; [vm_compute; reflexivity|]. split; reflexivity. }
  destruct Hc as (c & Hdb & Hdata & Hst).
  destruct (Tasks.candidate_points op s) as [|db dbs] eqn:E;
    [discriminate Hdb|].
  exists db, c. split.
  - exists twice_posted. right. exists op. fold s. rewrite E. left. reflexivity.
  - split; [exact Hdb|]. split; [exact Hdata|]. split; [exact Hst|].
    unfold profile_consistent. rewrite Hdata, Hst. intros [H _].
    discriminate H. discriminate.
Qed.

(** The same on the job side, once the rank action gets its job: the
    retried task starts on the ranked job and saves the status ranking
    next to the stored result. *)
Lemma ranking_with_stored_result :
  exists db j,
    Tasks.job_observable db
    /\ db !! 1%Z = Some j
    /\ Tasks.candidate_ranking_data j = Some some_ranking
    /\ Tasks.ranking_status_of j = Tasks.ranking
    /\ ~ job_consistent j.
Proof.
  set (s := Tasks.job_run retried_and_reposted).
  set (op := Tasks.RunRankTask 0 (Ok some_ranking)).
  assert (Hj : exists j, hd_error (Tasks.job_points op s)
                           ≫= (fun db => db !! 1%Z) = Some j
                         /\ Tasks.candidate_ranking_data j = Some some_ranking
                         /\ Tasks.ranking_status_of j = Tasks.ranking).
  { eexists. split; [vm_compute; reflexivity|]. split; reflexivity. }
  destruct Hj as (j & Hdb & Hdata & Hst).
  destruct (Tasks.job_points op s) as [|db dbs] eqn:E; [discriminate Hdb|].
  exists db, j. split.
  - exists retried_and_reposted. right. exists op. fold s. rewrite E.
    left. reflexivity.
  - split; [exact Hdb|]. split; [exact Hdata|]. split; [exact Hst|].
    unfold job_consistent. rewrite Hdata, Hst. intros [H _].
    discriminate H. discriminate.
Qed.

Section TableInvariant.
Context {R : Type}.
Variable good : R -> Prop.
Local Abbreviation all_good := (all_good good).

Lemma all_good_empty : all_good ∅.
Proof. intros id r H. rewrite lookup_empty in H. discriminate. Qed.

Lemma all_good_insert id r db :
  good r -> all_good db -> all_good (<[id := r]> db).
Proof.
  intros Hr Hdb id' r'. destruct (decide (id = id')) as [->|Hne].
  - rewrite lookup_insert_eq. intros [= <-]. exact Hr.
  - rewrite lookup_insert_ne by exact Hne. apply Hdb.
Qed.

Lemma all_good_alter f id db :
  (forall r, good r -> good (f r)) -> all_good db -> all_good (alter f id db).
Proof.
  intros Hf Hdb id' r'. destruct (decide (id = id')) as [->|Hne].
  - rewrite lookup_alter_eq. destruct (db !! id') as [r|] eqn:E; simpl;
      [|discriminate].
    intros [= <-]. apply Hf, (Hdb id'), E.
  - rewrite lookup_alter_ne by exact Hne. apply Hdb.
Qed.

Lemma all_good_fmap f (db : gmap Z R) :
  (forall r, good r -> good (f r)) -> all_good db -> all_good (f <$> db).
Proof.
  intros Hf Hdb id r. rewrite lookup_fmap.
  destruct (db !! id) as [r0|] eqn:E; simpl; [|discriminate].
  intros [= <-]. apply Hf, (Hdb id), E.
Qed.

Lemma all_good_last (dbs : list (gmap Z R)) db :
  Forall all_good dbs -> all_good db -> all_good (List.last dbs db).
Proof.
  intros Hall Hdb. induction Hall as [|x xs Hx _ IH]; [exact Hdb|].
  destruct xs; [exact Hx | exact IH].
Qed.
End TableInvariant.

(** ** Candidate profiles *)

Lemma parse_task_points retries id outcome db :
  all_good profile_has_result db ->
  Forall (all_good profile_has_result)
    (Tasks.parse_resume_task retries id outcome db).1.
Proof.
  intros Hdb. unfold Tasks.parse_resume_task.
  assert (Hst : forall st, st <> Tasks.parsed ->
                  forall db', all_good profile_has_result db' ->
                    all_good profile_has_result
                      (alter (Tasks.with_parsing_status st) id db')).
  { intros st Hne db' H'. apply all_good_alter; [|exact H'].
    intros c _ E. simpl in E. congruence. }
  destruct (db !! id) as [c|]; [|constructor].
  destruct (negb (Tasks.has_resume_file c)).
  - constructor; [|constructor]. apply Hst; [discriminate | exact Hdb].
  - assert (H1 : all_good profile_has_result
                   (alter (Tasks.with_parsing_status Tasks.parsing) id db))
      by (apply Hst; [discriminate | exact Hdb]).
    destruct outcome as [data|e]; simpl.
    + constructor; [exact H1|]. constructor; [|constructor].
      apply all_good_alter; [|exact H1]. intros r _ _. discriminate.
    + constructor; [exact H1|]. constructor; [|constructor].
      apply Hst; [discriminate | exact H1].
Qed.

Lemma candidate_points_good op s :
  all_good profile_has_result (Tasks.profiles s) ->
  Forall (all_good profile_has_result) (Tasks.candidate_points op s).
Proof.
  intros Hs. destruct op as [id file t|id d|i outcome|now]; simpl.
  - destruct (Tasks.profiles s !! id); constructor; [|constructor].
    apply all_good_insert; [|exact Hs]. intros E. discriminate E.
  - constructor.
  - destruct (Tasks.parse_queue s !! i); [|constructor].
    apply parse_task_points, Hs.
  - constructor; [|constructor]. apply all_good_fmap; [|exact Hs].
    intros c Hc. destruct (_ && _); [|exact Hc]. intros E. discriminate E.
Qed.

Lemma candidate_step_profiles s op :
  Tasks.profiles (Tasks.candidate_step s op)
  = List.last (Tasks.candidate_points op s) (Tasks.profiles s).
Proof.
  destruct op as [id file t|id d|i outcome|now]; try reflexivity.
  - simpl. unfold Tasks.parse_resume_data.
    destruct (Tasks.profiles s !! id) as [c|]; [|reflexivity].
    destruct (negb _); [reflexivity|]. destruct (_ && _); [reflexivity|].
    destruct (Tasks.is_parsing c); [reflexivity|]. destruct d; reflexivity.
  - simpl. destruct (Tasks.parse_queue s !! i); reflexivity.
Qed.

Lemma candidate_run_good ops : forall s,
  all_good profile_has_result (Tasks.profiles s) ->
  all_good profile_has_result (Tasks.profiles (fold_left Tasks.candidate_step ops s)).
Proof.
  induction ops as [|op ops IH]; intros s Hs; [exact Hs|].
  simpl. apply IH. rewrite candidate_step_profiles.
  apply all_good_last; [apply candidate_points_good, Hs | exact Hs].
Qed.

Lemma candidate_observable_good db :
  Tasks.candidate_observable db -> all_good profile_has_result db.
Proof.
  intros (ops & [-> | (op & Hin)]).
  - apply candidate_run_good, all_good_empty.
  - pose proof (candidate_points_good op (Tasks.candidate_run ops)
                  (candidate_run_good ops Tasks.no_candidates (all_good_empty _))) as Hall.
    rewrite List.Forall_forall in Hall. apply Hall, Hin.
Qed.

(** ** Job posts *)

Lemma rank_task_points retries id outcome db :
  all_good job_has_result db ->
  Forall (all_good job_has_result)
    (Tasks.rank_candidates_task retries id outcome db).1.
Proof.
  intros Hdb. unfold Tasks.rank_candidates_task.
  assert (Hst : forall st, st <> Tasks.ranked ->
                  forall db', all_good job_has_result db' ->
                    all_good job_has_result
                      (alter (Tasks.with_ranking_status st) id db')).
  { intros st Hne db' H'. apply all_good_alter; [|exact H'].
    intros c _ E. simpl in E. congruence. }
  destruct (db !! id) as [j|]; [|constructor].
  assert (H1 : all_good job_has_result
                 (alter (Tasks.with_ranking_status Tasks.ranking) id db))
    by (apply Hst; [discriminate | exact Hdb]).
  destruct outcome as [data|e]; simpl.
  - assert (H2 : forall db', all_good job_has_result db' ->
                   all_good job_has_result
                     (alter (fun j => Tasks.with_ranking_status Tasks.ranked
                                        (Tasks.with_ranking_data data j)) id db')).
    { intros db' H'. apply all_good_alter; [|exact H'].
      intros r _ _. discriminate. }
    constructor; [exact H1|]. constructor; [apply H2, H1|].
    constructor; [apply H2, H2, H1 | constructor].
  - constructor; [exact H1|]. constructor; [|constructor].
    apply Hst; [discriminate | exact H1].
Qed.

Lemma rank_view_points found id task s :
  all_good job_has_result (Tasks.posts s) ->
  Forall (all_good job_has_result) (Tasks.rank_candidates found id task s).1.
Proof.
  intros Hs. unfold Tasks.rank_candidates.
  destruct found as [[]|e]; [|constructor].
  destruct (Tasks.posts s !! id) as [j|]; [|constructor].
  destruct (_ && _); [constructor|].
  destruct (Tasks.is_ranking j); [constructor|].
  assert (H1 : all_good job_has_result
                 (alter (Tasks.with_ranking_status Tasks.ranking) id (Tasks.posts s))).
  { apply all_good_alter; [|exact Hs]. intros r _ E. discriminate E. }
  destruct task as [t|]; simpl.
  - constructor; [exact H1|]. constructor; [|constructor].
    apply all_good_alter; [|exact H1]. intros r Hr. exact Hr.
  - constructor; [exact H1 | constructor].
Qed.

Lemma job_points_good op s :
  all_good job_has_result (Tasks.posts s) ->
  Forall (all_good job_has_result) (Tasks.job_points op s).
Proof.
  intros Hs. destruct op as [id t|found id task|i outcome|now]; simpl.
  - destruct (Tasks.posts s !! id); constructor; [|constructor].
    apply all_good_insert; [|exact Hs]. intros E. discriminate E.
  - apply rank_view_points, Hs.
  - destruct (Tasks.rank_queue s !! i); [|constructor].
    apply rank_task_points, Hs.
  - constructor; [|constructor]. apply all_good_fmap; [|exact Hs].
    intros j Hj. destruct (_ && _); [|exact Hj]. intros E. discriminate E.
Qed.

Lemma job_step_posts s op :
  Tasks.posts (Tasks.job_step s op)
  = List.last (Tasks.job_points op s) (Tasks.posts s).
Proof.
  destruct op as [id t|found id task|i outcome|now]; try reflexivity.
  simpl. destruct (Tasks.rank_queue s !! i); reflexivity.
Qed.

Lemma job_run_good ops : forall s,
  all_good job_has_result (Tasks.posts s) ->
  all_good job_has_result (Tasks.posts (fold_left Tasks.job_step ops s)).
Proof.
  induction ops as [|op ops IH]; intros s Hs; [exact Hs|].
  simpl. apply IH. rewrite job_step_posts.
  apply all_good_last; [apply job_points_good, Hs | exact Hs].
Qed.

Lemma job_observable_good db :
  Tasks.job_observable db -> all_good job_has_result db.
Proof.
  intros (ops & [-> | (op & Hin)]).
  - apply job_run_good, all_good_empty.
  - pose proof (job_points_good op (Tasks.job_run ops)
                  (job_run_good ops Tasks.no_jobs (all_good_empty _))) as Hall.
    rewrite List.Forall_forall in Hall. apply Hall, Hin.
Qed.

(** C9 (amended).  At every observable point, a profile whose status is
    parsed has its extracted fields, and a job whose status is ranked has
    its ranking result. *)
Theorem done_status_has_result cdb jdb :
  Tasks.candidate_observable cdb ->
  Tasks.job_observable jdb ->
  (forall id c, cdb !! id = Some c ->
     Tasks.parsing_status_of c = Tasks.parsed -> Tasks.resume_data c <> None)
  /\ (forall id j, jdb !! id = Some j ->
        Tasks.ranking_status_of j = Tasks.ranked ->
        Tasks.candidate_ranking_data j <> None).
Proof.
  intros Hc Hj. split.
  - exact (candidate_observable_good cdb Hc).
  - exact (job_observable_good jdb Hj).
Qed.

Lemma done_status_has_result_witness :
  Tasks.candidate_observable (Tasks.profiles (Tasks.candidate_run twice_posted))
  /\ Tasks.job_observable (Tasks.posts (Tasks.job_run retried_and_reposted))
  /\ (forall id c,
        Tasks.profiles (Tasks.candidate_run twice_posted) !! id = Some c ->
        Tasks.parsing_status_of c = Tasks.parsed -> Tasks.resume_data c <> None).
Proof.
  assert (Hc : Tasks.candidate_observable
                 (Tasks.profiles (Tasks.candidate_run twice_posted)))
    by (exists twice_posted; left; reflexivity).
  assert (Hj : Tasks.job_observable
                 (Tasks.posts (Tasks.job_run retried_and_reposted)))
    by (exists retried_and_reposted; left; reflexivity).
  split; [exact Hc|]. split; [exact Hj|].
  exact (proj1 (done_status_has_result _ _ Hc Hj)).
Defined.

(* ================================================================== *)
(** * The shape of the extracted skills                                 *)
(* ================================================================== *)

Lemma py_eqb_eq a : forall b, Py.eqb a b = true <-> a = b.
Proof.
  induction a as [|x a IH]; intros [|y b]; simpl; split; try congruence;
    try discriminate.
  - rewrite andb_true_iff, ascii_eqb_true, IH. intros [-> ->]. reflexivity.
  - intros [= -> ->]. rewrite andb_true_iff, ascii_eqb_true, IH. auto.
Qed.

Lemma code_inj x y : Py.code x = Py.code y -> x = y.
Proof.
  unfold Py.code. intros H.
  rewrite <- (ascii_N_embedding x), <- (ascii_N_embedding y), H. reflexivity.
Qed.

Lemma ltb_irrefl a : Py.ltb a a = false.
Proof.
  induction a as [|x a IH]; simpl; [reflexivity|].
  rewrite N.ltb_irrefl. exact IH.
Qed.

Lemma ltb_trans a : forall b c,
  Py.ltb a b = true -> Py.ltb b c = true -> Py.ltb a c = true.
Proof.
  induction a as [|x a IH]; intros [|y b] [|z c]; simpl; try congruence.
  destruct (N.ltb_spec (Py.code x) (Py.code y)) as [Hxy|Hxy];
    destruct (N.ltb_spec (Py.code y) (Py.code z)) as [Hyz|Hyz];
    destruct (N.ltb_spec (Py.code x) (Py.code z)) as [Hxz|Hxz];
    try reflexivity; try lia.
  - destruct (N.ltb_spec (Py.code z) (Py.code y)); [discriminate | lia].
  - destruct (N.ltb_spec (Py.code y) (Py.code x)); [discriminate | lia].
  - destruct (N.ltb_spec (Py.code y) (Py.code x)) as [|Hyx]; [discriminate|].
    destruct (N.ltb_spec (Py.code z) (Py.code y)) as [|Hzy]; [discriminate|].
    destruct (N.ltb_spec (Py.code z) (Py.code x)) as [|Hzx]; [lia|].
    apply IH.
Qed.

Lemma ltb_total a : forall b,
  Py.ltb a b = false -> Py.eqb a b = false -> Py.ltb b a = true.
Proof.
  induction a as [|x a IH]; intros [|y b]; simpl; try congruence.
  destruct (N.ltb_spec (Py.code x) (Py.code y)) as [Hxy|Hxy]; [discriminate|].
  destruct (N.ltb_spec (Py.code y) (Py.code x)) as [Hyx|Hyx]; [reflexivity|].
  assert (x = y) as -> by (apply code_inj; lia).
  rewrite (proj2 (ascii_eqb_true y y) eq_refl). simpl. apply IH.
Qed.

Lemma insert_sorted_in x xs y :
  In y (Py.insert_sorted x xs) -> y = x \/ In y xs.
Proof.
  induction xs as [|z zs IH]; simpl.
  - intros [<- | []]. auto.
  - destruct (Py.ltb x z); [simpl; intuition|].
    destruct (Py.eqb x z); [auto|].
    simpl. intros [<- | H]; [auto|]. destruct (IH H); auto.
Qed.

Lemma insert_sorted_sorted x : forall xs,
  StronglySorted below xs -> StronglySorted below (Py.insert_sorted x xs).
Proof.
  induction xs as [|z zs IH]; intros Hs; simpl.
  - constructor; constructor.
  - apply StronglySorted_inv in Hs as [Hzs Hz].
    destruct (Py.ltb x z) eqn:Elt.
    + constructor; [constructor; assumption|].
      constructor; [exact Elt|].
      apply List.Forall_forall. intros w Hw.
      rewrite List.Forall_forall in Hz.
      exact (ltb_trans _ _ _ Elt (Hz w Hw)).
    + destruct (Py.eqb x z) eqn:Eeq; [constructor; assumption|].
      constructor; [apply IH, Hzs|].
      apply List.Forall_forall. intros w Hw.
      apply insert_sorted_in in Hw as [-> | Hw].
      * exact (ltb_total _ _ Elt Eeq).
      * rewrite List.Forall_forall in Hz. auto.
Qed.

Lemma sorted_set_sorted xs : StronglySorted below (Py.sorted_set xs).
Proof.
  induction xs as [|x xs IH]; simpl; [constructor|].
  apply insert_sorted_sorted, IH.
Qed.

Lemma sorted_set_in xs y : In y (Py.sorted_set xs) -> In y xs.
Proof.
  induction xs as [|x xs IH]; simpl; [auto|].
  intros H. apply insert_sorted_in in H as [-> | H]; auto.
Qed.

Lemma sorted_below_nodup xs : StronglySorted below xs -> List.NoDup xs.
Proof.
  induction 1 as [|x xs _ IH Hx]; constructor; [|exact IH].
  intros Hin. rewrite List.Forall_forall in Hx. specialize (Hx x Hin).
  unfold below in Hx. rewrite ltb_irrefl in Hx. discriminate.
Qed.

Lemma skill_facts s :
  In s ResumeParser.SKILL_LIST ->
  Re.compile (L "\b" ++ s ++ L "\b") <> None /\ Py.lower s = s.
Proof.
  intros Hin. simpl in Hin.
  repeat (destruct Hin as [<- | Hin];
          [split; [vm_compute; discriminate | reflexivity]|]).
  contradiction.
Qed.

Lemma found_skills_returns tl : forall skills,
  (forall s, In s skills -> Re.compile (L "\b" ++ s ++ L "\b") <> None) ->
  exists found, ResumeParser.found_skills skills tl = Ok found
                /\ (forall s, In s found -> In s skills).
Proof.
  induction skills as [|s skills IH]; intros Hc.
  - exists []. split; [reflexivity | auto].
  - destruct IH as (found & Hf & Hin).
    { intros x Hx. apply Hc. right. exact Hx. }
    cbn [ResumeParser.found_skills]. unfold Re.search.
    destruct (Re.compile (L "\b" ++ s ++ L "\b")) as [p|] eqn:Ep.
    + simpl. rewrite Hf. simpl.
      destruct (Re.search_from false p None tl 0) as [[i f]|]; eexists;
        (split; [reflexivity|]); simpl; intuition.
    + exfalso. apply (Hc s); [left; reflexivity | exact Ep].
Qed.

(** X4.  The part of the claim about skills that holds for every text (on
    Python 3.11 or later): [extract_skills] returns, and what it returns
    is made of vocabulary entries, in lower case, strictly increasing and
    so without duplicates. *)
Theorem extract_skills_shape text :
  exists skills,
    ResumeParser.extract_skills text = Ok skills
    /\ (forall s, In s skills ->
          In s ResumeParser.SKILL_LIST /\ Py.lower s = s)
    /\ StronglySorted below skills
    /\ List.NoDup skills.
Proof.
  destruct (found_skills_returns (Py.lower text) ResumeParser.SKILL_LIST)
    as (found & Hf & Hin).
  { intros s Hs. apply (skill_facts s Hs). }
  exists (Py.sorted_set found). unfold ResumeParser.extract_skills.
  rewrite Hf. split; [reflexivity|]. split; [|split].
  - intros s Hs. apply sorted_set_in, Hin in Hs.
    split; [exact Hs | apply (skill_facts s Hs)].
  - apply sorted_set_sorted.
  - apply sorted_below_nodup, sorted_set_sorted.
Qed.

(* ================================================================== *)
(** * The normal form of a statement                                    *)
(* ================================================================== *)

Lemma span_len_le s : span_len s <= length s.
Proof.
  induction s as [|c s IH]; simpl; [lia|]. destruct (Py.is_space c); simpl; lia.
Qed.

Lemma span_len_snoc c : Py.is_space c = false ->
  forall s, span_len (s ++ [c]) = span_len s.
Proof.
  intros Hc. induction s as [|a s IH]; simpl; [rewrite Hc; reflexivity|].
  destruct (Py.is_space a); [rewrite IH|]; reflexivity.
Qed.

(** The pattern for a run of whitespace matches the whole run. *)
Lemma many_spaces ic : forall s pos,
  Re.many ic Re.ASpace (Re.match_here ic [] None None) s pos
  = if (span_len s =? 0)%nat then None
    else Some {| Re.m_len := pos + span_len s; Re.m_group := None |}.
Proof.
  induction s as [|c s IH]; intros pos; [reflexivity|].
  cbn [Re.many span_len]. change (Re.atom_ok ic Re.ASpace c) with (Py.is_space c).
  destruct (Py.is_space c); [|reflexivity].
  rewrite IH. cbn [Nat.eqb].
  destruct (span_len s) as [|n]; cbn [Nat.eqb Re.match_here];
    do 2 f_equal; lia.
Qed.

Lemma match_at_spaces ic prev s :
  Re.match_at ic [Re.NAtom Re.ASpace Re.QPlus] prev s
  = if (span_len s =? 0)%nat then None
    else Some {| Re.m_len := span_len s; Re.m_group := None |}.
Proof. unfold Re.match_at. cbn [Re.match_here]. apply many_spaces. Qed.

Lemma single_spaced_weaken s :
  single_spaced true s = true -> single_spaced false s = true.
Proof.
  destruct s as [|c s]; [reflexivity|]. simpl.
  destruct (Py.is_space c); [|auto].
  rewrite andb_false_r. discriminate.
Qed.

Lemma sub_spaces_single ic : forall s prev,
  single_spaced true
    (Re.sub_from ic [Re.NAtom Re.ASpace Re.QPlus] (L " ") prev s (span_len s))
  = true
  /\ single_spaced false
       (Re.sub_from ic [Re.NAtom Re.ASpace Re.QPlus] (L " ") prev s 0)
     = true.
Proof.
  induction s as [|c s IH]; intros prev; [split; reflexivity|].
  destruct (IH (Some c)) as [IHp IHq].
  assert (Hns : Py.is_space c = false ->
            Re.sub_from ic [Re.NAtom Re.ASpace Re.QPlus] (L " ") prev (c :: s) 0
            = c :: Re.sub_from ic [Re.NAtom Re.ASpace Re.QPlus] (L " ") (Some c) s 0).
  { intros E. rewrite sub_from_cons0, match_at_spaces. cbn [span_len].
    rewrite E. reflexivity. }
  cbn [span_len]. destruct (Py.is_space c) eqn:E.
  - split.
    + rewrite sub_from_consS. exact IHp.
    + rewrite sub_from_cons0, match_at_spaces. cbn [span_len]. rewrite E.
      cbn [Nat.eqb]. change (L " " ++ ?x) with (" "%char :: x).
      cbn [single_spaced]. change (Py.is_space " ") with true. cbn.
      exact IHp.
  - rewrite (Hns eq_refl). cbn [single_spaced]. rewrite E. auto.
Qed.

Lemma sub_spaces_snoc ic c : Py.is_space c = false ->
  forall s prev skip,
    skip <= length s ->
    Re.sub_from ic [Re.NAtom Re.ASpace Re.QPlus] (L " ") prev (s ++ [c]) skip
    = Re.sub_from ic [Re.NAtom Re.ASpace Re.QPlus] (L " ") prev s skip ++ [c].
Proof.
  intros Hc. induction s as [|a s IH]; intros prev skip Hs.
  - simpl in Hs. assert (skip = 0) as -> by lia.
    change ([] ++ [c]) with [c].
    rewrite sub_from_cons0, match_at_spaces. cbn [span_len]. rewrite Hc.
    reflexivity.
  - change ((a :: s) ++ [c]) with (a :: s ++ [c]). simpl in Hs.
    destruct skip as [|k].
    + rewrite !sub_from_cons0, !match_at_spaces.
      change (a :: s ++ [c]) with ((a :: s) ++ [c]).
      rewrite (span_len_snoc c Hc). cbn [span_len].
      pose proof (span_len_le s) as Hle.
      destruct (Py.is_space a); cbn [Nat.eqb].
      * rewrite IH by lia. rewrite app_assoc. reflexivity.
      * rewrite IH by lia. reflexivity.
    + rewrite !sub_from_consS. apply IH. lia.
Qed.

Lemma ends_clean_snoc s c : ends_clean (s ++ [c]) = negb (Py.is_space c).
Proof. unfold ends_clean. rewrite last_snoc. reflexivity. Qed.

(** A stripped string is empty, or starts and ends with characters that
    are not whitespace. *)
Lemma strip_shape s :
  Py.strip s = []
  \/ (exists c t, Py.strip s = c :: t /\ Py.is_space c = false)
     /\ (exists t c, Py.strip s = t ++ [c] /\ Py.is_space c = false).
Proof.
  unfold Py.strip.
  pose proof (lstrip_fixed _ (lstrip_idem s)) as Hf.
  destruct (Py.lstrip s) as [|c u] eqn:El; [left; reflexivity|]. right.
  split.
  - rewrite rstrip_cons by exact Hf. eauto.
  - unfold Py.rstrip.
    pose proof (lstrip_fixed _ (lstrip_idem (rev (c :: u)))) as Hr.
    destruct (Py.lstrip (rev (c :: u))) as [|x v] eqn:Er.
    + exfalso. assert (H : Py.rstrip (c :: u) = []) by (unfold Py.rstrip; rewrite Er; reflexivity).
      rewrite rstrip_cons in H by exact Hf. discriminate.
    + exists (rev v), x. simpl. auto.
Qed.

Lemma normalize_sql_eq sql :
  Agent._normalize_sql sql
  = Ok (Re.sub_from false [Re.NAtom Re.ASpace Re.QPlus] (L " ") None
          (Py.strip sql) 0).
Proof. unfold Agent._normalize_sql, Re.sub. rewrite compile_spaces. reflexivity. Qed.

Lemma sub_spaces_tidy ic s :
  tidy (Re.sub_from ic [Re.NAtom Re.ASpace Re.QPlus] (L " ") None (Py.strip s) 0).
Proof.
  destruct (strip_shape s) as [-> | [(c & t & Hc & Ec) (u & d & Hd & Ed)]].
  - split; reflexivity.
  - split.
    + rewrite Hc, sub_from_cons0, match_at_spaces. cbn [span_len]. rewrite Ec.
      cbn [Nat.eqb single_spaced]. rewrite Ec.
      apply (sub_spaces_single ic t (Some c)).
    + rewrite Hd, (sub_spaces_snoc ic d Ed) by lia.
      rewrite ends_clean_snoc, Ed. reflexivity.
Qed.

(** A string that is single-spaced already is left as it is. *)
Lemma sub_spaces_fixed ic : forall t prev,
  single_spaced false t = true ->
  Re.sub_from ic [Re.NAtom Re.ASpace Re.QPlus] (L " ") prev t 0 = t.
Proof.
  induction t as [|c t IH]; intros prev Ht; [reflexivity|].
  rewrite sub_from_cons0, match_at_spaces. cbn [span_len].
  cbn [single_spaced] in Ht. destruct (Py.is_space c) eqn:Ec.
  - apply andb_prop in Ht as [Ht1 Ht]. apply andb_prop in Ht1 as [Heq _].
    apply Ascii.eqb_eq in Heq. subst c.
    assert (Hsp : span_len t = 0).
    { destruct t as [|d t]; [reflexivity|]. cbn [single_spaced] in Ht.
      cbn [span_len]. destruct (Py.is_space d); [|reflexivity].
      rewrite andb_false_r in Ht. discriminate. }
    rewrite Hsp. cbn [Nat.eqb]. change (L " " ++ ?x) with (" "%char :: x).
    f_equal. apply IH. apply single_spaced_weaken. exact Ht.
  - cbn [Nat.eqb]. f_equal. apply IH. exact Ht.
Qed.

Lemma tidy_strip t : tidy t -> Py.strip t = t.
Proof.
  intros [Hs He]. unfold Py.strip.
  assert (Hl : Py.lstrip t = t).
  { destruct t as [|c t]; [reflexivity|]. cbn [single_spaced] in Hs.
    simpl. destruct (Py.is_space c); [|reflexivity].
    rewrite andb_false_r in Hs. discriminate. }
  rewrite Hl. unfold Py.rstrip.
  destruct (rev t) as [|c u] eqn:Er.
  - apply (f_equal (@rev _)) in Er. rewrite rev_involutive in Er. subst t.
    reflexivity.
  - apply (f_equal (@rev _)) in Er. rewrite rev_involutive in Er. simpl in Er.
    subst t. rewrite ends_clean_snoc in He. apply negb_true_iff in He.
    simpl. rewrite He. simpl. reflexivity.
Qed.

(** X5.  [_normalize_sql] always returns, and what it returns has no
    whitespace at either end and single spaces between words; it leaves
    such a string as it is, so normalising twice is normalising once. *)
Theorem normalize_sql_tidy sql :
  exists out,
    Agent._normalize_sql sql = Ok out
    /\ tidy out
    /\ Agent._normalize_sql out = Ok out.
Proof.
  eexists. split; [apply normalize_sql_eq|].
  pose proof (sub_spaces_tidy false sql) as Ht. split; [exact Ht|].
  rewrite normalize_sql_eq, (tidy_strip _ Ht). f_equal.
  apply sub_spaces_fixed, single_spaced_weaken, Ht.
Qed.

(* ================================================================== *)
(** * What an accepted statement has passed                             *)
(* ================================================================== *)

Lemma lstrip_char_keeps ch c pre post :
  c <> ch ->
  exists x, Py.lstrip_char ch (pre ++ c :: post) = x ++ c :: post.
Proof.
  intros Hc. induction pre as [|a pre IH]; simpl.
  - destruct (Ascii.eqb c ch) eqn:E.
    + apply Ascii.eqb_eq in E. contradiction.
    + exists []. reflexivity.
  - destruct (Ascii.eqb a ch); [exact IH|]. exists (a :: pre). reflexivity.
Qed.

Lemma rstrip_char_keeps ch c pre post :
  c <> ch ->
  exists y, Py.rstrip_char ch (pre ++ c :: post) = pre ++ c :: y.
Proof.
  intros Hc. unfold Py.rstrip_char.
  rewrite rev_app_distr. simpl. rewrite <- app_assoc. simpl.
  destruct (lstrip_char_keeps ch c (rev post) (rev pre) Hc) as [x ->].
  rewrite rev_app_distr. simpl. rewrite rev_involutive, <- app_assoc.
  exists (rev x). reflexivity.
Qed.

(** X6.  A semicolon followed, anywhere after it, by a character that is
    neither whitespace nor a semicolon makes the guardrail reject the
    statement: only trailing semicolons and whitespace are let through,
    whatever stands before the semicolon. *)
Theorem text_after_semicolon_rejected engine pre post c :
  In c post -> Py.is_space c = false -> c <> ";"%char ->
  exists msg,
    Agent.validate_and_sanitize_sql engine (pre ++ L ";" ++ post)
    = Raise (ValueError msg).
Proof.
  intros Hin Hsp Hc. unfold Agent.validate_and_sanitize_sql.
  destruct (negb _); [eauto|].
  apply in_split in Hin as (p1 & p2 & ->).
  assert (Hsemi : Py.contains (L ";")
                    (Py.rstrip_char ";" (Py.strip (pre ++ L ";" ++ p1 ++ c :: p2)))
                  = true).
  { unfold Py.strip.
    destruct (lstrip_keeps pre (L ";") (p1 ++ c :: p2)) as [x ->].
    { discriminate. }
    { repeat constructor. }
    replace (x ++ L ";" ++ p1 ++ c :: p2)
      with ((x ++ L ";" ++ p1) ++ [c] ++ p2)
      by (rewrite <- !app_assoc; reflexivity).
    destruct (rstrip_keeps (x ++ L ";" ++ p1) [c] p2) as [y ->].
    { discriminate. }
    { repeat constructor. exact Hsp. }
    destruct (rstrip_char_keeps ";" c (x ++ L ";" ++ p1) y Hc) as [z Hz].
    change ([c] ++ y) with (c :: y). rewrite Hz.
    apply contains_spec. exists x, (p1 ++ c :: z).
    rewrite <- !app_assoc. reflexivity. }
  rewrite Hsemi. eauto.
Qed.

Lemma text_after_semicolon_rejected_witness :
  exists msg,
    Agent.validate_and_sanitize_sql Agent.ENGINE
      (L "select slug from candidates_candidateprofile" ++ L ";"
       ++ L " select email from users_user")
    = Raise (ValueError msg).
Proof.
  apply (text_after_semicolon_rejected Agent.ENGINE
           (L "select slug from candidates_candidateprofile")
           (L " select email from users_user") "s"%char).
  - vm_compute. tauto.
  - reflexivity.
  - discriminate.
Defined.

Lemma mem_in x xs : Py.mem x xs = true <-> In x xs.
Proof.
  unfold Py.mem. rewrite existsb_exists. split.
  - intros (y & Hy & E). apply py_eqb_eq in E. subst. exact Hy.
  - intros H. exists x. split; [exact H | apply py_eqb_eq; reflexivity].
Qed.

Lemma check_allowed_ok prefix allowed : forall xs,
  Agent.check_allowed prefix allowed xs = Ok tt ->
  forall x, In x xs -> In x allowed.
Proof.
  induction xs as [|y xs IH]; simpl; intros H x Hx; [destruct Hx|].
  destruct (Py.mem y allowed) eqn:E; [|discriminate].
  destruct Hx as [<- | Hx]; [apply mem_in, E | exact (IH H x Hx)].
Qed.

(** X7.  What a statement has passed when the guardrail returns it: it
    starts with SELECT in some mixture of cases; every table name the
    scan reads after FROM and JOIN is the candidate table and every
    name it reads in the select list is an allowed column; and the
    statement returned is in normal form. *)
Theorem accepted_sql_passed_checks engine sql out :
  Agent.validate_and_sanitize_sql engine sql = Ok out ->
  Py.startswith (L "select") (Py.lower sql) = true
  /\ (exists tables,
        Agent._extract_referenced_tables sql = Ok tables
        /\ forall t, In t tables -> t = L "candidates_candidateprofile")
  /\ (exists cols,
        Agent._extract_selected_columns sql = Ok cols
        /\ forall c, In c cols -> In c Agent.ALLOWED_COLUMNS)
  /\ tidy out.
Proof.
  unfold Agent.validate_and_sanitize_sql.
  destruct (Py.startswith _ _); [|discriminate]. cbn [negb].
  destruct (Py.contains (L ";") _); [discriminate|].
  intros H.
  apply bind_ok in H as (_ & _ & H).
  apply bind_ok in H as (tables & Ht & H).
  apply bind_ok in H as ([] & Hta & H).
  apply bind_ok in H as (cols & Hc & H).
  apply bind_ok in H as ([] & Hca & H).
  apply bind_ok in H as (sql1 & _ & H).
  apply bind_ok in H as (sql2 & _ & H).
  split; [reflexivity|]. split; [|split].
  - exists tables. split; [exact Ht|]. intros t Hin.
    pose proof (check_allowed_ok _ _ _ Hta t Hin) as Hall.
    destruct Hall as [<- | []]. reflexivity.
  - exists cols. split; [exact Hc|]. exact (check_allowed_ok _ _ _ Hca).
  - rewrite normalize_sql_eq in H. injection H as <-. apply sub_spaces_tidy.
Qed.

Lemma accepted_sql_passed_checks_witness :
  Py.startswith (L "select")
    (Py.lower (L "Select slug, resume_data  from candidates_candidateprofile "))
  = true
  /\ (exists tables,
        Agent._extract_referenced_tables
          (L "Select slug, resume_data  from candidates_candidateprofile ")
        = Ok tables
        /\ forall t, In t tables -> t = L "candidates_candidateprofile")
  /\ (exists cols,
        Agent._extract_selected_columns
          (L "Select slug, resume_data  from candidates_candidateprofile ")
        = Ok cols
        /\ forall c, In c cols -> In c Agent.ALLOWED_COLUMNS)
  /\ tidy (L "Select slug, resume_data from candidates_candidateprofile LIMIT 10 WHERE is_available = TRUE").
Proof.
  apply (accepted_sql_passed_checks Agent.ENGINE
           (L "Select slug, resume_data  from candidates_candidateprofile ")).
  vm_compute. reflexivity.
Defined.

(* ================================================================== *)
(** * Where the added clauses end up                                    *)
(* ================================================================== *)

Lemma span_len_app x t :
  match t with c :: _ => Py.is_space c = false | [] => True end ->
  span_len (x ++ t) = span_len x.
Proof.
  intros Ht. induction x as [|a x IH]; simpl.
  - destruct t as [|c t]; [reflexivity|]. simpl. rewrite Ht. reflexivity.
  - destruct (Py.is_space a); [rewrite IH|]; reflexivity.
Qed.

Lemma single_spaced_head t :
  single_spaced true t = true ->
  match t with c :: _ => Py.is_space c = false | [] => True end.
Proof.
  destruct t as [|c t]; [trivial|]. simpl.
  destruct (Py.is_space c); [|reflexivity].
  rewrite andb_false_r. discriminate.
Qed.

(** Collapsing whitespace leaves a single-spaced end of the text as it
    is. *)
Lemma sub_spaces_suffix ic t :
  single_spaced true t = true ->
  forall x prev skip,
    skip <= span_len x ->
    exists h,
      Re.sub_from ic [Re.NAtom Re.ASpace Re.QPlus] (L " ") prev (x ++ t) skip
      = h ++ t.
Proof.
  intros Ht. pose proof (single_spaced_head t Ht) as Hh.
  induction x as [|a x IH]; intros prev skip Hs.
  - simpl in Hs. assert (skip = 0) as -> by lia. exists []. simpl.
    apply sub_spaces_fixed, single_spaced_weaken, Ht.
  - change ((a :: x) ++ t) with (a :: x ++ t). cbn [span_len] in Hs.
    destruct skip as [|k].
    + rewrite sub_from_cons0, match_at_spaces.
      change (a :: x ++ t) with ((a :: x) ++ t).
      rewrite (span_len_app (a :: x) t Hh). cbn [span_len].
      destruct (Py.is_space a); cbn [Nat.eqb].
      * destruct (IH (Some a) (span_len x)) as [h ->]; [lia|].
        exists (L " " ++ h). rewrite <- app_assoc. reflexivity.
      * destruct (IH (Some a) 0) as [h ->]; [lia|].
        exists (a :: h). reflexivity.
    + rewrite sub_from_consS.
      destruct (Py.is_space a); [|lia].
      apply IH. lia.
Qed.

Lemma rstrip_snoc s c :
  Py.is_space c = false -> Py.rstrip (s ++ [c]) = s ++ [c].
Proof.
  intros Hc. unfold Py.rstrip. rewrite rev_app_distr. simpl. rewrite Hc.
  simpl. rewrite rev_involutive. reflexivity.
Qed.

(** An occurrence of [sub] in [a ++ b] lies in [a], lies in [b], or
    starts in [a] and ends in [b]. *)
Lemma contains_app_cases sub a b :
  Py.contains sub (a ++ b) = true ->
  Py.contains sub a = true
  \/ Py.contains sub b = true
  \/ exists k, 0 < k < length sub /\ Py.startswith (skipn k sub) b = true.
Proof.
  induction a as [|c a IH]; [auto|].
  change ((c :: a) ++ b) with (c :: a ++ b). cbn [Py.contains].
  rewrite !orb_true_iff. intros [H | H].
  - apply startswith_spec in H as [t Ht].
    change (c :: a ++ b) with ((c :: a) ++ b) in Ht.
    symmetry in Ht. apply app_eq_app in Ht as [l [[Hsub Hb] | [Ha Ht]]].
    + destruct l as [|d l].
      * left. left. apply startswith_spec. exists [].
        rewrite Hsub, !app_nil_r. reflexivity.
      * right. right. exists (length (c :: a)). rewrite Hsub, length_app.
        split; [simpl; lia|].
        rewrite skipn_app, skipn_all, Nat.sub_diag. simpl skipn.
        apply startswith_spec. exists t. exact Hb.
    + left. left. apply startswith_spec. exists l. exact Ha.
  - destruct (IH H) as [Ha | [Hb | Hk]]; auto.
Qed.

Lemma no_column_across_limit sql :
  Py.contains (L "is_available") (Py.lower sql) = false ->
  Py.contains (L "is_available") (Py.lower (sql ++ L " LIMIT 10")) = false.
Proof.
  intros Hs. destruct (Py.contains _ (Py.lower (sql ++ _))) eqn:E; [|reflexivity].
  unfold Py.lower in E. rewrite map_app in E.
  apply contains_app_cases in E as [E | [E | (k & Hk & E)]].
  - unfold Py.lower in Hs. congruence.
  - vm_compute in E. discriminate.
  - exfalso. change (length (L "is_available")) with 12 in Hk.
    do 12 (destruct k as [|k]; [first [lia | vm_compute in E; discriminate]|]).
    lia.
Qed.

(** X8.  On a database that is not SQLite, a statement that names
    neither a limit nor the availability column comes back with both
    added, the availability clause after the LIMIT clause: the
    statement handed to the database ends with the condition, not with
    the limit. *)
Theorem added_filter_follows_limit engine sql out :
  Agent.is_sqlite engine = false ->
  Py.contains (L "limit") (Py.lower sql) = false ->
  Py.contains (L "is_available") (Py.lower sql) = false ->
  Agent.validate_and_sanitize_sql engine sql = Ok out ->
  exists head,
    out = head ++ L "LIMIT 10 WHERE is_available = TRUE"
    \/ out = head ++ L "LIMIT 10 AND is_available = TRUE".
Proof.
  intros Heng Hlim Hav. unfold Agent.validate_and_sanitize_sql.
  destruct (negb _); [discriminate|].
  destruct (Py.contains (L ";") _); [discriminate|].
  intros H.
  apply bind_ok in H as (_ & _ & H).
  apply bind_ok in H as (tables & _ & H).
  apply bind_ok in H as (_ & _ & H).
  apply bind_ok in H as (cols & _ & H).
  apply bind_ok in H as (_ & _ & H).
  apply bind_ok in H as (sql1 & Hsql1 & H).
  apply bind_ok in H as (sql2 & Hsql2 & H).
  assert (Elim : Agent._enforce_limit sql = Ok (sql ++ L " LIMIT 10"))
    by (unfold Agent._enforce_limit; rewrite Hlim; reflexivity).
  rewrite Elim in Hsql1. injection Hsql1 as <-.
  unfold Agent.sqlite_fixes in Hsql2. rewrite Heng in Hsql2. injection Hsql2 as <-.
  unfold Agent.force_available in H.
  rewrite (no_column_across_limit sql Hav) in H.
  change (negb false) with true in H. cbv iota in H.
  rewrite normalize_sql_eq in H. injection H as <-.
  assert (Hshape : forall clause t,
            L " LIMIT 10" ++ clause = L " " ++ t ++ [ "E"%char ] ->
            single_spaced true (t ++ [ "E"%char ]) = true ->
            match t with c :: _ => Py.is_space c = false | [] => False end ->
            exists head,
              Re.sub_from false [Re.NAtom Re.ASpace Re.QPlus] (L " ") None
                (Py.strip ((sql ++ L " LIMIT 10") ++ clause)) 0
              = head ++ t ++ [ "E"%char ]).
  { intros clause t Hc Ht Hhead.
    rewrite <- app_assoc, Hc. unfold Py.strip.
    destruct t as [|c t]; [destruct Hhead|].
    destruct (lstrip_keeps (sql ++ L " ") [c] (t ++ ["E"%char])) as [x Hx].
    { discriminate. }
    { repeat constructor. exact Hhead. }
    rewrite <- app_assoc in Hx.
    change ([c] ++ t ++ ["E"%char]) with ((c :: t) ++ ["E"%char]) in Hx.
    rewrite Hx, app_assoc, rstrip_snoc by reflexivity.
    rewrite <- app_assoc.
    apply (sub_spaces_suffix false _ Ht x None 0). lia. }
  destruct (Py.contains (L "where") _).
  - destruct (Hshape (L " AND is_available = TRUE")
                (L "LIMIT 10 AND is_available = TRU")) as [head Hh];
      [reflexivity | reflexivity | reflexivity |].
    exists head. right. exact Hh.
  - destruct (Hshape (L " WHERE is_available = TRUE")
                (L "LIMIT 10 WHERE is_available = TRU")) as [head Hh];
      [reflexivity | reflexivity | reflexivity |].
    exists head. left. exact Hh.
Qed.

Lemma added_filter_follows_limit_witness :
  exists head,
    L "Select slug, resume_data from candidates_candidateprofile LIMIT 10 WHERE is_available = TRUE"
    = head ++ L "LIMIT 10 WHERE is_available = TRUE"
    \/ L "Select slug, resume_data from candidates_candidateprofile LIMIT 10 WHERE is_available = TRUE"
       = head ++ L "LIMIT 10 AND is_available = TRUE".
Proof.
  apply (added_filter_follows_limit Agent.ENGINE
           (L "Select slug, resume_data  from candidates_candidateprofile "));
    vm_compute; reflexivity.
Defined.

(* ================================================================== *)
(** * The text handed to the field extractors                           *)
(* ================================================================== *)

Lemma strip_nil : Py.strip [] = [].
Proof. reflexivity. Qed.

(** X9.  Whatever the file type, the text [_extract_text_by_type]
    returns carries no whitespace at either end; and when the OCR engine
    cannot be loaded, a call that goes through OCR returns the empty
    text instead of failing, also for a PDF whose short text layer was
    read before. *)
Theorem extracted_text_trimmed fs path text calls :
  ResumeParser._extract_text_by_type fs path = Ok (text, calls) ->
  Py.strip text = text
  /\ (ResumeParser.paddle fs = None ->
      In ResumeParser.PdfOcr calls \/ In ResumeParser.ImageOcr calls ->
      text = []).
Proof.
  unfold ResumeParser._extract_text_by_type.
  destruct (ResumeParser.detect_mime_type fs path) as [mime|]; [|discriminate].
  assert (Hocr : Py.strip (ResumeParser.ocr_text fs path) = ResumeParser.ocr_text fs path).
  { unfold ResumeParser.ocr_text. destruct (ResumeParser.paddle fs);
      [apply strip_idem | reflexivity]. }
  assert (Hnone : ResumeParser.paddle fs = None -> ResumeParser.ocr_text fs path = []).
  { unfold ResumeParser.ocr_text. intros ->. reflexivity. }
  destruct (Py.eqb mime ResumeParser.MIME_PDF).
  { destruct (_ <? 50)%nat; intros [= <- <-].
    - split; [exact Hocr | intros Hp _; exact (Hnone Hp)].
    - split; [apply strip_idem|]. intros _ [[H | [] ] | [H | [] ]]; discriminate. }
  destruct (Py.eqb mime ResumeParser.MIME_DOCX).
  { intros [= <- <-]. split; [apply strip_idem|].
    intros _ [[H | [] ] | [H | [] ]]; discriminate. }
  destruct (_ && _); [|discriminate].
  intros [= <- <-]. split; [exact Hocr | intros Hp _; exact (Hnone Hp)].
Qed.

Lemma extracted_text_trimmed_witness :
  Py.strip [] = []
  /\ (ResumeParser.paddle scanned_pdf = None ->
      In ResumeParser.PdfOcr [ResumeParser.PdfText; ResumeParser.PdfOcr]
      \/ In ResumeParser.ImageOcr [ResumeParser.PdfText; ResumeParser.PdfOcr] ->
      @nil ascii = []).
Proof.
  apply (extracted_text_trimmed scanned_pdf (L "/tmp/resume.pdf")).
  vm_compute. reflexivity.
Defined.

(** ** The rest of the text after the work-experience block *)

Section RestFacts.
Context {char : Type}.
Variable char_eqb : char -> char -> bool.
Variable isspace : char -> bool.
Variable str_lower : list char -> list char.
Hypothesis char_eqb_eq : forall a b, char_eqb a b = true <-> a = b.

Local Abbreviation startswith := (ResumeParser.text_startswith char_eqb).
Local Abbreviation find := (ResumeParser.text_find char_eqb).

Lemma text_startswith_spec p : forall s,
  startswith p s = true <-> exists t, s = p ++ t.
Proof.
  induction p as [|x p IH]; intros s; simpl.
  - split; eauto.
  - destruct s as [|y s].
    + split; [discriminate | intros [t Ht]; discriminate].
    + rewrite andb_true_iff, char_eqb_eq, IH. split.
      * intros [-> [t ->]]. exists t. reflexivity.
      * intros [t [= -> ->]]. split; eauto.
Qed.

(** Where [find] returns nothing, [sub] starts nowhere. *)
Lemma text_find_none sub : forall s,
  find sub s = None -> forall pre post, s <> pre ++ sub ++ post.
Proof.
  induction s as [|c s IH]; cbn [ResumeParser.text_find];
    destruct (startswith sub _) eqn:E; try discriminate; intros H pre post Hs.
  - assert (startswith sub [] = true); [|congruence].
    apply text_startswith_spec. destruct pre; [|discriminate].
    exists post. exact Hs.
  - destruct (find sub s) eqn:Ef; [discriminate|].
    destruct pre as [|a pre].
    + assert (startswith sub (c :: s) = true); [|congruence].
      apply text_startswith_spec. exists post. exact Hs.
    + simpl in Hs. injection Hs as _ Hs. exact (IH eq_refl pre post Hs).
Qed.

(** Where [find] returns an index, [sub] starts there and nowhere
    before. *)
Lemma text_find_some sub : forall s i,
  find sub s = Some i ->
  (exists post, skipn i s = sub ++ post)
  /\ i <= length s
  /\ forall pre post, s = pre ++ sub ++ post -> i <= length pre.
Proof.
  induction s as [|c s IH]; intros i; cbn [ResumeParser.text_find].
  - destruct (startswith sub []) eqn:E; [|discriminate].
    intros [= <-]. apply text_startswith_spec in E as [t Ht].
    split; [exists t; exact Ht|]. split; [simpl|]; intros; lia.
  - destruct (startswith sub (c :: s)) eqn:E.
    + intros [= <-]. apply text_startswith_spec in E as [t Ht].
      split; [exists t; exact Ht|]. split; [simpl|]; intros; lia.
    + destruct (find sub s) as [j|] eqn:Ej; [|discriminate].
      intros [= <-]. destruct (IH j eq_refl) as ([post Hpost] & Hle & Hfirst).
      split; [exists post; exact Hpost|]. split; [simpl; lia|].
      intros pre post' Hs. destruct pre as [|a pre].
      * exfalso. assert (startswith sub (c :: s) = true); [|congruence].
        apply text_startswith_spec. exists post'. exact Hs.
      * simpl in Hs. injection Hs as _ Hs. simpl.
        specialize (Hfirst pre post' Hs). lia.
Qed.
End RestFacts.

(** X10.  [extract_rest] with a non-empty work-experience block, on a
    text and a block whose characters lower-case one by one (in Python,
    every string without U+0130 and U+03A3): when no part of the text
    lower-cases to the lower-cased block, the whole text is returned,
    trimmed; otherwise the text splits at the first such part, and what
    follows that part is returned, trimmed. *)
Theorem extract_rest_after_first_block {char : Type}
    (char_eqb : char -> char -> bool) (isspace : char -> bool)
    (str_lower : list char -> list char) (f : char -> char)
    (text w : list char) :
  (forall a b, char_eqb a b = true <-> a = b) ->
  lowers_by str_lower f (text ++ w) ->
  w <> [] ->
  ((forall b m a, text = b ++ m ++ a -> str_lower m <> str_lower w)
   /\ ResumeParser.extract_rest char_eqb isspace str_lower text (Some w)
      = ResumeParser.text_strip isspace text)
  \/ exists before mid after,
       text = before ++ mid ++ after
       /\ str_lower mid = str_lower w
       /\ (forall b m a,
             text = b ++ m ++ a -> str_lower m = str_lower w ->
             length before <= length b)
       /\ ResumeParser.extract_rest char_eqb isspace str_lower text (Some w)
          = ResumeParser.text_strip isspace after.
Proof.
  intros Heq Hlow Hw. destruct w as [|c w]; [congruence|].
  assert (Hin : forall u, incl u text -> str_lower u = map f u).
  { intros u Hu. apply Hlow. intros x Hx. apply in_or_app. left. auto. }
  assert (Hparts : forall b m a, text = b ++ m ++ a ->
            str_lower m = map f m
            /\ map f text = map f b ++ map f m ++ map f a).
  { intros b m a Ht. split.
    - apply Hin. rewrite Ht. intros x Hx. apply in_or_app. right.
      apply in_or_app. left. exact Hx.
    - rewrite Ht, !map_app. reflexivity. }
  assert (Ew : str_lower (c :: w) = map f (c :: w)).
  { apply Hlow. intros x Hx. apply in_or_app. right. exact Hx. }
  assert (Et : str_lower text = map f text) by (apply Hin; intros x Hx; exact Hx).
  unfold ResumeParser.extract_rest. rewrite Et.
  destruct (ResumeParser.text_find char_eqb (str_lower (c :: w)) (map f text))
    as [idx|] eqn:E.
  - right. destruct (text_find_some char_eqb Heq _ _ _ E)
      as ([post Hpost] & Hle & Hfirst).
    rewrite length_map in Hle.
    set (before := firstn idx text).
    set (mid := firstn (length (c :: w)) (skipn idx text)).
    set (after := skipn (idx + length (c :: w)) text).
    assert (Hsplit : text = before ++ mid ++ after).
    { subst before mid after.
      rewrite Nat.add_comm, <- skipn_skipn, !firstn_skipn. reflexivity. }
    exists before, mid, after. split; [exact Hsplit|]. split; [|split].
    + destruct (Hparts _ _ _ Hsplit) as [-> _]. subst mid.
      rewrite <- firstn_map, <- skipn_map, Hpost, Ew.
      rewrite <- (length_map f (c :: w)).
      rewrite firstn_app, firstn_all, Nat.sub_diag, firstn_O.
      apply app_nil_r.
    + intros b m a Ht Hm. subst before.
      rewrite length_take, Nat.min_l by exact Hle.
      destruct (Hparts _ _ _ Ht) as [Em Emap].
      specialize (Hfirst (map f b) (map f a)).
      rewrite length_map in Hfirst. apply Hfirst.
      rewrite Emap, <- Em, Hm. reflexivity.
    + reflexivity.
  - left. split; [|reflexivity].
    intros b m a Ht Hm. destruct (Hparts _ _ _ Ht) as [Em Emap].
    apply (text_find_none char_eqb Heq _ _ E (map f b) (map f a)).
    rewrite Emap, <- Em, Hm. reflexivity.
Qed.

Lemma extract_rest_after_first_block_witness :
  ((forall b m a,
      L "EXPERIENCE acme corp Education BSc " = b ++ m ++ a ->
      Py.lower m <> Py.lower (L "Acme Corp"))
   /\ ResumeParser.extract_rest Ascii.eqb Py.is_space Py.lower
        (L "EXPERIENCE acme corp Education BSc ") (Some (L "Acme Corp"))
      = ResumeParser.text_strip Py.is_space (L "EXPERIENCE acme corp Education BSc "))
  \/ exists before mid after,
       L "EXPERIENCE acme corp Education BSc " = before ++ mid ++ after
       /\ Py.lower mid = Py.lower (L "Acme Corp")
       /\ (forall b m a,
             L "EXPERIENCE acme corp Education BSc " = b ++ m ++ a ->
             Py.lower m = Py.lower (L "Acme Corp") ->
             length before <= length b)
       /\ ResumeParser.extract_rest Ascii.eqb Py.is_space Py.lower
            (L "EXPERIENCE acme corp Education BSc ") (Some (L "Acme Corp"))
          = ResumeParser.text_strip Py.is_space after.
Proof.
  apply (extract_rest_after_first_block Ascii.eqb Py.is_space Py.lower
           Py.lower_char (L "EXPERIENCE acme corp Education BSc ")
           (L "Acme Corp")).
  - exact Ascii.eqb_eq.
  - intros u _. reflexivity.
  - discriminate.
Defined.

(** Why the characters have to lower-case one by one: U+0130 lower-cases
    to two code points, the index found in the lower-cased text lies
    further right than the block lies in the text, and the first
    characters of what follows the block are lost. *)
Example extract_rest_after_dotted_capital :
  ResumeParser.extract_rest N.eqb cp_isspace dotted_lower dotted_text
    (Some (code_points (L "acme corp")))
  = code_points (L "ython, SQL")
  /\ dotted_text
     = [304; 304; 304; 32]%N ++ code_points (L "acme corp")
       ++ code_points (L ": Python, SQL").
Proof. split; vm_compute; reflexivity. Qed.

(* ================================================================== *)
(** * The candidates handed to the model                                *)
(* ================================================================== *)

Lemma in_ranked_pool j ex qs c :
  In c (map snd (firstn 5 (Ranker.sort_desc fst (Ranker.scored j ex qs)))) ->
  In c qs /\ has_overlap ex c = true.
Proof.
  intros H. apply in_map_iff in H as (x & <- & Hx).
  apply in_firstn in Hx.
  apply (Permutation_in _ (sort_desc_perm fst _)) in Hx.
  apply (in_map snd) in Hx. rewrite scored_candidates in Hx.
  apply filter_In in Hx. exact Hx.
Qed.

Lemma selected_from_pool j ex table table_again c :
  In c (Ranker.select_candidates j ex table table_again) ->
  Ranker.eligible j c = true /\ (In c table \/ In c table_again).
Proof.
  unfold Ranker.select_candidates.
  assert (Hfront : In c (map snd (firstn 5 (Ranker.sort_desc fst
                     (Ranker.scored j ex (Ranker.candidates_qs j table))))) ->
                   Ranker.eligible j c = true /\ (In c table \/ In c table_again)).
  { intros H. apply in_ranked_pool in H as [H _].
    apply filter_In in H as [Hin He]. auto. }
  destruct (_ <? 3)%nat; [|exact Hfront].
  intros H. apply in_app_or in H as [H | H]; [exact (Hfront H)|].
  apply in_firstn in H. apply filter_In in H as [H _].
  apply filter_In in H as [Hin He]. auto.
Qed.

(** X11.  Every candidate handed to the model is a row of the candidate
    table that is available, has resume data and, when the job requires
    a visa, has one: also those added to reach the minimum of three. *)
Theorem selected_are_eligible j ex table table_again c :
  In c (Ranker.select_candidates j ex table table_again) ->
  Ranker.c_is_available c = true
  /\ Ranker.c_resume_data c <> None
  /\ (Ranker.j_visa_required j = true -> Ranker.c_has_workvisa c = true)
  /\ (In c table \/ In c table_again).
Proof.
  intros H. apply selected_from_pool in H as [He Hin].
  unfold Ranker.eligible in He.
  apply andb_prop in He as [He Hv]. apply andb_prop in He as [Ha Hr].
  split; [exact Ha|]. split; [|split; [|exact Hin]].
  - destruct (Ranker.c_resume_data c); [discriminate | discriminate].
  - intros Hj. rewrite Hj in Hv. exact Hv.
Qed.

Lemma selected_are_eligible_witness :
  Ranker.c_is_available (demo_candidate 6 []) = true
  /\ Ranker.c_resume_data (demo_candidate 6 []) <> None
  /\ (Ranker.j_visa_required demo_job = true ->
      Ranker.c_has_workvisa (demo_candidate 6 []) = true)
  /\ (In (demo_candidate 6 []) [demo_candidate 6 []]
      \/ In (demo_candidate 6 []) [demo_candidate 6 []]).
Proof.
  apply (selected_are_eligible demo_job demo_skills
           [demo_candidate 6 []] [demo_candidate 6 []]).
  vm_compute. left. reflexivity.
Defined.

Lemma NoDup_firstn {A} (n : nat) (l : list A) :
  List.NoDup l -> List.NoDup (firstn n l).
Proof.
  revert n. induction l as [|x l IH]; intros [|n] H; simpl; try constructor.
  - apply List.NoDup_cons_iff in H as [Hx Hl].
    intros Hin. apply Hx. exact (in_firstn _ _ _ Hin).
  - apply List.NoDup_cons_iff in H as [_ Hl]. auto.
Qed.

Lemma NoDup_app_intro {A} (l l' : list A) :
  List.NoDup l -> List.NoDup l' -> (forall a, In a l -> In a l' -> False) ->
  List.NoDup (l ++ l').
Proof.
  intros Hl Hl' Hd. induction l as [|x l IH]; simpl; [exact Hl'|].
  apply List.NoDup_cons_iff in Hl as [Hx Hl]. constructor.
  - intros Hin. apply in_app_or in Hin as [Hin | Hin]; [auto|].
    apply (Hd x); [left; reflexivity | exact Hin].
  - apply IH; [exact Hl|]. intros a Ha. apply Hd. right. exact Ha.
Qed.

(** X12.  No candidate is handed to the model twice: when the rows of
    each of the two queries have distinct identifiers, so have the
    selected candidates, whatever the second query returns. *)
Theorem selected_are_distinct j ex table table_again :
  List.NoDup (map Ranker.c_id table) ->
  List.NoDup (map Ranker.c_id table_again) ->
  List.NoDup (map Ranker.c_id (Ranker.select_candidates j ex table table_again)).
Proof.
  intros Hnd Hnd'. unfold Ranker.select_candidates.
  set (sorted := Ranker.sort_desc fst (Ranker.scored j ex (Ranker.candidates_qs j table))).
  assert (Hfront : List.NoDup (map Ranker.c_id (map snd (firstn 5 sorted)))).
  { rewrite <- !firstn_map. apply NoDup_firstn.
    eapply Permutation_NoDup.
    - symmetry. apply Permutation_map, Permutation_map, sort_desc_perm.
    - rewrite scored_candidates. apply NoDup_map_filter, NoDup_map_filter, Hnd. }
  destruct (_ <? 3)%nat; [|exact Hfront].
  rewrite map_app. apply NoDup_app_intro; [exact Hfront | |].
  - rewrite <- firstn_map. apply NoDup_firstn.
    apply NoDup_map_filter, NoDup_map_filter, Hnd'.
  - intros a Ha Hb. apply in_map_iff in Hb as (c & <- & Hc).
    apply in_firstn in Hc. apply filter_In in Hc as [_ Hc].
    apply negb_true_iff in Hc.
    assert (Ranker.id_in (map Ranker.c_id (map snd (firstn 5 sorted))) c = true)
      by (apply id_in_spec; exact Ha).
    congruence.
Qed.

Lemma selected_are_distinct_witness :
  List.NoDup (map Ranker.c_id
                (Ranker.select_candidates demo_job demo_skills demo_table
                   (rev demo_table))).
Proof.
  apply (selected_are_distinct demo_job demo_skills demo_table (rev demo_table));
    simpl; repeat (constructor; [simpl; intuition lia|]); constructor.
Defined.

Lemma insert_desc_stable {A} (key : A -> nat) (k : nat) (x : A) : forall xs,
  List.filter (fun y => key y =? k)%nat (Ranker.insert_desc key x xs)
  = List.filter (fun y => key y =? k)%nat (x :: xs).
Proof.
  induction xs as [|y ys IH]; [reflexivity|].
  cbn [Ranker.insert_desc]. destruct (key x <? key y)%nat eqn:E; [|reflexivity].
  apply Nat.ltb_lt in E. cbn [List.filter] in *. rewrite IH.
  destruct (key x =? k)%nat eqn:Ex, (key y =? k)%nat eqn:Ey; try reflexivity.
  apply Nat.eqb_eq in Ex, Ey. lia.
Qed.

Lemma sort_desc_stable {A} (key : A -> nat) (k : nat) : forall xs,
  List.filter (fun y => key y =? k)%nat (Ranker.sort_desc key xs)
  = List.filter (fun y => key y =? k)%nat xs.
Proof.
  induction xs as [|x xs IH]; [reflexivity|].
  cbn [Ranker.sort_desc fold_right].
  change (fold_right (Ranker.insert_desc key) [] xs) with (Ranker.sort_desc key xs).
  rewrite insert_desc_stable. cbn [List.filter]. rewrite IH. reflexivity.
Qed.

(** X13.  The heuristic ranking is stable: the candidates with one and
    the same heuristic score stand in the ranked list in the order in
    which the query returned them, so that order decides which of them
    are within the first five. *)
Theorem equal_scores_keep_query_order j ex qs k :
  map snd
    (List.filter (fun x => fst x =? k)%nat
       (Ranker.sort_desc fst (Ranker.scored j ex qs)))
  = List.filter
      (fun c => has_overlap ex c && (Ranker.heuristic_score j ex c =? k)%nat)
      qs.
Proof.
  rewrite sort_desc_stable. unfold Ranker.scored, has_overlap.
  induction qs as [|c qs IH]; [reflexivity|].
  cbn [flat_map List.filter].
  destruct (Ranker.overlap ex c =? 0)%nat; cbn [negb andb app]; [exact IH|].
  cbn [List.filter fst].
  destruct (Ranker.heuristic_score j ex c =? k)%nat; cbn [map snd];
    [f_equal|]; exact IH.
Qed.

(* ================================================================== *)
(** * The final ranking when the scores are numbers                     *)
(* ================================================================== *)





(** A NaN, which a reply may hold, is below nothing and above nothing:
    the sort leaves it where it is, and the entries around it in the
    order they came in. *)
Example nan_score_is_not_ranked :
  Ranker.sort_by_score
    [entry_scored 1 (Ranker.JNum 50); entry_scored 2 Ranker.JNaN;
     entry_scored 3 (Ranker.JNum 90)]
  = Ok [entry_scored 1 (Ranker.JNum 50); entry_scored 2 Ranker.JNaN;
        entry_scored 3 (Ranker.JNum 90)]
  /\ ~ numeric (entry_scored 2 Ranker.JNaN).
Proof. split; [reflexivity | intros [q Hq]; discriminate]. Qed.

(* ================================================================== *)
(** * Token usage and cost                                              *)
(* ================================================================== *)

Lemma score_candidate_usage sv jd acc c :
  let acc' := Ranker.score_candidate sv jd acc c in
  Ranker.t_input acc' = Ranker.t_input acc + prompt_tokens sv jd c
  /\ Ranker.t_output acc' = Ranker.t_output acc + reply_tokens sv jd c
  /\ (Ranker.t_cost acc' == Ranker.t_cost acc + billed sv jd c)%Q.
Proof.
  unfold billed, scoring_succeeds, reply_tokens, prompt_tokens,
    Ranker.score_candidate.
  destruct (Ranker.chat sv _ _) as [content|e]; cbn zeta.
  - destruct (Ranker.json_loads sv content) as [d|e];
      cbn -[Ranker.call_cost Qplus Nat.add Qeq Ranker.prompt].
    + destruct (Ranker.getitem d (L "score")) as [s|e];
        cbn -[Ranker.call_cost Qplus Nat.add Qeq Ranker.prompt].
      * destruct (Ranker.getitem d (L "reasons")) as [r|e];
          cbn -[Ranker.call_cost Qplus Nat.add Qeq Ranker.prompt];
          repeat split; try reflexivity; symmetry; apply Qplus_0_r.
      * repeat split; try reflexivity; symmetry; apply Qplus_0_r.
    + repeat split; try reflexivity; symmetry; apply Qplus_0_r.
  - cbn -[Ranker.call_cost Qplus Nat.add Qeq Ranker.prompt].
    repeat split; try lia. symmetry. apply Qplus_0_r.
Qed.

Lemma score_all_usage sv jd cs : forall acc,
  let t := fold_left (Ranker.score_candidate sv jd) cs acc in
  Ranker.t_input t = Ranker.t_input acc + list_sum (map (prompt_tokens sv jd) cs)
  /\ Ranker.t_output t
     = Ranker.t_output acc + list_sum (map (reply_tokens sv jd) cs)
  /\ (Ranker.t_cost t == Ranker.t_cost acc + Qsum (map (billed sv jd) cs))%Q.
Proof.
  induction cs as [|c cs IH]; intros acc.
  - simpl. split; [lia|]. split; [lia|]. symmetry. apply Qplus_0_r.
  - destruct (IH (Ranker.score_candidate sv jd acc c)) as (Hi & Ho & Hc).
    destruct (score_candidate_usage sv jd acc c) as (Hi1 & Ho1 & Hc1).
    cbn zeta in *. cbn [fold_left]. rewrite Hi, Ho, Hc, Hi1, Ho1, Hc1.
    split; [simpl; lia|]. split; [simpl; lia|].
    cbn [map Qsum fold_right].
    change (fold_right Qplus 0%Q (map (billed sv jd) cs))
      with (Qsum (map (billed sv jd) cs)).
    symmetry. apply Qplus_assoc.
Qed.

(** X15.  What a run of the loop accounts for: the input tokens of
    every candidate's prompt, whether or not the call came back; the
    output tokens of every reply received, whether or not it could be
    read; and a cost made of the calls whose reply held a score and
    reasons, so that the tokens of a failed candidate are in the token
    usage and not in the estimated cost. *)
Theorem usage_accounting sv jd cs :
  let t := Ranker.score_all sv jd cs in
  Ranker.t_input t = list_sum (map (prompt_tokens sv jd) cs)
  /\ Ranker.t_output t = list_sum (map (reply_tokens sv jd) cs)
  /\ (Ranker.t_cost t == Qsum (map (billed sv jd) cs))%Q.
Proof.
  unfold Ranker.score_all.
  destruct (score_all_usage sv jd cs
              {| Ranker.t_results := []; Ranker.t_input := 0;
                 Ranker.t_output := 0; Ranker.t_cost := 0 |})
    as (Hi & Ho & Hc).
  cbn zeta in *. cbn [Ranker.t_input Ranker.t_output Ranker.t_cost] in *.
  rewrite Hi, Ho, Hc. split; [reflexivity|]. split; [reflexivity|].
  apply Qplus_0_l.
Qed.

(* ================================================================== *)
(** * The result of a ranking run                                       *)
(* ================================================================== *)

Lemma insert_by_score_perm x : forall xs ys,
  Ranker.insert_by_score x xs = Ok ys -> Permutation ys (x :: xs).
Proof.
  induction xs as [|y xs IH]; intros ys; cbn [Ranker.insert_by_score].
  - intros [= <-]. reflexivity.
  - intros H. apply bind_ok in H as ([] & _ & H).
    + apply bind_ok in H as (rest & Hr & [= <-]).
      rewrite (IH rest Hr). apply perm_swap.
    + injection H as <-. reflexivity.
Qed.

Lemma sort_by_score_perm : forall xs ys,
  Ranker.sort_by_score xs = Ok ys -> Permutation ys xs.
Proof.
  induction xs as [|x xs IH]; intros ys; cbn [Ranker.sort_by_score].
  - intros [= <-]. reflexivity.
  - intros H. apply bind_ok in H as (sorted & Hs & H).
    rewrite (insert_by_score_perm _ _ _ H). constructor. auto.
Qed.

Lemma entry_for_ids sv jd c :
  Ranker.candidate_id (entry_for sv jd c) = Ranker.lc_id c
  /\ Ranker.candidate_slug (entry_for sv jd c) = Ranker.lc_slug c.
Proof.
  unfold entry_for, Ranker.score_candidate.
  destruct (Ranker.chat sv _ _) as [content|e]; [|split; reflexivity].
  destruct (Ranker.json_loads sv content) as [d|e]; [|split; reflexivity].
  simpl.
  destruct (Ranker.getitem d (L "score")) as [s|e]; [|split; reflexivity].
  destruct (Ranker.getitem d (L "reasons")) as [r|e]; split; reflexivity.
Qed.

Lemma select_candidates_length j ex table table_again :
  length (Ranker.select_candidates j ex table table_again) <= 5.
Proof.
  unfold Ranker.select_candidates.
  destruct (_ <? 3)%nat eqn:E.
  - apply Nat.ltb_lt in E. rewrite length_app, length_take. lia.
  - rewrite length_map, length_take. lia.
Qed.

(** X16.  A ranking run that returns has scored the selected candidates
    and no one else: its result has one entry for each of them, in some
    order, so at most five; every entry carries the identifier and the
    slug of an eligible row of the candidate table; and the total of its
    token usage is the sum of the two parts. *)
Theorem ranking_result_entries sv j table table_again data :
  Ranker.ranking_algo sv j table table_again = Ok data ->
  exists expanded_skills,
    Ranker.expand_job_skills sv (Py.join (L ", ") (Ranker.j_skills j))
    = Ok expanded_skills
    /\ Permutation
         (map Ranker.candidate_id (Ranker.ranked_candidates data))
         (map Ranker.c_id
            (Ranker.select_candidates j expanded_skills table table_again))
    /\ length (Ranker.ranked_candidates data) <= 5
    /\ (forall e, In e (Ranker.ranked_candidates data) ->
          exists c,
            (In c table \/ In c table_again)
            /\ Ranker.eligible j c = true
            /\ Ranker.candidate_id e = Ranker.c_id c
            /\ Ranker.candidate_slug e = Ranker.c_slug c)
    /\ Ranker.total_tokens (Ranker.usage data)
       = Ranker.input_tokens (Ranker.usage data)
         + Ranker.output_tokens (Ranker.usage data).
Proof.
  unfold Ranker.ranking_algo. intros H.
  apply bind_ok in H as (ex & Hex & H). cbn zeta in H.
  apply bind_ok in H as (r & Hr & [= <-]).
  unfold Ranker.final_rank_with_llm in Hr.
  apply bind_ok in Hr as (out & Hsort & [= <-]).
  apply sort_by_score_perm in Hsort. rewrite score_all_results in Hsort.
  set (selected := Ranker.select_candidates j ex table table_again) in *.
  cbn [Ranker.ranked_candidates Ranker.usage Ranker.total_tokens
       Ranker.input_tokens Ranker.output_tokens fst snd].
  exists ex. split; [exact Hex|]. split; [|split; [|split; [|reflexivity]]].
  - rewrite Hsort, !map_map. apply Permutation_refl'.
    apply map_ext. intros c. apply (entry_for_ids sv _ (Ranker.for_llm c)).
  - rewrite (Permutation_length Hsort), !length_map.
    apply select_candidates_length.
  - intros e He. apply (Permutation_in _ Hsort) in He.
    apply in_map_iff in He as (lc & <- & Hlc).
    apply in_map_iff in Hlc as (c & <- & Hc).
    exists c. destruct (selected_from_pool _ _ _ _ _ Hc) as [Hel Hin].
    destruct (entry_for_ids sv (Ranker.job_description j) (Ranker.for_llm c)).
    auto.
Qed.

Lemma ranking_result_entries_witness :
  exists data expanded_skills,
    Ranker.ranking_algo grader demo_job demo_table (rev demo_table) = Ok data
    /\ Ranker.expand_job_skills grader (Py.join (L ", ") (Ranker.j_skills demo_job))
       = Ok expanded_skills
    /\ length (Ranker.ranked_candidates data) <= 5.
Proof.
  destruct (Ranker.ranking_algo grader demo_job demo_table (rev demo_table))
    as [data|e] eqn:E; [|vm_compute in E; discriminate].
  destruct (ranking_result_entries grader demo_job demo_table (rev demo_table)
              data E) as (ex & Hex & _ & Hlen & _).
  exists data, ex. auto.
Defined.

(* ================================================================== *)
(** * The task queues                                                   *)
(* ================================================================== *)

Lemma Forall_remove_nth {A} (P : A -> Prop) i (xs : list A) :
  Forall P xs -> Forall P (Tasks.remove_nth i xs).
Proof.
  intros H. unfold Tasks.remove_nth. apply Forall_app. split.
  - apply Forall_take, H.
  - apply Forall_drop, H.
Qed.

Lemma requeue_bounded i m retry queue :
  retries_bounded queue ->
  (retry = true -> m.2 < Tasks.max_retries) ->
  retries_bounded (Tasks.requeue i m retry queue).
Proof.
  intros Hq Hr. unfold Tasks.requeue, retries_bounded.
  apply Forall_app. split; [apply Forall_remove_nth, Hq|].
  destruct retry; constructor; [|constructor]. simpl.
  specialize (Hr eq_refl). lia.
Qed.

Lemma parse_task_retry retries id outcome db :
  (Tasks.parse_resume_task retries id outcome db).2 = true ->
  retries < Tasks.max_retries.
Proof.
  unfold Tasks.parse_resume_task.
  destruct (db !! id) as [c|]; simpl; [|apply Nat.ltb_lt].
  destruct (negb _); simpl; [discriminate|].
  destruct outcome; simpl; [discriminate | apply Nat.ltb_lt].
Qed.

Lemma rank_task_retry retries id outcome db :
  (Tasks.rank_candidates_task retries id outcome db).2 = true ->
  retries < Tasks.max_retries.
Proof.
  unfold Tasks.rank_candidates_task.
  destruct (db !! id) as [j|]; simpl; [|apply Nat.ltb_lt].
  destruct outcome; simpl; [discriminate | apply Nat.ltb_lt].
Qed.

Lemma candidate_step_bounded s op :
  retries_bounded (Tasks.parse_queue s) ->
  retries_bounded (Tasks.parse_queue (Tasks.candidate_step s op)).
Proof.
  intros Hs. destruct op as [id file t|id d|i outcome|now]; simpl; try exact Hs.
  - unfold Tasks.parse_resume_data.
    destruct (Tasks.profiles s !! id) as [c|]; [|exact Hs].
    destruct (negb _); [exact Hs|]. destruct (_ && _); [exact Hs|].
    destruct (Tasks.is_parsing c); [exact Hs|]. destruct d; [|exact Hs].
    simpl. apply Forall_app. split; [exact Hs|].
    constructor; [simpl; unfold Tasks.max_retries; lia | constructor].
  - destruct (Tasks.parse_queue s !! i) as [m|]; [|exact Hs]. simpl.
    apply requeue_bounded; [exact Hs | apply parse_task_retry].
Qed.

Lemma job_step_bounded s op :
  retries_bounded (Tasks.rank_queue s) ->
  retries_bounded (Tasks.rank_queue (Tasks.job_step s op)).
Proof.
  intros Hs. destruct op as [id t|found id task|i outcome|now]; simpl; try exact Hs.
  - unfold Tasks.rank_candidates. destruct found as [[]|e]; [|exact Hs].
    destruct (Tasks.posts s !! id) as [j|]; [|exact Hs].
    destruct (_ && _); [exact Hs|].
    destruct (Tasks.is_ranking j); [exact Hs|]. destruct task; [|exact Hs].
    simpl. apply Forall_app. split; [exact Hs|].
    constructor; [simpl; unfold Tasks.max_retries; lia | constructor].
  - destruct (Tasks.rank_queue s !! i) as [m|]; [|exact Hs]. simpl.
    apply requeue_bounded; [exact Hs | apply rank_task_retry].
Qed.

(** X17.  However the view actions, the task runs and the sweeps follow
    one another, no message in either queue carries more than three
    retries: a task asks for a retry only below that count, and a
    requeued message counts one more than the run it comes from. *)
Theorem queued_retries_bounded cops jops :
  retries_bounded (Tasks.parse_queue (Tasks.candidate_run cops))
  /\ retries_bounded (Tasks.rank_queue (Tasks.job_run jops)).
Proof.
  split.
  - unfold Tasks.candidate_run.
    assert (H : forall s, retries_bounded (Tasks.parse_queue s) ->
                  retries_bounded
                    (Tasks.parse_queue (fold_left Tasks.candidate_step cops s))).
    { induction cops as [|op ops IH]; intros s Hs; [exact Hs|].
      simpl. apply IH, candidate_step_bounded, Hs. }
    apply H. constructor.
  - unfold Tasks.job_run.
    assert (H : forall s, retries_bounded (Tasks.rank_queue s) ->
                  retries_bounded
                    (Tasks.rank_queue (fold_left Tasks.job_step jops s))).
    { induction jops as [|op ops IH]; intros s Hs; [exact Hs|].
      simpl. apply IH, job_step_bounded, Hs. }
    apply H. constructor.
Qed.

(* ================================================================== *)
(** * What the operations leave alone                                   *)
(* ================================================================== *)

Section Kept.
Context {R : Type}.
Variable kept : R -> R -> Prop.
Hypothesis kept_refl : forall r, kept r r.
Hypothesis kept_trans : forall a b c, kept a b -> kept b c -> kept a c.

Lemma table_kept_refl (db : gmap Z R) : table_kept kept db db.
Proof. intros id r H. eauto. Qed.

Lemma table_kept_trans (a b c : gmap Z R) :
  table_kept kept a b -> table_kept kept b c -> table_kept kept a c.
Proof.
  intros Hab Hbc id r H. destruct (Hab id r H) as (r' & H' & K).
  destruct (Hbc id r' H') as (r'' & H'' & K'). eauto.
Qed.

Lemma table_kept_alter f id (db : gmap Z R) :
  (forall r, kept r (f r)) -> table_kept kept db (alter f id db).
Proof.
  intros Hf id' r H. destruct (decide (id = id')) as [->|Hne].
  - rewrite lookup_alter_eq, H. simpl. eauto.
  - rewrite lookup_alter_ne by exact Hne. eauto.
Qed.

Lemma table_kept_fmap f (db : gmap Z R) :
  (forall r, kept r (f r)) -> table_kept kept db (f <$> db).
Proof. intros Hf id r H. rewrite lookup_fmap, H. simpl. eauto. Qed.

Lemma table_kept_insert id r (db : gmap Z R) :
  db !! id = None -> table_kept kept db (<[id := r]> db).
Proof.
  intros Hid id' r' H. destruct (decide (id = id')) as [->|Hne]; [congruence|].
  rewrite lookup_insert_ne by exact Hne. eauto.
Qed.

Lemma table_kept_last (dbs : list (gmap Z R)) db :
  Forall (table_kept kept db) dbs -> table_kept kept db (List.last dbs db).
Proof.
  intros Hall. induction Hall as [|x xs Hx _ IH]; [apply table_kept_refl|].
  destruct xs; [exact Hx | exact IH].
Qed.
End Kept.

Lemma profile_kept_refl c : profile_kept c c.
Proof. repeat split; auto. Qed.

Lemma profile_kept_trans a b c :
  profile_kept a b -> profile_kept b c -> profile_kept a c.
Proof.
  intros (F1 & U1 & D1) (F2 & U2 & D2). repeat split; try congruence. auto.
Qed.

Lemma job_kept_refl j : job_kept j j.
Proof. split; auto. Qed.

Lemma job_kept_trans a b c : job_kept a b -> job_kept b c -> job_kept a c.
Proof. intros (C1 & D1) (C2 & D2). split; [congruence | auto]. Qed.

Lemma parse_task_kept retries id outcome db :
  Forall (table_kept profile_kept db)
    (Tasks.parse_resume_task retries id outcome db).1.
Proof.
  unfold Tasks.parse_resume_task.
  assert (Hst : forall st db', table_kept profile_kept db'
                       (alter (Tasks.with_parsing_status st) id db')).
  { intros st db'. apply table_kept_alter; [exact profile_kept_refl|]. intros r.
    unfold profile_kept. simpl. auto. }
  destruct (db !! id) as [c|]; [|constructor].
  destruct (negb _); [constructor; [apply Hst | constructor]|].
  destruct outcome as [data|e]; simpl.
  - constructor; [apply Hst|]. constructor; [|constructor].
    eapply table_kept_trans; [exact profile_kept_trans | apply Hst |].
    apply table_kept_alter; [exact profile_kept_refl|]. intros r. unfold profile_kept. simpl.
    split; [reflexivity|]. split; [reflexivity | congruence].
  - constructor; [apply Hst|]. constructor; [|constructor].
    eapply table_kept_trans; [exact profile_kept_trans | apply Hst | apply Hst].
Qed.

Lemma candidate_points_kept op s :
  Forall (table_kept profile_kept (Tasks.profiles s)) (Tasks.candidate_points op s).
Proof.
  destruct op as [id file t|id d|i outcome|now]; simpl.
  - destruct (Tasks.profiles s !! id) eqn:E; constructor; [|constructor].
    apply table_kept_insert; [exact profile_kept_refl | exact E].
  - constructor.
  - destruct (Tasks.parse_queue s !! i); [|constructor]. apply parse_task_kept.
  - constructor; [|constructor]. apply table_kept_fmap.
    intros c. destruct (_ && _); unfold profile_kept; simpl; auto.
Qed.

Lemma rank_task_kept retries id outcome db :
  Forall (table_kept job_kept db)
    (Tasks.rank_candidates_task retries id outcome db).1.
Proof.
  unfold Tasks.rank_candidates_task.
  assert (Hst : forall st db', table_kept job_kept db'
                       (alter (Tasks.with_ranking_status st) id db')).
  { intros st db'. apply table_kept_alter; [exact job_kept_refl|]. intros r.
    unfold job_kept. simpl. auto. }
  assert (Hstore : forall d db', table_kept job_kept db'
            (alter (fun j => Tasks.with_ranking_status Tasks.ranked
                               (Tasks.with_ranking_data d j)) id db')).
  { intros d db'. apply table_kept_alter; [exact job_kept_refl|]. intros r. unfold job_kept. simpl.
    split; [reflexivity | congruence]. }
  destruct (db !! id) as [j|]; [|constructor].
  destruct outcome as [data|e]; simpl.
  - constructor; [apply Hst|]. constructor; [|constructor; [|constructor]].
    + eapply table_kept_trans; [exact job_kept_trans | apply Hst | apply Hstore].
    + eapply table_kept_trans; [exact job_kept_trans | apply Hst |].
      eapply table_kept_trans; [exact job_kept_trans | apply Hstore | apply Hstore].
  - constructor; [apply Hst|]. constructor; [|constructor].
    eapply table_kept_trans; [exact job_kept_trans | apply Hst | apply Hst].
Qed.

Lemma job_points_kept op s :
  Forall (table_kept job_kept (Tasks.posts s)) (Tasks.job_points op s).
Proof.
  destruct op as [id t|found id task|i outcome|now]; simpl.
  - destruct (Tasks.posts s !! id) eqn:E; constructor; [|constructor].
    apply table_kept_insert; [exact job_kept_refl | exact E].
  - unfold Tasks.rank_candidates. destruct found as [[]|e]; [|constructor].
    destruct (Tasks.posts s !! id) as [j|]; [|constructor].
    destruct (_ && _); [constructor|].
    destruct (Tasks.is_ranking j); [constructor|].
    assert (H1 : table_kept job_kept (Tasks.posts s)
                   (alter (Tasks.with_ranking_status Tasks.ranking) id (Tasks.posts s))).
    { apply table_kept_alter; [exact job_kept_refl|]. intros r. unfold job_kept. simpl. auto. }
    destruct task as [t|]; simpl; constructor; try exact H1; [|constructor].
    constructor; [|constructor].
    eapply table_kept_trans; [exact job_kept_trans | exact H1 |].
    apply table_kept_alter; [exact job_kept_refl|]. intros r. unfold job_kept. simpl. auto.
  - destruct (Tasks.rank_queue s !! i); [|constructor]. apply rank_task_kept.
  - constructor; [|constructor]. apply table_kept_fmap.
    intros j. destruct (_ && _); unfold job_kept; simpl; auto.
Qed.

(** X18.  Nothing the extraction operations do is undone or lost later:
    a profile that is in the table after some operations is in it after
    any further ones, with the same file and the same [updated_at], and
    with extracted fields if it had them.  In particular no task run and
    no sweep moves [updated_at], the time the parsing sweep goes by. *)
Theorem profiles_are_kept ops more id c :
  Tasks.profiles (Tasks.candidate_run ops) !! id = Some c ->
  exists c',
    Tasks.profiles (Tasks.candidate_run (ops ++ more)) !! id = Some c'
    /\ Tasks.resume_file c' = Tasks.resume_file c
    /\ Tasks.updated_at c' = Tasks.updated_at c
    /\ (Tasks.resume_data c <> None -> Tasks.resume_data c' <> None).
Proof.
  unfold Tasks.candidate_run. rewrite fold_left_app.
  generalize (fold_left Tasks.candidate_step ops Tasks.no_candidates). intros s.
  assert (H : table_kept profile_kept (Tasks.profiles s)
                (Tasks.profiles (fold_left Tasks.candidate_step more s))).
  { revert s. induction more as [|op more IH]; intros s;
      [apply table_kept_refl, profile_kept_refl|].
    simpl. eapply table_kept_trans; [exact profile_kept_trans | | apply IH].
    rewrite candidate_step_profiles.
    apply table_kept_last; [exact profile_kept_refl | apply candidate_points_kept]. }
  intros Hc. destruct (H id c Hc) as (c' & Hc' & K). exists c'. split; auto.
Qed.

Lemma profiles_are_kept_witness :
  exists c',
    Tasks.profiles
      (Tasks.candidate_run
         (twice_posted ++ [Tasks.RunParseTask 0 (Raise (OtherError (L "timeout")));
                           Tasks.SweepParsing 7200]))
    !! 1%Z = Some c'
    /\ Tasks.resume_file c' = Some (L "https://files.example/resume.pdf")
    /\ Tasks.updated_at c' = 0%Z
    /\ (Some some_fields <> None -> Tasks.resume_data c' <> None).
Proof.
  apply (profiles_are_kept twice_posted
           [Tasks.RunParseTask 0 (Raise (OtherError (L "timeout")));
            Tasks.SweepParsing 7200] 1%Z
           (Tasks.with_parsing_status Tasks.parsed
              (Tasks.with_resume_data some_fields
                 (Tasks.new_profile (Some (L "https://files.example/resume.pdf")) 0)))).
  vm_compute. reflexivity.
Defined.

(** X19.  The same for job posts: a job that is in the table stays in
    it, with the same creation time, and with a ranking result if it had
    one; a failed or repeated ranking never clears the result stored
    before. *)
Theorem jobs_are_kept ops more id j :
  Tasks.posts (Tasks.job_run ops) !! id = Some j ->
  exists j',
    Tasks.posts (Tasks.job_run (ops ++ more)) !! id = Some j'
    /\ Tasks.created_at j' = Tasks.created_at j
    /\ (Tasks.candidate_ranking_data j <> None ->
        Tasks.candidate_ranking_data j' <> None).
Proof.
  unfold Tasks.job_run. rewrite fold_left_app.
  generalize (fold_left Tasks.job_step ops Tasks.no_jobs). intros s.
  assert (H : table_kept job_kept (Tasks.posts s)
                (Tasks.posts (fold_left Tasks.job_step more s))).
  { revert s. induction more as [|op more IH]; intros s;
      [apply table_kept_refl, job_kept_refl|].
    simpl. eapply table_kept_trans; [exact job_kept_trans | | apply IH].
    rewrite job_step_posts.
    apply table_kept_last; [exact job_kept_refl | apply job_points_kept]. }
  intros Hj. destruct (H id j Hj) as (j' & Hj' & K). exists j'. split; auto.
Qed.

Lemma jobs_are_kept_witness :
  exists j',
    Tasks.posts
      (Tasks.job_run
         (retried_and_reposted
          ++ [Tasks.RunRankTask 0 (Raise (OtherError (L "timeout")))]))
    !! 1%Z = Some j'
    /\ Tasks.created_at j' = 0%Z
    /\ (Some some_ranking <> None -> Tasks.candidate_ranking_data j' <> None).
Proof.
  apply (jobs_are_kept retried_and_reposted
           [Tasks.RunRankTask 0 (Raise (OtherError (L "timeout")))] 1%Z
           {| Tasks.candidate_ranking_data := Some some_ranking;
              Tasks.ranking_status_of := Tasks.ranked;
              Tasks.ranking_task_id := Some (L "task-2");
              Tasks.created_at := 0 |}).
  vm_compute. reflexivity.
Defined.

Lemma in_points_frame {R} (f g : R -> R) (id id' : Z) (db db' : gmap Z R) :
  id' <> id ->
  In db' [alter f id db; alter g id (alter f id db)] ->
  db' !! id' = db !! id'.
Proof.
  intros Hne [<- | [<- | []]]; rewrite ?lookup_alter_ne by auto; reflexivity.
Qed.

(** X20.  A task run writes to no record but the one it was sent for:
    at every database state a run of the parse task or of the ranking
    task goes through, every other record is as it was before the
    run. *)
Theorem task_run_touches_one_record :
  (forall retries id outcome db db' id',
     In db' (Tasks.parse_resume_task retries id outcome db).1 ->
     id' <> id -> db' !! id' = db !! id')
  /\ (forall retries id outcome db db' id',
        In db' (Tasks.rank_candidates_task retries id outcome db).1 ->
        id' <> id -> db' !! id' = db !! id').
Proof.
  split; intros retries id outcome db db' id' Hin Hne.
  - unfold Tasks.parse_resume_task in Hin.
    destruct (db !! id) as [c|]; [|destruct Hin].
    destruct (negb _).
    + destruct Hin as [<- | []]. apply lookup_alter_ne. auto.
    + destruct outcome; exact (in_points_frame _ _ _ _ _ _ Hne Hin).
  - unfold Tasks.rank_candidates_task in Hin.
    destruct (db !! id) as [j|]; [|destruct Hin].
    destruct outcome.
    + destruct Hin as [<- | [<- | [<- | []]]];
        rewrite ?lookup_alter_ne by auto; reflexivity.
    + exact (in_points_frame _ _ _ _ _ _ Hne Hin).
Qed.

(* ================================================================== *)
(** * The sweeps                                                        *)
(* ================================================================== *)

(** X21.  Two sweeps one after the other do what the later of them does
    alone: a sweep resets only records that are in progress and older
    than its cutoff, and a record it has reset is no longer in
    progress.  So a sweep repeated at the same time changes nothing. *)
Theorem sweeps_compose a b :
  (forall db,
     Tasks.cleanup_failed_parsing_tasks a (Tasks.cleanup_failed_parsing_tasks b db)
     = Tasks.cleanup_failed_parsing_tasks (Z.max a b) db)
  /\ (forall db,
        Tasks.cleanup_failed_ranking_tasks a (Tasks.cleanup_failed_ranking_tasks b db)
        = Tasks.cleanup_failed_ranking_tasks (Z.max a b) db).
Proof.
  split; intros db.
  - unfold Tasks.cleanup_failed_parsing_tasks.
    rewrite <- map_fmap_compose. apply map_fmap_ext. intros id c _. simpl.
    destruct c as [f d st u]. unfold Tasks.is_parsing.
    destruct st; simpl; try reflexivity.
    destruct (u <? b - 3600)%Z eqn:Eb, (u <? a - 3600)%Z eqn:Ea,
      (u <? Z.max a b - 3600)%Z eqn:Em; simpl; rewrite ?Ea; try reflexivity;
      exfalso;
      repeat match goal with
             | H : (_ <? _)%Z = true |- _ => apply Z.ltb_lt in H
             | H : (_ <? _)%Z = false |- _ => apply Z.ltb_ge in H
             end; lia.
  - unfold Tasks.cleanup_failed_ranking_tasks.
    rewrite <- map_fmap_compose. apply map_fmap_ext. intros id j _. simpl.
    destruct j as [d st t u]. unfold Tasks.is_ranking.
    destruct st; simpl; try reflexivity.
    destruct (u <? b - 7200)%Z eqn:Eb, (u <? a - 7200)%Z eqn:Ea,
      (u <? Z.max a b - 7200)%Z eqn:Em; simpl; rewrite ?Ea; try reflexivity;
      exfalso;
      repeat match goal with
             | H : (_ <? _)%Z = true |- _ => apply Z.ltb_lt in H
             | H : (_ <? _)%Z = false |- _ => apply Z.ltb_ge in H
             end; lia.
Qed.

(* ================================================================== *)
(** * The view actions on reachable states                              *)
(* ================================================================== *)

(** X22.  A record that is done is not submitted again: after any
    operations, posting the parse action for a profile whose status is
    parsed, or the ranking action for a job whose status is ranked,
    changes neither the table nor the queue. *)
Theorem finished_records_are_not_resubmitted :
  (forall ops id dispatched c,
     Tasks.profiles (Tasks.candidate_run ops) !! id = Some c ->
     Tasks.parsing_status_of c = Tasks.parsed ->
     Tasks.candidate_step (Tasks.candidate_run ops)
       (Tasks.PostParseResume id dispatched)
     = Tasks.candidate_run ops)
  /\ (forall ops found id task j,
        Tasks.posts (Tasks.job_run ops) !! id = Some j ->
        Tasks.ranking_status_of j = Tasks.ranked ->
        Tasks.job_step (Tasks.job_run ops)
          (Tasks.PostRankCandidates found id task)
        = Tasks.job_run ops).
Proof.
  split.
  - intros ops id d c Hc Hst.
    pose proof (candidate_run_good ops Tasks.no_candidates
                  (all_good_empty _) id c Hc Hst) as Hdata.
    simpl. unfold Tasks.parse_resume_data. rewrite Hc.
    destruct (negb _); [reflexivity|].
    unfold Tasks.is_parsed. rewrite Hst.
    destruct (Tasks.resume_data c); [reflexivity | congruence].
  - intros ops found id task j Hj Hst.
    pose proof (job_run_good ops Tasks.no_jobs
                  (all_good_empty _) id j Hj Hst) as Hdata.
    unfold Tasks.job_step, Tasks.job_points, Tasks.rank_candidates.
    rewrite Hj. unfold Tasks.is_ranked. rewrite Hst.
    destruct (Tasks.candidate_ranking_data j); [|congruence].
    destruct found as [[]|e]; simpl; destruct (Tasks.job_run ops); reflexivity.
Qed.

(** ** The rank action as the source stands *)

Lemma get_object_raises : Tasks.get_object = Raise AttributeError.
Proof. reflexivity. Qed.

Lemma untouched_step s op :
  match op with
  | Tasks.PostRankCandidates found _ _ => found = Tasks.get_object
  | _ => True
  end ->
  Tasks.rank_queue s = [] -> all_good untouched (Tasks.posts s) ->
  Tasks.rank_queue (Tasks.job_step s op) = []
  /\ all_good untouched (Tasks.posts (Tasks.job_step s op)).
Proof.
  intros Hop Hq Hs. destruct op as [id t|found id task|i outcome|now].
  - split; [exact Hq|]. simpl.
    destruct (Tasks.posts s !! id); [exact Hs|]. simpl.
    apply all_good_insert; [|exact Hs]. repeat split.
  - rewrite Hop, get_object_raises. split; [exact Hq | exact Hs].
  - unfold Tasks.job_step. rewrite Hq. simpl. split; [exact Hq | exact Hs].
  - split; [exact Hq|]. simpl. apply all_good_fmap; [|exact Hs].
    intros j (Hst & Hd & Ht). unfold Tasks.is_ranking. rewrite Hst.
    simpl. repeat split; assumption.
Qed.

(** X23.  As the source stands the rank action starts nothing: the
    queryset of the job views reads [user.organization_set], which is
    not among the accessors the models give a user, so
    [self.get_object()] raises an [AttributeError] before the action
    saves or sends anything.  In every run whose rank actions come to
    that, whatever jobs are created, tasks run and sweeps made, the
    ranking queue stays empty and every job stays as it was created:
    not ranked, without ranking data and without a task id. *)
Theorem rank_action_starts_nothing ops :
  as_the_source_stands ops ->
  Tasks.get_object = Raise AttributeError
  /\ Tasks.rank_queue (Tasks.job_run ops) = []
  /\ forall id j,
       Tasks.posts (Tasks.job_run ops) !! id = Some j ->
       Tasks.ranking_status_of j = Tasks.not_ranked
       /\ Tasks.candidate_ranking_data j = None
       /\ Tasks.ranking_task_id j = None.
Proof.
  intros Hops. split; [reflexivity|]. unfold Tasks.job_run.
  assert (H : forall s,
            Tasks.rank_queue s = [] -> all_good untouched (Tasks.posts s) ->
            Tasks.rank_queue (fold_left Tasks.job_step ops s) = []
            /\ all_good untouched (Tasks.posts (fold_left Tasks.job_step ops s))).
  { induction Hops as [|op ops Hop _ IH]; intros s Hq Hs; [auto|].
    simpl. destruct (untouched_step s op Hop Hq Hs) as [Hq' Hs'].
    apply IH; assumption. }
  destruct (H Tasks.no_jobs eq_refl (all_good_empty _)) as [Hq Hs].
  split; [exact Hq | exact Hs].
Qed.

Lemma rank_action_starts_nothing_witness :
  Tasks.get_object = Raise AttributeError
  /\ Tasks.rank_queue
       (Tasks.job_run
          [Tasks.CreateJob 1 0;
           Tasks.PostRankCandidates Tasks.get_object 1 (Some (L "task-1"));
           Tasks.RunRankTask 0 (Ok some_ranking);
           Tasks.SweepRanking 7260;
           Tasks.PostRankCandidates Tasks.get_object 1 None]) = []
  /\ forall id j,
       Tasks.posts
         (Tasks.job_run
            [Tasks.CreateJob 1 0;
             Tasks.PostRankCandidates Tasks.get_object 1 (Some (L "task-1"));
             Tasks.RunRankTask 0 (Ok some_ranking);
             Tasks.SweepRanking 7260;
             Tasks.PostRankCandidates Tasks.get_object 1 None]) !! id = Some j ->
       Tasks.ranking_status_of j = Tasks.not_ranked
       /\ Tasks.candidate_ranking_data j = None
       /\ Tasks.ranking_task_id j = None.
Proof.
  apply (rank_action_starts_nothing
           [Tasks.CreateJob 1 0;
            Tasks.PostRankCandidates Tasks.get_object 1 (Some (L "task-1"));
            Tasks.RunRankTask 0 (Ok some_ranking);
            Tasks.SweepRanking 7260;
            Tasks.PostRankCandidates Tasks.get_object 1 None]).
  repeat constructor.
Defined.

(** ** The sweep while a ranking runs *)

(** X24.  The ranking sweep goes by the time the job was created, not
    by the time the ranking began: for a job created more than two hours
    before the sweep, the state the ranking task leaves at its first
    save, in which the job is ranking while [ranking_algo] runs, is one
    the sweep resets to not ranked, without a task id, however short a
    time the task has been running. *)
Theorem sweep_resets_running_ranking retries id outcome db j now :
  db !! id = Some j ->
  (Tasks.created_at j < now - 7200)%Z ->
  exists db1 later j1 j2,
    (Tasks.rank_candidates_task retries id outcome db).1 = db1 :: later
    /\ db1 !! id = Some j1
    /\ Tasks.ranking_status_of j1 = Tasks.ranking
    /\ Tasks.cleanup_failed_ranking_tasks now db1 !! id = Some j2
    /\ Tasks.ranking_status_of j2 = Tasks.not_ranked
    /\ Tasks.ranking_task_id j2 = None
    /\ Tasks.candidate_ranking_data j2 = Tasks.candidate_ranking_data j.
Proof.
  intros Hj Hold. unfold Tasks.rank_candidates_task. rewrite Hj.
  set (j1 := Tasks.with_ranking_status Tasks.ranking j).
  assert (H1 : alter (Tasks.with_ranking_status Tasks.ranking) id db !! id = Some j1)
    by (rewrite lookup_alter_eq, Hj; reflexivity).
  assert (H2 : Tasks.cleanup_failed_ranking_tasks now
                 (alter (Tasks.with_ranking_status Tasks.ranking) id db) !! id
               = Some (Tasks.with_task_id None
                         (Tasks.with_ranking_status Tasks.not_ranked j1))).
  { unfold Tasks.cleanup_failed_ranking_tasks. rewrite lookup_fmap, H1.
    cbn [fmap option_fmap option_map]. unfold Tasks.is_ranking. simpl.
    apply Z.ltb_lt in Hold. rewrite Hold. reflexivity. }
  destruct outcome as [data|e]; cbn [fst].
  - eexists _, _, j1, _. split; [reflexivity|]. split; [exact H1|].
    split; [reflexivity|]. split; [exact H2|]. repeat split.
  - eexists _, _, j1, _. split; [reflexivity|]. split; [exact H1|].
    split; [reflexivity|]. split; [exact H2|]. repeat split.
Qed.

Lemma sweep_resets_running_ranking_witness :
  exists db1 later j1 j2,
    (Tasks.rank_candidates_task 0 1 (Ok some_ranking)
       (Tasks.posts old_job_posted)).1 = db1 :: later
    /\ db1 !! 1%Z = Some j1
    /\ Tasks.ranking_status_of j1 = Tasks.ranking
    /\ Tasks.cleanup_failed_ranking_tasks 7260 db1 !! 1%Z = Some j2
    /\ Tasks.ranking_status_of j2 = Tasks.not_ranked
    /\ Tasks.ranking_task_id j2 = None
    /\ Tasks.candidate_ranking_data j2
       = Tasks.candidate_ranking_data (Tasks.new_job 0).
Proof.
  apply (sweep_resets_running_ranking 0 1 (Ok some_ranking)
           (Tasks.posts old_job_posted) (Tasks.new_job 0) 7260).
  - vm_compute. reflexivity.
  - reflexivity.
Defined.

(* ================================================================== *)
(** * The stored conversation                                           *)
(* ================================================================== *)



(** The table after a message has been saved for the session. *)
Lemma save_message_ok outcome session role content now st st' :
  Chat.save_message outcome session role content now st = (st', Ok tt) ->
  exists c,
    content = Some c
    /\ Chat.sessions st' = Chat.sessions st
    /\ Chat.chat_messages st'
       = Chat.chat_messages st
         ++ [{| Chat.cm_session := session; Chat.cm_role := role;
                Chat.cm_content := c; Chat.cm_created_at := now |}].
Proof.
  unfold Chat.save_message. destruct content as [c|]; [|discriminate].
  destruct outcome; [|discriminate]. intros [= <-]. eauto.
Qed.

Lemma save_message_raise outcome session role content now st st' e :
  Chat.save_message outcome session role content now st = (st', Raise e) ->
  st' = st.
Proof.
  unfold Chat.save_message. destruct content as [c|].
  - destruct outcome; [discriminate|]. intros [= <- _]. reflexivity.
  - intros [= <- _]. reflexivity.
Qed.



Lemma get_or_create_session_messages db session_id mode user_id slug fresh st st1 r :
  Chat.get_or_create_session db session_id mode user_id slug fresh st = (st1, r) ->
  Chat.chat_messages st1 = Chat.chat_messages st.
Proof.
  unfold Chat.get_or_create_session.
  destruct session_id as [id|].
  - destruct (db Chat.GetSession); [|intros [= <- _]; reflexivity].
    destruct (Chat.has_session id st); intros [= <- _]; reflexivity.
  - destruct (db Chat.CreateSession); [|intros [= <- _]; reflexivity].
    destruct (Chat.has_session fresh st); intros [= <- _]; reflexivity.
Qed.

(** The session table after [get_or_create_session]: as before, or with
    the new session at its end. *)
Lemma get_or_create_session_sessions db session_id mode user_id slug fresh st st1 r :
  Chat.get_or_create_session db session_id mode user_id slug fresh st = (st1, r) ->
  (session_id <> None -> st1 = st)
  /\ (Chat.sessions st1 = Chat.sessions st
      \/ session_id = None
         /\ r = Ok fresh
         /\ Chat.sessions st1
            = Chat.sessions st
              ++ [{| Chat.cs_id := fresh; Chat.cs_mode := mode;
                     Chat.cs_user_id := user_id;
                     Chat.cs_candidate_slug := slug |}]).
Proof.
  unfold Chat.get_or_create_session.
  destruct session_id as [id|].
  - destruct (db Chat.GetSession);
      [destruct (Chat.has_session id st)|]; intros [= <- _]; auto.
  - destruct (db Chat.CreateSession); [|intros [= <- _]; split; [congruence | auto]].
    destruct (Chat.has_session fresh st); intros [= <- <-];
      (split; [congruence|]); auto.
Qed.



(** X26.  A call that raises has saved no reply, and of the user's
    message nothing or the message alone: the stored messages are as
    before, or, when the completion came back and the save of its reply
    raised (as it does for a reply without content), as before with the
    user's message added, which then stays without a reply.  With a
    session identifier no session is added either. *)
Theorem failed_chat_saves_no_reply sv message session_id mode user_id slug
    st st' e :
  Chat.lyra_chat_supabase sv message session_id mode user_id slug st
  = (st', Raise e) ->
  (session_id <> None -> Chat.sessions st' = Chat.sessions st)
  /\ (Chat.chat_messages st' = Chat.chat_messages st
      \/ exists session model reply,
           Chat.completion sv model
             (Chat.request (Chat.load_history session st) message)
           = Ok reply
           /\ (reply = None \/ exists e', Chat.database sv Chat.InsertReply = Raise e')
           /\ Chat.chat_messages st'
              = Chat.chat_messages st
                ++ [{| Chat.cm_session := session; Chat.cm_role := L "user";
                       Chat.cm_content := message;
                       Chat.cm_created_at := Chat.now_user sv |}]).
Proof.
  unfold Chat.lyra_chat_supabase.
  destruct (Chat.get_or_create_session _ _ _ _ _ _ st) as [st1 r] eqn:Eg.
  pose proof (get_or_create_session_messages _ _ _ _ _ _ _ _ _ Eg) as Hm.
  destruct (get_or_create_session_sessions _ _ _ _ _ _ _ _ _ Eg) as [Hsame _].
  assert (Hs1 : session_id <> None -> Chat.sessions st1 = Chat.sessions st)
    by (intros H; rewrite (Hsame H); reflexivity).
  assert (Hh : forall s, Chat.load_history s st1 = Chat.load_history s st).
  { intros s. unfold Chat.load_history, Chat.messages_of. rewrite Hm. reflexivity. }
  destruct r as [sid|e1]; [|intros [= <- _]; auto].
  destruct (Chat.database sv Chat.SelectMessages); [|intros [= <- _]; auto].
  cbv zeta. rewrite Hh.
  destruct (Chat.completion sv _ _) as [reply|e2] eqn:Ec; [|intros [= <- _]; auto].
  destruct (Chat.save_message _ sid (L "user") _ _ st1) as [st2 [[]|e3]] eqn:E2.
  - apply save_message_ok in E2 as (c2 & [= <-] & S2 & M2).
    destruct (Chat.save_message _ sid (L "assistant") _ _ st2) as [st3 [[]|e4]] eqn:E3;
      [discriminate|].
    intros [= <- _].
    assert (Hwhy : reply = None
                   \/ exists e', Chat.database sv Chat.InsertReply = Raise e').
    { unfold Chat.save_message in E3. destruct reply as [c|]; [|auto].
      destruct (Chat.database sv Chat.InsertReply); [discriminate | eauto]. }
    apply save_message_raise in E3 as ->.
    split; [intros H; rewrite S2; auto|].
    right. exists sid. eexists. exists reply.
    split; [exact Ec|]. split; [exact Hwhy|]. rewrite M2, Hm. reflexivity.
  - apply save_message_raise in E2 as ->. intros [= <- _]. auto.
Qed.

Lemma failed_chat_saves_no_reply_witness :
  (@None Z <> None ->
   Chat.sessions
     (Chat.lyra_chat_supabase mentor_silent (L "Plan my year") None
        (L "candidate") None None no_chats).1
   = Chat.sessions no_chats)
  /\ (Chat.chat_messages
        (Chat.lyra_chat_supabase mentor_silent (L "Plan my year") None
           (L "candidate") None None no_chats).1
      = Chat.chat_messages no_chats
      \/ exists session model reply,
           Chat.completion mentor_silent model
             (Chat.request (Chat.load_history session no_chats) (L "Plan my year"))
           = Ok reply
           /\ (reply = None
               \/ exists e', Chat.database mentor_silent Chat.InsertReply = Raise e')
           /\ Chat.chat_messages
                (Chat.lyra_chat_supabase mentor_silent (L "Plan my year") None
                   (L "candidate") None None no_chats).1
              = Chat.chat_messages no_chats
                ++ [{| Chat.cm_session := session; Chat.cm_role := L "user";
                       Chat.cm_content := L "Plan my year";
                       Chat.cm_created_at := Chat.now_user mentor_silent |}]).
Proof.
  apply (failed_chat_saves_no_reply mentor_silent (L "Plan my year") None
           (L "candidate") None None no_chats _ (OtherError (L "IntegrityError"))).
  vm_compute. reflexivity.
Defined.

(** The user's message of that call is in the table, and no reply to
    it. *)
Example message_without_reply :
  Chat.lyra_chat_supabase mentor_silent (L "Plan my year") None (L "candidate")
    None None no_chats
  = ({| Chat.sessions :=
          [{| Chat.cs_id := 7; Chat.cs_mode := L "candidate";
              Chat.cs_user_id := None; Chat.cs_candidate_slug := None |}];
        Chat.chat_messages :=
          [{| Chat.cm_session := 7; Chat.cm_role := L "user";
              Chat.cm_content := L "Plan my year"; Chat.cm_created_at := 10 |}] |},
     Raise (OtherError (L "IntegrityError"))).
Proof. reflexivity. Qed.
